(** * hover-sum: the provider-fallback summary pipeline

    A shallow embedding of the summary cache (cache.js), the structured
    response parser (gemini-api.js), caption-track selection and transcript
    fetching (transcript-fetcher.js), the provider cascade (api-manager.js)
    and the two end-to-end handlers of background.js, followed by the
    properties the specification states about them. *)

From Stdlib Require Import ZArith NArith List Ascii String Bool Lia DecimalString.
From stdpp Require Import base option list gmap.

Local Open Scope Z_scope.

(* ===================================================================== *)
(** * JavaScript strings                                                  *)
(* ===================================================================== *)

(** A JavaScript string is a sequence of UTF-16 code units. *)
Abbreviation jsstring := (list N).

Module Js.

(** ASCII literals of the source, as code units. *)
Definition str (s : string) : jsstring :=
  map N_of_ascii (list_ascii_of_string s).

Definition nl : jsstring := [10%N].

(** The characters matched by the regex class [\s] and removed by
    [String.prototype.trim]: WhiteSpace and LineTerminator code points. *)
Definition is_space (c : N) : bool :=
  ((9 <=? c) && (c <=? 13) || (c =? 32) || (c =? 160) || (c =? 5760)
   || (8192 <=? c) && (c <=? 8202) || (c =? 8232) || (c =? 8233)
   || (c =? 8239) || (c =? 8287) || (c =? 12288) || (c =? 65279))%N.

(** [\d] *)
Definition is_digit (c : N) : bool := ((48 <=? c) && (c <=? 57))%N.

(** LineTerminator: what [.] refuses. *)
Definition is_line_terminator (c : N) : bool :=
  ((c =? 10) || (c =? 13) || (c =? 8232) || (c =? 8233))%N.

Fixpoint trimStart (s : jsstring) : jsstring :=
  match s with
  | c :: s' => if is_space c then trimStart s' else s
  | [] => []
  end.

Definition trimEnd (s : jsstring) : jsstring := rev (trimStart (rev s)).

Definition trim (s : jsstring) : jsstring := trimEnd (trimStart s).

Fixpoint startsWith (s p : jsstring) {struct p} : bool :=
  match p, s with
  | [], _ => true
  | a :: p', b :: s' => (a =? b)%N && startsWith s' p'
  | _ :: _, [] => false
  end.

Fixpoint includes (s p : jsstring) : bool :=
  startsWith s p ||
  match s with
  | [] => false
  | _ :: s' => includes s' p
  end.

(** The longest prefix of characters in a class (a greedy [c*] that is
    never given back), and what follows it. *)
Fixpoint take_while (f : N -> bool) (s : jsstring) : jsstring :=
  match s with
  | c :: s' => if f c then c :: take_while f s' else []
  | [] => []
  end.

Fixpoint drop_while (f : N -> bool) (s : jsstring) : jsstring :=
  match s with
  | c :: s' => if f c then drop_while f s' else s
  | [] => []
  end.

(** [Array.prototype.join] *)
Fixpoint join (sep : jsstring) (xs : list jsstring) : jsstring :=
  match xs with
  | [] => []
  | [x] => x
  | x :: xs' => x ++ sep ++ join sep xs'
  end.

(** [String.prototype.split('\n')]: always at least one piece. *)
Fixpoint split_lines_aux (cur : jsstring) (s : jsstring) : list jsstring :=
  match s with
  | [] => [rev cur]
  | c :: s' =>
      if (c =? 10)%N then rev cur :: split_lines_aux [] s'
      else split_lines_aux (c :: cur) s'
  end.

Definition split_lines (s : jsstring) : list jsstring := split_lines_aux [] s.

(** Number to string, for the integers that occur (HTTP status codes). *)
Definition of_Z (z : Z) : jsstring :=
  str (NilZero.string_of_int (Z.to_int z)).

(** Truthiness of a string-or-undefined value: [undefined], [null] and the
    empty string are falsy. *)
Definition truthy (v : option jsstring) : bool :=
  match v with
  | Some (_ :: _) => true
  | _ => false
  end.

(** [v || d] for a string-or-undefined [v]. *)
Definition or_default (v : option jsstring) (d : jsstring) : jsstring :=
  match v with
  | Some (c :: s) => c :: s
  | _ => d
  end.

(** [`${v}`] for a string-or-null [v]. *)
Definition interpolate (v : option jsstring) : jsstring :=
  match v with
  | Some s => s
  | None => str "null"
  end.

Fixpoint eqb (a b : jsstring) : bool :=
  match a, b with
  | [], [] => true
  | x :: a', y :: b' => (x =? y)%N && eqb a' b'
  | _, _ => false
  end.

(** Thrown values: every value thrown in these files is an [Error]
    object, of which [name] and [message] are read. *)
Record error := { name : jsstring; message : jsstring }.

(** [new Error(msg)] *)
Definition Error (msg : jsstring) : error :=
  {| name := str "Error"; message := msg |}.

(** The outcome of an awaited call: a value, or a thrown error. *)
Inductive result (A : Type) :=
| Returned (a : A)
| Thrown (e : error).
Arguments Returned {A} a.
Arguments Thrown {A} e.

End Js.

(* ===================================================================== *)
(** * Regular expressions                                                 *)
(* ===================================================================== *)

(** The backtracking matcher of JavaScript regular expressions, for the
    constructs the patterns of this repository use.  A repetition is
    always over a single-character class, and a pattern has at most one
    capture group. *)
Module Regex.

Inductive re :=
| Eps                                    (* the empty pattern *)
| Chr (c : N)                            (* a pattern character *)
| Class (p : N -> bool)                  (* [...], \s, \d, . *)
| Seq (a b : re)                         (* ab *)
| Alt (a b : re)                         (* a|b *)
| Star (greedy : bool) (p : N -> bool)   (* c* and c*? *)
| Group (r : re)                         (* (r), group 1 *)
| Ahead (r : re)                         (* (?=r) *)
| Bol                                    (* ^ without the m flag *)
| Eol.                                   (* $ without the m flag *)

(** Canonicalize of the [i] flag without the [u] flag, for comparison
    against ASCII pattern characters: a code unit above 127 never
    canonicalizes to an ASCII one.  The classes of these patterns hold no
    letters, so the flag plays no part in [Class] and [Star]. *)
Definition canonicalize (c : N) : N :=
  if ((97 <=? c) && (c <=? 122))%N then (c - 32)%N else c.

Definition same_char (ignoreCase : bool) (a b : N) : bool :=
  if ignoreCase then (canonicalize a =? canonicalize b)%N else (a =? b)%N.

(** A successful match: what precedes it, its group 1 ([None] when the
    group took no part) and what follows it. *)
Record found := { before : jsstring; group1 : option jsstring; after : jsstring }.

(** [c*] and [c*?] in front of the continuation [k]: the greedy form
    tries the longest run first and gives characters back one at a time,
    the lazy form tries the shortest first.  [bol] tells whether the
    position is the start of the input. *)
Fixpoint star {R} (greedy : bool) (p : N -> bool)
    (k : bool -> jsstring -> option R) (bol : bool) (s : jsstring) : option R :=
  if greedy then
    match s with
    | c :: s' =>
        if p c then
          match star greedy p k false s' with
          | Some r => Some r
          | None => k bol s
          end
        else k bol s
    | [] => k bol []
    end
  else
    match k bol s with
    | Some r => Some r
    | None =>
        match s with
        | c :: s' => if p c then star greedy p k false s' else None
        | [] => None
        end
    end.

Section Matcher.
Variable ignoreCase : bool.

(** Match [r] at the start of [s], then continue with [k] on the rest of
    the input and the capture so far. *)
Fixpoint m {R} (r : re) (bol : bool) (s : jsstring) (cap : option jsstring)
    (k : bool -> jsstring -> option jsstring -> option R) : option R :=
  match r with
  | Eps => k bol s cap
  | Chr c =>
      match s with
      | x :: s' => if same_char ignoreCase x c then k false s' cap else None
      | [] => None
      end
  | Class p =>
      match s with
      | x :: s' => if p x then k false s' cap else None
      | [] => None
      end
  | Seq a b => m a bol s cap (fun bol' s' cap' => m b bol' s' cap' k)
  | Alt a b =>
      match m a bol s cap k with
      | Some res => Some res
      | None => m b bol s cap k
      end
  | Star greedy p => star greedy p (fun bol' s' => k bol' s' cap) bol s
  | Group a =>
      m a bol s cap
        (fun bol' s' _ => k bol' s' (Some (take (length s - length s') s)))
  | Ahead a =>
      match m a bol s cap (fun _ _ cap' => Some cap') with
      | Some cap' => k bol s cap'
      | None => None
      end
  | Bol => if bol then k bol s cap else None
  | Eol =>
      match s with
      | [] => k bol [] cap
      | _ :: _ => None
      end
  end.

Definition accept (bol : bool) (s : jsstring) (cap : option jsstring)
  : option (option jsstring * jsstring) := Some (cap, s).

(** The leftmost position at which the pattern matches. *)
Fixpoint search_from (r : re) (bol : bool) (skipped : jsstring) (s : jsstring)
  : option found :=
  match m r bol s None accept with
  | Some (cap, s') => Some {| before := rev skipped; group1 := cap; after := s' |}
  | None =>
      match s with
      | [] => None
      | c :: s' => search_from r false (c :: skipped) s'
      end
  end.

(** [s.match(r)] for a pattern without the g flag *)
Definition exec (r : re) (s : jsstring) : option found := search_from r true [] s.

(** The truthiness of [s.match(r)] *)
Definition test (r : re) (s : jsstring) : bool :=
  match exec r s with
  | Some _ => true
  | None => false
  end.

(** [s.replace(r, '')] for a pattern without the g flag *)
Definition remove_first (r : re) (s : jsstring) : jsstring :=
  match exec r s with
  | Some f => before f ++ after f
  | None => s
  end.

(** Does [s] start with the characters of [lit]? *)
Fixpoint starts_with (s lit : jsstring) {struct lit} : bool :=
  match lit, s with
  | [], _ => true
  | a :: lit', b :: s' => same_char ignoreCase b a && starts_with s' lit'
  | _ :: _, [] => false
  end.
End Matcher.

(** A run of pattern characters. *)
Fixpoint lit (cs : jsstring) : re :=
  match cs with
  | [] => Eps
  | c :: cs' => Seq (Chr c) (lit cs')
  end.

(** [match[1]] of a match result; [None] where there is no match. *)
Definition capture (o : option found) : option jsstring :=
  match o with
  | Some f => group1 f
  | None => None
  end.

(** [.] *)
Definition dot (c : N) : bool := negb (Js.is_line_terminator c).

(** [[\s\S]] *)
Definition any (c : N) : bool := true.

End Regex.

(* ===================================================================== *)
(** * Summary cache (cache.js)                                            *)
(* ===================================================================== *)

(** [chrome.storage.local]: a key-value area whose calls can be rejected
    by the browser. *)
Module Storage.

Inductive call :=
| CallGet (key : jsstring)
| CallGetAll
| CallSet (key : jsstring)
| CallRemove (key : jsstring)
| CallRemoveAll (keys : list jsstring).

Inductive outcome (A : Type) :=
| Resolved (a : A)
| Rejected.
Arguments Resolved {A} a.
Arguments Rejected {A}.

(** Which calls the browser rejects. *)
Definition faults := call -> bool.

(** A storage layer that never rejects. *)
Definition reliable : faults := fun _ => false.

Section Area.
Context {V : Type}.
Variable rejects : faults.

Definition get (key : jsstring) (area : gmap jsstring V) : outcome (option V) :=
  if rejects (CallGet key) then Rejected else Resolved (area !! key).

Definition set (key : jsstring) (v : V) (area : gmap jsstring V)
  : outcome (gmap jsstring V) :=
  if rejects (CallSet key) then Rejected else Resolved (<[key := v]> area).

Definition remove (key : jsstring) (area : gmap jsstring V)
  : outcome (gmap jsstring V) :=
  if rejects (CallRemove key) then Rejected else Resolved (delete key area).

(** get(null): every item, as key-value pairs. *)
Definition get_all (area : gmap jsstring V) : outcome (list (jsstring * V)) :=
  if rejects CallGetAll then Rejected else Resolved (map_to_list area).

(** remove(keys) *)
Definition remove_all (keys : list jsstring) (area : gmap jsstring V)
  : outcome (gmap jsstring V) :=
  if rejects (CallRemoveAll keys) then Rejected
  else Resolved (foldr delete area keys).
End Area.

End Storage.

Module SummaryCache.
Import Storage.

Definition CACHE_PREFIX : jsstring := Js.str "yt_summary_".
Definition DEFAULT_TTL_HOURS : Z := 168.

Section Cache.
(** The cached summary object; the cache never looks inside it. *)
Context {Data : Type}.

Record CacheEntry := {
  data : Data;
  expiresAt : Z;
  cachedAt : Z
}.

Variable rejects : faults.

(** async delete(videoId) *)
Definition delete (videoId : jsstring) (area : gmap jsstring CacheEntry)
  : gmap jsstring CacheEntry :=
  let key := CACHE_PREFIX ++ videoId in
  match Storage.remove rejects key area with
  | Resolved area' => area'
  | Rejected => area                      (* catch: logged, swallowed *)
  end.

(** async get(videoId); [now] is the reading of [Date.now()].  The
    result is the returned value ([None] for [null]) and the storage
    area after the call. *)
Definition get (now : Z) (videoId : jsstring) (area : gmap jsstring CacheEntry)
  : option Data * gmap jsstring CacheEntry :=
  let key := CACHE_PREFIX ++ videoId in
  match Storage.get rejects key area with
  | Rejected => (None, area)              (* catch: logged, null *)
  | Resolved None => (None, area)         (* if (!cached) return null *)
  | Resolved (Some cached) =>
      (* cached.expiresAt && Date.now() > cached.expiresAt *)
      if negb (expiresAt cached =? 0) && (expiresAt cached <? now)
      then (None, delete videoId area)
      else (Some (data cached), area)
  end.

(** async set(videoId, data, ttlHours = 168); [now] and [now'] are the
    two readings of [Date.now()], for expiresAt and for cachedAt. *)
Definition set (now now' : Z) (videoId : jsstring) (d : Data) (ttlHours : Z)
    (area : gmap jsstring CacheEntry) : gmap jsstring CacheEntry :=
  let key := CACHE_PREFIX ++ videoId in
  let expires := now + ttlHours * 60 * 60 * 1000 in
  match Storage.set rejects key
          {| data := d; expiresAt := expires; cachedAt := now' |} area with
  | Resolved area' => area'
  | Rejected => area                      (* catch: logged, swallowed *)
  end.

(** set with the default argument *)
Definition set_default (now now' : Z) (videoId : jsstring) (d : Data) :=
  set now now' videoId d DEFAULT_TTL_HOURS.

(** key.startsWith(CACHE_PREFIX) *)
Definition owned (key : jsstring) : bool := Js.startsWith key CACHE_PREFIX.

(** async clear(): the count it returns and the area it leaves. *)
Definition clear (area : gmap jsstring CacheEntry) : nat * gmap jsstring CacheEntry :=
  match Storage.get_all rejects area with
  | Rejected => (0%nat, area)             (* catch: logged, 0 *)
  | Resolved items =>
      let keysToRemove := List.filter owned (map fst items) in
      match keysToRemove with
      | [] => (0%nat, area)
      | _ :: _ =>
          match Storage.remove_all rejects keysToRemove area with
          | Resolved area' => (length keysToRemove, area')
          | Rejected => (0%nat, area)     (* catch: logged, 0 *)
          end
      end
  end.

Record Stats := { total : nat; valid : nat; expired : nat }.

(** !item.expiresAt || now <= item.expiresAt *)
Definition unexpired (now : Z) (item : CacheEntry) : bool :=
  (expiresAt item =? 0) || (now <=? expiresAt item).

(** async getStats() *)
Definition getStats (now : Z) (area : gmap jsstring CacheEntry) : Stats :=
  match Storage.get_all rejects area with
  | Rejected => {| total := 0; valid := 0; expired := 0 |}
  | Resolved items =>
      let cacheItems := map snd (List.filter (fun kv => owned (fst kv)) items) in
      let valid_ := List.filter (unexpired now) cacheItems in
      {| total := length cacheItems;
         valid := length valid_;
         expired := length cacheItems - length valid_ |}
  end.
End Cache.

Arguments CacheEntry : clear implicits.

End SummaryCache.

(* ===================================================================== *)
(** * Structured response parser (gemini-api.js)                          *)
(* ===================================================================== *)

Module GeminiAPI.
Import Regex.

Definition DISCLAIMER : jsstring := Js.str "DISCLAIMER:".
Definition SUMMARY : jsstring := Js.str "SUMMARY:".
Definition TAKEAWAYS : jsstring := Js.str "TAKEAWAYS:".

(** /DISCLAIMER:\s*(.+?)(?:\n|$)/i *)
Definition re_disclaimer : re :=
  Seq (lit DISCLAIMER)
   (Seq (Star true Js.is_space)
    (Seq (Group (Seq (Class dot) (Star false dot)))
         (Alt (Chr 10) Eol))).

(** /SUMMARY:\s*([\s\S]*?)(?=TAKEAWAYS:|$)/i *)
Definition re_summary : re :=
  Seq (lit SUMMARY)
   (Seq (Star true Js.is_space)
    (Seq (Group (Star false any))
         (Ahead (Alt (lit TAKEAWAYS) Eol)))).

(** /TAKEAWAYS:\s*([\s\S]*?)$/i *)
Definition re_takeaways : re :=
  Seq (lit TAKEAWAYS)
   (Seq (Star true Js.is_space)
    (Seq (Group (Star false any)) Eol)).

(** [[-*•]] *)
Definition is_bullet_glyph (c : N) : bool :=
  ((c =? 45) || (c =? 42) || (c =? 8226))%N.

(** /^[-*•]\s/ *)
Definition re_bullet : re :=
  Seq Bol (Seq (Class is_bullet_glyph) (Class Js.is_space)).

(** /^[-*•]\s+/ *)
Definition re_bullet_prefix : re :=
  Seq Bol (Seq (Class is_bullet_glyph)
   (Seq (Class Js.is_space) (Star true Js.is_space))).

(** /^\d+\./ *)
Definition re_numeral : re :=
  Seq Bol (Seq (Class Js.is_digit) (Seq (Star true Js.is_digit) (Chr 46))).

(** /^\d+\.\s+/ *)
Definition re_numeral_prefix : re :=
  Seq Bol (Seq (Class Js.is_digit) (Seq (Star true Js.is_digit)
   (Seq (Chr 46) (Seq (Class Js.is_space) (Star true Js.is_space))))).

(** disclaimerMatch[1], summarySection[1] and takeawaysSection[1]; [None]
    where the pattern does not match. *)
Definition disclaimerMatch (text : jsstring) : option jsstring :=
  capture (exec true re_disclaimer text).

Definition summarySection (text : jsstring) : option jsstring :=
  capture (exec true re_summary text).

Definition takeawaysSection (text : jsstring) : option jsstring :=
  capture (exec true re_takeaways text).

Record ParsedResponse := {
  summary : list jsstring;
  takeaways : list jsstring;
  disclaimer : option jsstring;
  hasTranscript : bool
}.

(** _parseResponse(text, hasTranscript) *)
Definition _parseResponse (text : jsstring) (hasTranscript : bool) : ParsedResponse :=
  {| disclaimer :=
       match disclaimerMatch text with
       | Some group => Some (Js.trim group)
       | None => None
       end;
     summary :=
       match summarySection text with
       | Some section =>
           take 8 (map (remove_first false re_bullet_prefix)
                     (List.filter (test false re_bullet)
                        (map Js.trim (Js.split_lines section))))
       | None => []
       end;
     takeaways :=
       match takeawaysSection text with
       | Some section =>
           take 3 (map (remove_first false re_numeral_prefix)
                     (List.filter (test false re_numeral)
                        (map Js.trim (Js.split_lines section))))
       | None => []
       end;
     hasTranscript := hasTranscript |}.

End GeminiAPI.

(* ===================================================================== *)
(** * Transcript fetcher (transcript-fetcher.js)                          *)
(* ===================================================================== *)

Module TranscriptFetcher.

(** A caption track of the player response; each field may be missing. *)
Record CaptionTrack := {
  languageCode : option jsstring;
  kind : option jsstring;
  baseUrl : option jsstring
}.

(** [t.languageCode === 'en'] *)
Definition is_en (t : CaptionTrack) : bool :=
  match languageCode t with
  | Some l => Js.eqb l (Js.str "en")
  | None => false
  end.

(** [t.languageCode?.startsWith('en')] *)
Definition en_prefixed (t : CaptionTrack) : bool :=
  match languageCode t with
  | Some l => Js.startsWith l (Js.str "en")
  | None => false
  end.

(** [t.kind === 'asr'] *)
Definition is_asr (t : CaptionTrack) : bool :=
  match kind t with
  | Some k => Js.eqb k (Js.str "asr")
  | None => false
  end.

Definition priorities : list (CaptionTrack -> bool) :=
  [ (fun t => is_en t && negb (is_asr t));
    (fun t => is_en t && is_asr t);
    (fun t => en_prefixed t && negb (is_asr t));
    (fun t => en_prefixed t);
    (fun t => negb (is_asr t));
    (fun t => true) ].

(** [for (const test of priorities) { const track = tracks.find(test);
    if (track) return track; }] *)
Fixpoint first_found (tests : list (CaptionTrack -> bool))
    (tracks : list CaptionTrack) : option CaptionTrack :=
  match tests with
  | [] => None
  | test :: tests' =>
      match List.find test tracks with
      | Some track => Some track
      | None => first_found tests' tracks
      end
  end.

(** _selectBestTrack(tracks); [None] is [null]. *)
Definition _selectBestTrack (tracks : list CaptionTrack) : option CaptionTrack :=
  match tracks with
  | [] => None
  | _ :: _ =>
      match first_found priorities tracks with
      | Some track => Some track
      | None => head tracks
      end
  end.

Inductive Source := innertube | page_scrape.

(** The object [fetchTranscript] resolves to.  [source] is [None] when the
    field is [null] or not set, [error] is [None] when it is not set. *)
Record TranscriptResult := {
  text : option jsstring;
  available : bool;
  source : option Source;
  error : option jsstring
}.

Section Fetch.
(** The two extraction methods, each awaited once per call: what they
    resolve to ([None] for [null]) or throw. *)
Variable _fetchViaInnertube : jsstring -> Js.result (option jsstring).
Variable _fetchFromVideoPage : jsstring -> Js.result (option jsstring).

Definition caught (e : Js.error) : TranscriptResult :=
  {| text := None; available := false; source := None;
     error := Some (Js.message e) |}.

(** async fetchTranscript(videoId) *)
Definition fetchTranscript (videoId : jsstring) : TranscriptResult :=
  match _fetchViaInnertube videoId with
  | Js.Thrown e => caught e
  | Js.Returned transcript =>
      if Js.truthy transcript then
        {| text := transcript; available := true;
           source := Some innertube; error := None |}
      else
        match _fetchFromVideoPage videoId with
        | Js.Thrown e => caught e
        | Js.Returned transcript' =>
            if Js.truthy transcript' then
              {| text := transcript'; available := true;
                 source := Some page_scrape; error := None |}
            else
              {| text := None; available := false;
                 source := None; error := None |}
        end
  end.
End Fetch.

(** What [fetchMetadata] resolves to. *)
Record VideoMetadata := {
  title : option jsstring;
  channel : option jsstring;
  description : option jsstring;
  duration : option jsstring;
  viewCount : option jsstring
}.

End TranscriptFetcher.

(* ===================================================================== *)
(** * Provider cascade (api-manager.js)                                   *)
(* ===================================================================== *)

(** Parsed JSON bodies and the property reads the providers perform. *)
Module Json.

#[local] Set Warnings "-register-all".

Inductive value :=
| JNull
| JBool (b : bool)
| JNum (n : Z)
| JStr (s : jsstring)
| JArr (items : list value)
| JObj (fields : list (string * value)).

Fixpoint lookup (k : string) (fields : list (string * value)) : option value :=
  match fields with
  | [] => None
  | (k', v) :: fields' => if String.eqb k k' then Some v else lookup k fields'
  end.

Section Reads.
(** The text of the engine's TypeError for a read through [undefined]
    or [null], or a call of something that is not a function. *)
Variable type_error_message : jsstring.

Definition TypeError : Js.error :=
  {| Js.name := Js.str "TypeError"; Js.message := type_error_message |}.

(** [v.k]; [None] is [undefined]. *)
Definition prop (v : option value) (k : string) : Js.result (option value) :=
  match v with
  | None | Some JNull => Js.Thrown TypeError
  | Some (JObj fields) => Js.Returned (lookup k fields)
  | Some _ => Js.Returned None
  end.

(** [v[0]] *)
Definition first (v : option value) : Js.result (option value) :=
  match v with
  | None | Some JNull => Js.Thrown TypeError
  | Some (JObj fields) => Js.Returned (lookup "0" fields)
  | Some (JArr items) => Js.Returned (head items)
  | Some (JStr (c :: _)) => Js.Returned (Some (JStr [c]))
  | Some _ => Js.Returned None
  end.

(** [v.trim()] *)
Definition trim (v : option value) : Js.result jsstring :=
  match v with
  | Some (JStr s) => Js.Returned (Js.trim s)
  | _ => Js.Thrown TypeError
  end.

(** [v?.trim()]; [None] is [undefined]. *)
Definition optional_trim (v : option value) : Js.result (option jsstring) :=
  match v with
  | None | Some JNull => Js.Returned None
  | Some (JStr s) => Js.Returned (Some (Js.trim s))
  | Some _ => Js.Thrown TypeError
  end.
End Reads.

End Json.

Module APIManager.

Inductive Provider := gemini | openrouter | deepseek | local.

(** this.providers *)
Definition providers : list Provider := [gemini; openrouter; deepseek; local].

Definition provider_name (p : Provider) : jsstring :=
  match p with
  | gemini => Js.str "gemini"
  | openrouter => Js.str "openrouter"
  | deepseek => Js.str "deepseek"
  | local => Js.str "local"
  end.

(** The settings record of [chrome.storage.sync]; [None] is a key that
    is not stored. *)
Record Settings := {
  apiKey : option jsstring;
  openRouterApiKey : option jsstring;
  openRouterModel : option jsstring;
  deepSeekApiKey : option jsstring;
  ollamaUrl : option jsstring;
  ollamaModel : option jsstring
}.

(** What a [fetch] call sends: the URL and the fields of the JSON body
    and headers that vary. *)
Record Request := {
  url : jsstring;
  authorization : option jsstring;
  model : option jsstring;
  system : option jsstring;
  prompt : jsstring
}.

Record Response := {
  status : Z;
  body_text : jsstring;               (* await response.text() *)
  body_json : Js.result Json.value    (* await response.json() *)
}.

(** response.ok *)
Definition ok (r : Response) : bool := (200 <=? status r) && (status r <=? 299).

(** What the outside world answers. *)
Record Env := {
  settings : Settings;
  fetch : Request -> Js.result Response;
  type_error_message : jsstring
}.

(** What a run leaves behind: console lines and network requests. *)
Inductive Event :=
| LogAttempt (p : Provider)                 (* Attempting to generate summary using p... *)
| WarnFailed (p : Provider) (msg : jsstring) (* p failed: msg *)
| LogOllama (url model : jsstring)          (* Calling Ollama at url/api/generate with model m *)
| Fetch (r : Request).

(** A call: its outcome and the events it produced, oldest first. *)
Definition call (A : Type) : Type := Js.result A * list Event.

Definition instruction : jsstring :=
  Js.str "Provide a concise summary (2-3 sentences) of this YouTube video transcript:"
  ++ Js.nl ++ Js.nl.

Definition system_message : jsstring :=
  Js.str "You are a helpful assistant that creates concise video summaries.".

(** [[a, b, ...].reduce((v, step) => step(v))] for the chain of property
    reads on a parsed body. *)
Definition and_then {A B} (r : Js.result A) (k : A -> Js.result B) : Js.result B :=
  match r with
  | Js.Returned a => k a
  | Js.Thrown e => Js.Thrown e
  end.

Section Calls.
Variable env : Env.
(** The transcript argument: a string, or [null] ([None]). *)
Variable transcript : option jsstring.

Let tem := type_error_message env.

Definition api_error (label : string) (r : Response) : Js.error :=
  Js.Error (Js.str label ++ Js.str " API error: " ++ Js.of_Z (status r)
            ++ Js.str " - " ++ body_text r).

(** data.choices[0].message.content.trim() *)
Definition chat_content (data : Json.value) : Js.result jsstring :=
  and_then (Json.prop tem (Some data) "choices") (fun choices =>
  and_then (Json.first tem choices) (fun choice =>
  and_then (Json.prop tem choice "message") (fun message =>
  and_then (Json.prop tem message "content") (fun content =>
  Json.trim tem content)))).

(** async _callGemini(transcript) *)
Definition _callGemini : call jsstring :=
  match apiKey (settings env) with
  | Some (c :: k) =>
      let req :=
        {| url := Js.str "https://generativelanguage.googleapis.com/v1beta/models/gemini-2.0-flash-exp:generateContent?key=" ++ c :: k;
           authorization := None; model := None; system := None;
           prompt := instruction ++ Js.interpolate transcript |} in
      (match fetch env req with
       | Js.Thrown e => Js.Thrown e
       | Js.Returned response =>
           if negb (ok response) then Js.Thrown (api_error "Gemini" response)
           else
             and_then (body_json response) (fun data =>
             and_then (Json.prop tem (Some data) "candidates") (fun candidates =>
             and_then (Json.first tem candidates) (fun candidate =>
             and_then (Json.prop tem candidate "content") (fun content =>
             and_then (Json.prop tem content "parts") (fun parts =>
             and_then (Json.first tem parts) (fun part =>
             and_then (Json.prop tem part "text") (fun text =>
             Json.trim tem text)))))))
       end, [Fetch req])
  | _ => (Js.Thrown (Js.Error (Js.str "Gemini API key not configured")), [])
  end.

(** async _callOpenRouter(transcript) *)
Definition _callOpenRouter : call jsstring :=
  match openRouterApiKey (settings env) with
  | Some (c :: k) =>
      let req :=
        {| url := Js.str "https://openrouter.ai/api/v1/chat/completions";
           authorization := Some (Js.str "Bearer " ++ c :: k);
           model := Some (Js.or_default (openRouterModel (settings env))
                            (Js.str "google/gemini-2.0-flash-exp:free"));
           system := Some system_message;
           prompt := instruction ++ Js.interpolate transcript |} in
      (match fetch env req with
       | Js.Thrown e => Js.Thrown e
       | Js.Returned response =>
           if negb (ok response) then Js.Thrown (api_error "OpenRouter" response)
           else and_then (body_json response) chat_content
       end, [Fetch req])
  | _ => (Js.Thrown (Js.Error (Js.str "OpenRouter API key not configured")), [])
  end.

(** async _callDeepSeek(transcript) *)
Definition _callDeepSeek : call jsstring :=
  match deepSeekApiKey (settings env) with
  | Some (c :: k) =>
      let req :=
        {| url := Js.str "https://api.deepseek.com/v1/chat/completions";
           authorization := Some (Js.str "Bearer " ++ c :: k);
           model := Some (Js.str "deepseek-chat");
           system := Some system_message;
           prompt := instruction ++ Js.interpolate transcript |} in
      (match fetch env req with
       | Js.Thrown e => Js.Thrown e
       | Js.Returned response =>
           if negb (ok response) then Js.Thrown (api_error "DeepSeek" response)
           else and_then (body_json response) chat_content
       end, [Fetch req])
  | _ => (Js.Thrown (Js.Error (Js.str "DeepSeek API key not configured")), [])
  end.

(** /\/$/ *)
Definition re_trailing_slash : Regex.re := Regex.Seq (Regex.Chr 47) Regex.Eol.

Definition DEFAULT_OLLAMA_URL : jsstring := Js.str "http://localhost:11434".
Definition DEFAULT_OLLAMA_MODEL : jsstring := Js.str "llama3.2".

Definition cors_blocked : jsstring :=
  Js.str "CORS blocked by Ollama. Fix: Restart Ollama with CORS enabled:" ++ Js.nl
  ++ Js.str "OLLAMA_ORIGINS=" ++ [34%N] ++ Js.str "chrome-extension://*" ++ [34%N]
  ++ Js.str " ollama serve".

Definition model_not_found (m : jsstring) : jsstring :=
  Js.str "Model " ++ [34%N] ++ m ++ [34%N] ++ Js.str " not found. Run: ollama pull " ++ m.

Definition cannot_connect : jsstring :=
  Js.str "Cannot connect to Ollama. Make sure:" ++ Js.nl
  ++ Js.str "1. Ollama is running (ollama serve)" ++ Js.nl
  ++ Js.str "2. CORS is enabled: OLLAMA_ORIGINS=" ++ [34%N]
  ++ Js.str "chrome-extension://*" ++ [34%N] ++ Js.str " ollama serve".

(** The [try] block of [_callLocal], after the request was sent. *)
Definition local_response (m : jsstring) (answer : Js.result Response)
  : Js.result jsstring :=
  match answer with
  | Js.Thrown e => Js.Thrown e
  | Js.Returned response =>
      if negb (ok response) then
        if status response =? 403 then Js.Thrown (Js.Error cors_blocked)
        else if status response =? 404 then Js.Thrown (Js.Error (model_not_found m))
        else Js.Thrown (Js.Error (Js.str "Ollama error: " ++ Js.of_Z (status response)
                                  ++ Js.str " - " ++ body_text response))
      else
        and_then (body_json response) (fun data =>
        and_then (Json.prop tem (Some data) "response") (fun r =>
        and_then (Json.optional_trim tem r) (fun trimmed =>
        Js.Returned (Js.or_default trimmed (Js.str "No response from Ollama")))))
  end.

(** The [catch] block of [_callLocal]. *)
Definition local_catch (r : Js.result jsstring) : Js.result jsstring :=
  match r with
  | Js.Returned s => Js.Returned s
  | Js.Thrown error =>
      if Js.includes (Js.message error) (Js.str "Failed to fetch")
         || Js.eqb (Js.name error) (Js.str "TypeError")
      then Js.Thrown (Js.Error cannot_connect)
      else Js.Thrown error
  end.

(** async _callLocal(transcript) *)
Definition _callLocal : call jsstring :=
  let url_ := Regex.remove_first false re_trailing_slash
                (Js.or_default (ollamaUrl (settings env)) DEFAULT_OLLAMA_URL) in
  let model_ := Js.or_default (ollamaModel (settings env)) DEFAULT_OLLAMA_MODEL in
  let req :=
    {| url := url_ ++ Js.str "/api/generate";
       authorization := None; model := Some model_; system := None;
       prompt := instruction ++ Js.interpolate transcript |} in
  (local_catch (local_response model_ (fetch env req)),
   [LogOllama url_ model_; Fetch req]).

(** async _callProvider(provider, transcript); the [default] branch of
    the switch is not reachable from a [Provider]. *)
Definition _callProvider (provider : Provider) : call jsstring :=
  match provider with
  | gemini => _callGemini
  | openrouter => _callOpenRouter
  | deepseek => _callDeepSeek
  | local => _callLocal
  end.

Record Summary := { summary : jsstring; provider : Provider }.

(** The message of the error thrown when every provider failed. *)
Definition all_failed (errors : list (Provider * jsstring)) : jsstring :=
  Js.str "All AI providers failed:" ++ Js.nl
  ++ Js.join Js.nl
       (map (fun e => Js.str "- " ++ provider_name (fst e) ++ Js.str ": " ++ snd e)
            errors).

(** What [generateSummary] leaves: its outcome, [this.currentProvider]
    and the events. *)
Record Run := {
  outcome : Js.result Summary;
  currentProvider : option Provider;
  events : list Event
}.

(** The [for] loop of [generateSummary] over the providers still to
    try, with the [errors] array and the events so far. *)
Fixpoint cascade (ps : list Provider) (errors : list (Provider * jsstring))
    (current : option Provider) (log : list Event) : Run :=
  match ps with
  | [] =>
      {| outcome := Js.Thrown (Js.Error (all_failed errors));
         currentProvider := current; events := log |}
  | p :: ps' =>
      match _callProvider p with
      | (Js.Returned s, evs) =>
          {| outcome := Js.Returned {| summary := s; provider := p |};
             currentProvider := Some p;
             events := log ++ LogAttempt p :: evs |}
      | (Js.Thrown error, evs) =>
          cascade ps' (errors ++ [(p, Js.message error)]) current
                  (log ++ LogAttempt p :: evs ++ [WarnFailed p (Js.message error)])
      end
  end.

(** async generateSummary(transcript), on a manager whose
    [currentProvider] is [current]. *)
Definition generateSummary (current : option Provider) : Run :=
  cascade providers [] current [].
End Calls.

End APIManager.

(* ===================================================================== *)
(** * End-to-end handlers (background.js)                                 *)
(* ===================================================================== *)

Module Background.
Import TranscriptFetcher.

Record ResultMetadata := {
  result_title : option jsstring;
  result_channel : option jsstring;
  hasTranscript : bool
}.

(** The object that is cached and shown.  [fromCache] is [None] where the
    handler does not set the field. *)
Record SummaryResult := {
  summary : jsstring;
  provider : APIManager.Provider;
  metadata : ResultMetadata;
  fromCache : option bool
}.

(** chrome.runtime.sendMessage to the side panel *)
Inductive Message :=
| showError (error : jsstring)
| showSummary (data : SummaryResult).

(** What [handleGetSummary] resolves to. *)
Inductive Reply :=
| NeedsSetup (error : jsstring)
| Success (data : SummaryResult) (fromCache : bool) (provider : APIManager.Provider)
| Failure (error : jsstring).

(** The readings of [Date.now()] in one run, in the order they are taken:
    in [cache.get], then twice in [cache.set]. *)
Record Clock := { at_get : Z; at_set : Z; at_stamp : Z }.

(** The service worker's state: the cache area and
    [apiManager.currentProvider]. *)
Record State := {
  area : gmap jsstring (SummaryCache.CacheEntry SummaryResult);
  current : option APIManager.Provider
}.

Definition NOTE : jsstring :=
  Js.str "Note: No transcript was available for this video. Please provide a summary based on the title and description above.".

(** The [else] branch that builds [contentForAI] from the metadata. *)
Definition metadata_content (metadata : VideoMetadata) (title_ : option jsstring)
  : jsstring :=
  let videoTitle :=
    Js.or_default (title metadata) (Js.or_default title_ (Js.str "Unknown video")) in
  let videoDescription := Js.or_default (description metadata) [] in
  let channel_ := Js.or_default (channel metadata) [] in
  Js.str "VIDEO TITLE: " ++ videoTitle ++ Js.nl
  ++ Js.str "CHANNEL: " ++ channel_ ++ Js.nl
  ++ Js.str "DESCRIPTION: " ++ videoDescription ++ Js.nl ++ Js.nl
  ++ NOTE.

(** contentForAI of [generateAndShowSummary] *)
Definition contentForAI (transcriptResult : TranscriptResult)
    (metadata : VideoMetadata) (title_ : option jsstring) : jsstring :=
  match text transcriptResult with
  | Some (c :: t) =>
      if available transcriptResult then c :: t
      else metadata_content metadata title_
  | _ => metadata_content metadata title_
  end.

(** [a || b] on string-or-undefined values *)
Definition or_else (a b : option jsstring) : option jsstring :=
  if Js.truthy a then a else b.

Section Handlers.
Variable env : APIManager.Env.
Variable rejects : Storage.faults.
Variable _fetchViaInnertube : jsstring -> Js.result (option jsstring).
Variable _fetchFromVideoPage : jsstring -> Js.result (option jsstring).
(** [fetchMetadata] catches every failure itself and resolves to a
    record of possibly missing fields. *)
Variable fetchMetadata : jsstring -> VideoMetadata.
Variable clock : Clock.

(** async checkProviderConfig() *)
Definition checkProviderConfig : bool :=
  let storage := APIManager.settings env in
  Js.truthy (APIManager.apiKey storage)
  || Js.truthy (APIManager.openRouterApiKey storage)
  || Js.truthy (APIManager.deepSeekApiKey storage)
  || Js.truthy (APIManager.ollamaUrl storage).

(** What a handler leaves: what it sent or replied, the state, and the
    events of the provider cascade. *)
Record Run (A : Type) := {
  out : A;
  state : State;
  events : list APIManager.Event
}.
Arguments out {A}.
Arguments state {A}.
Arguments events {A}.

(** async generateAndShowSummary(videoId, title); [out] is the list of
    messages sent to the side panel. *)
Definition generateAndShowSummary (videoId : jsstring) (title_ : option jsstring)
    (st : State) : Run (list Message) :=
  if negb checkProviderConfig then
    {| out := [showError (Js.str "No AI provider configured. Please set up Gemini, DeepSeek, or Ollama in extension settings.")];
       state := st; events := [] |}
  else
    match SummaryCache.get rejects (at_get clock) videoId (area st) with
    | (Some cached, area1) =>
        {| out := [showSummary
                     {| summary := summary cached; provider := provider cached;
                        metadata := metadata cached; fromCache := Some true |}];
           state := {| area := area1; current := current st |};
           events := [] |}
    | (None, area1) =>
        let transcriptResult :=
          fetchTranscript _fetchViaInnertube _fetchFromVideoPage videoId in
        let metadata_ := fetchMetadata videoId in
        let content := contentForAI transcriptResult metadata_ title_ in
        let run := APIManager.generateSummary env (Some content) (current st) in
        match APIManager.outcome run with
        | Js.Returned r =>
            let result :=
              {| summary := APIManager.summary r;
                 provider := APIManager.provider r;
                 metadata :=
                   {| result_title := or_else (title metadata_) title_;
                      result_channel := channel metadata_;
                      hasTranscript := available transcriptResult |};
                 fromCache := Some false |} in
            {| out := [showSummary result];
               state :=
                 {| area := SummaryCache.set_default rejects (at_set clock)
                              (at_stamp clock) videoId result area1;
                    current := APIManager.currentProvider run |};
               events := APIManager.events run |}
        | Js.Thrown error =>
            {| out := [showError (Js.message error)];
               state := {| area := area1; current := APIManager.currentProvider run |};
               events := APIManager.events run |}
        end
    end.

(** async handleGetSummary(videoId) *)
Definition handleGetSummary (videoId : jsstring) (st : State) : Run Reply :=
  if negb checkProviderConfig then
    {| out := NeedsSetup (Js.str "No API providers configured");
       state := st; events := [] |}
  else
    match SummaryCache.get rejects (at_get clock) videoId (area st) with
    | (Some cached, area1) =>
        {| out := Success cached true (provider cached);
           state := {| area := area1; current := current st |};
           events := [] |}
    | (None, area1) =>
        let transcriptResult :=
          fetchTranscript _fetchViaInnertube _fetchFromVideoPage videoId in
        let metadata_ := fetchMetadata videoId in
        let run :=
          APIManager.generateSummary env (text transcriptResult) (current st) in
        match APIManager.outcome run with
        | Js.Returned r =>
            let result :=
              {| summary := APIManager.summary r;
                 provider := APIManager.provider r;
                 metadata :=
                   {| result_title := title metadata_;
                      result_channel := channel metadata_;
                      hasTranscript := available transcriptResult |};
                 fromCache := None |} in
            {| out := Success result false (APIManager.provider r);
               state :=
                 {| area := SummaryCache.set_default rejects (at_set clock)
                              (at_stamp clock) videoId result area1;
                    current := APIManager.currentProvider run |};
               events := APIManager.events run |}
        | Js.Thrown error =>
            {| out := Failure (Js.message error);
               state := {| area := area1; current := APIManager.currentProvider run |};
               events := APIManager.events run |}
        end
    end.
End Handlers.

Arguments out {A}.
Arguments state {A}.
Arguments events {A}.

End Background.

(* ===================================================================== *)
(** * Provider self-test (api-manager.js)                                 *)
(* ===================================================================== *)

Module ProviderTest.
Import APIManager.




Section Test.
Variable env : Env.


End Test.

End ProviderTest.

(* ===================================================================== *)
(** * Video ids (background.js, context-menu-helper.js, content.js)       *)
(* ===================================================================== *)

Module VideoId.
Import Regex.

(** [[?&]] *)
Definition is_query_mark (c : N) : bool := ((c =? 63) || (c =? 38))%N.

(** [[^&]] *)
Definition not_amp (c : N) : bool := negb (c =? 38)%N.

(** [[^?&]] *)
Definition not_query_mark (c : N) : bool := negb ((c =? 63) || (c =? 38))%N.

(** /[?&]v=([^&]+)/ *)
Definition re_watch : re :=
  Seq (Class is_query_mark)
   (Seq (lit (Js.str "v="))
        (Group (Seq (Class not_amp) (Star true not_amp)))).

(** /\/shorts\/([^?&]+)/ *)
Definition re_shorts : re :=
  Seq (lit (Js.str "/shorts/"))
      (Group (Seq (Class not_query_mark) (Star true not_query_mark))).

(** /youtu\.be\/([^?&]+)/ *)
Definition re_short_link : re :=
  Seq (lit (Js.str "youtu.be/"))
      (Group (Seq (Class not_query_mark) (Star true not_query_mark))).

(** extractVideoId(url) of background.js; [None] is a missing URL on the
    way in and [null] on the way out. *)
Definition extractVideoId (url : option jsstring) : option jsstring :=
  match url with
  | Some (c :: u) =>
      match exec false re_watch (c :: u) with
      | Some found => group1 found
      | None =>
          match exec false re_shorts (c :: u) with
          | Some found => group1 found
          | None =>
              match exec false re_short_link (c :: u) with
              | Some found => group1 found
              | None => None
              end
          end
      end
  | _ => None                             (* if (!url) return null *)
  end.

(** extractVideoId(url) of context-menu-helper.js, which is also what
    extractVideoId(element) of content.js does with [element.href]. *)
Definition extractVideoId_page (url : option jsstring) : option jsstring :=
  match url with
  | Some (c :: u) =>
      match exec false re_watch (c :: u) with
      | Some found => group1 found
      | None =>
          match exec false re_shorts (c :: u) with
          | Some found => group1 found
          | None => None
          end
      end
  | _ => None
  end.

End VideoId.

(* ===================================================================== *)
(** * Transcript formats (transcript-fetcher.js)                          *)
(* ===================================================================== *)

(** Patterns with the [g] flag. *)
Module RegexG.
Import Regex.

Section Global.
Variable ignoreCase : bool.

(** [s.replace(r, rep)] for a pattern with the g flag and a replacement
    without [$]: the text is scanned from the left; where the pattern
    matches, the replacement is written and the scan goes on behind the
    match (one character further on after an empty match).  [skip] counts
    the characters of the last match that are still to be passed. *)
Fixpoint replace_from (r : re) (rep : jsstring) (bol : bool) (skip : nat)
    (s : jsstring) : jsstring :=
  match s with
  | [] =>
      match skip, m ignoreCase r bol [] None accept with
      | O, Some _ => rep
      | _, _ => []
      end
  | c :: s' =>
      match skip with
      | S k => replace_from r rep false k s'
      | O =>
          match m ignoreCase r bol s None accept with
          | Some (_, rest) =>
              match (length s - length rest)%nat with
              | O => rep ++ c :: replace_from r rep false O s'
              | S k => rep ++ replace_from r rep false k s'
              end
          | None => c :: replace_from r rep false O s'
          end
      end
  end.

Definition replace_all (r : re) (rep : jsstring) (s : jsstring) : jsstring :=
  replace_from r rep true O s.

(** [while ((match = r.exec(s)) !== null) ...] for a pattern with the g
    flag that cannot match the empty string: group 1 of every match, from
    the left, each search starting behind the match before. *)
Fixpoint captures_from (r : re) (bol : bool) (skip : nat) (s : jsstring)
  : list (option jsstring) :=
  match s with
  | [] => []
  | c :: s' =>
      match skip with
      | S k => captures_from r false k s'
      | O =>
          match m ignoreCase r bol s None accept with
          | Some (cap, rest) =>
              cap :: captures_from r false (length s - length rest - 1) s'
          | None => captures_from r false O s'
          end
      end
  end.

Definition captures (r : re) (s : jsstring) : list (option jsstring) :=
  captures_from r true O s.
End Global.

(** [match[0]]: the text a match covers. *)
Definition matched (s : jsstring) (f : found) : jsstring :=
  take (length s - length (before f) - length (after f)) (drop (length (before f)) s).

End RegexG.

Module TranscriptFormats.
Import Regex.

(** Truthiness of a JSON value or [undefined]. *)
Definition truthy (v : option Json.value) : bool :=
  match v with
  | None | Some Json.JNull | Some (Json.JBool false) | Some (Json.JStr []) => false
  | Some (Json.JNum n) => negb (n =? 0)
  | Some _ => true
  end.

(** A lead and a trail surrogate. *)
Definition is_lead (c : N) : bool := ((55296 <=? c) && (c <=? 56319))%N.
Definition is_trail (c : N) : bool := ((56320 <=? c) && (c <=? 57343))%N.

(** The code points of a string, each as a string: what iterating over a
    string yields. *)
Fixpoint code_points (s : jsstring) : list jsstring :=
  match s with
  | [] => []
  | c :: s' =>
      match s' with
      | d :: s'' =>
          if is_lead c && is_trail d then [c; d] :: code_points s''
          else [c] :: code_points s'
      | [] => [[c]]
      end
  end.

(** /\s+/ *)
Definition re_spaces : re := Seq (Class Js.is_space) (Star true Js.is_space).

(** [texts.join(' ').replace(/\s+/g, ' ').trim()], and [transcript || null] *)
Definition finish (texts : list jsstring) : option jsstring :=
  match Js.trim (RegexG.replace_all false re_spaces (Js.str " ")
                   (Js.join (Js.str " ") texts)) with
  | [] => None
  | c :: transcript => Some (c :: transcript)
  end.

Section Json3.
(** The text of the engine's TypeError. *)
Variable tem : jsstring.

(** What [for (const x of v)] visits: the items of an array, the code
    points of a string; nothing else that JSON can hold is iterable. *)
Definition iterate (v : option Json.value) : Js.result (list Json.value) :=
  match v with
  | Some (Json.JArr items) => Js.Returned items
  | Some (Json.JStr s) => Js.Returned (map Json.JStr (code_points s))
  | _ => Js.Thrown (Json.TypeError tem)
  end.

(** A [for ... of] loop whose body may throw, over the array [texts]. *)
Fixpoint for_of (body : Json.value -> list jsstring -> Js.result (list jsstring))
    (items : list Json.value) (texts : list jsstring) : Js.result (list jsstring) :=
  match items with
  | [] => Js.Returned texts
  | x :: items' => APIManager.and_then (body x texts) (for_of body items')
  end.

(** [if (seg.utf8) { const text = seg.utf8.trim();
    if (text && text !== '\n') texts.push(text); }] *)
Definition visit_seg (seg : Json.value) (texts : list jsstring)
  : Js.result (list jsstring) :=
  APIManager.and_then (Json.prop tem (Some seg) "utf8") (fun utf8 =>
  if truthy utf8 then
    APIManager.and_then (Json.trim tem utf8) (fun text =>
    Js.Returned
      (match text with
       | _ :: _ => if negb (Js.eqb text Js.nl) then texts ++ [text] else texts
       | [] => texts
       end))
  else Js.Returned texts).

(** [if (event.segs) { for (const seg of event.segs) ... }] *)
Definition visit_event (event : Json.value) (texts : list jsstring)
  : Js.result (list jsstring) :=
  APIManager.and_then (Json.prop tem (Some event) "segs") (fun segs =>
  if truthy segs then
    APIManager.and_then (iterate segs) (fun items => for_of visit_seg items texts)
  else Js.Returned texts).

(** The [try] block of [_parseTranscriptJson] up to the join. *)
Definition collect (data : Json.value) : Js.result (list jsstring) :=
  APIManager.and_then (Json.prop tem (Some data) "events") (fun events =>
  APIManager.and_then
    (iterate (if truthy events then events else Some (Json.JArr [])))
    (fun items => for_of visit_event items [])).

(** _parseTranscriptJson(data); [None] is [null]. *)
Definition _parseTranscriptJson (data : Json.value) : option jsstring :=
  match collect data with
  | Js.Returned texts => finish texts
  | Js.Thrown _ => None                    (* catch: logged, null *)
  end.
End Json3.

(** [[^>]] *)
Definition not_gt (c : N) : bool := negb (c =? 62)%N.

(** /<text[^>]*>(.*?)<\/text>/g *)
Definition re_text : re :=
  Seq (lit (Js.str "<text"))
   (Seq (Star true not_gt)
    (Seq (Chr 62)
     (Seq (Group (Star false dot)) (lit (Js.str "</text>"))))).

(** The chain of replacements on [match[1]], and the trim. *)
Definition decode (group : jsstring) : jsstring :=
  let s1 := RegexG.replace_all false (lit (Js.str "&amp;")) (Js.str "&") group in
  let s2 := RegexG.replace_all false (lit (Js.str "&lt;")) (Js.str "<") s1 in
  let s3 := RegexG.replace_all false (lit (Js.str "&gt;")) (Js.str ">") s2 in
  let s4 := RegexG.replace_all false (lit (Js.str "&quot;")) [34%N] s3 in
  let s5 := RegexG.replace_all false (lit (Js.str "&#39;")) (Js.str "'") s4 in
  let s6 := RegexG.replace_all false (Chr 10) (Js.str " ") s5 in
  Js.trim s6.

(** The [while] loop of [_parseTranscriptXml] over the matches still to
    come; a match without group 1 would throw. *)
Fixpoint xml_texts (tem : jsstring) (groups : list (option jsstring))
    (texts : list jsstring) : Js.result (list jsstring) :=
  match groups with
  | [] => Js.Returned texts
  | Some group :: groups' =>
      match decode group with
      | [] => xml_texts tem groups' texts
      | c :: text => xml_texts tem groups' (texts ++ [c :: text])
      end
  | None :: _ => Js.Thrown (Json.TypeError tem)
  end.

(** _parseTranscriptXml(xml); [None] is [null]. *)
Definition _parseTranscriptXml (tem : jsstring) (xml : jsstring) : option jsstring :=
  match xml_texts tem (RegexG.captures false re_text xml) [] with
  | Js.Returned texts => finish texts
  | Js.Thrown _ => None                    (* catch: logged, null *)
  end.

(** [[^}]], [[^\x22]] and [[^\x22'\s]]; here and below \x22 stands for
    the double quote of the source pattern. *)
Definition not_rbrace (c : N) : bool := negb (c =? 125)%N.
Definition not_quote (c : N) : bool := negb (c =? 34)%N.
Definition url_char (c : N) : bool :=
  negb ((c =? 34) || (c =? 39) || Js.is_space c)%N.

(** /\x22captionTracks\x22:\s*\[\s*\{[^}]*\x22baseUrl\x22:\s*\x22([^\x22]+)\x22/ *)
Definition re_caption_tracks : re :=
  Seq (lit ([34%N] ++ Js.str "captionTracks" ++ [34%N] ++ Js.str ":"))
   (Seq (Star true Js.is_space)
    (Seq (Chr 91)
     (Seq (Star true Js.is_space)
      (Seq (Chr 123)
       (Seq (Star true not_rbrace)
        (Seq (lit ([34%N] ++ Js.str "baseUrl" ++ [34%N] ++ Js.str ":"))
         (Seq (Star true Js.is_space)
          (Seq (Chr 34)
           (Seq (Group (Seq (Class not_quote) (Star true not_quote)))
                (Chr 34)))))))))).

(** /https:\/\/www\.youtube\.com\/api\/timedtext[^\x22'\s]+/ *)
Definition re_timedtext : re :=
  Seq (lit (Js.str "https://www.youtube.com/api/timedtext"))
      (Seq (Class url_char) (Star true url_char)).

(** /\\u0026/: a backslash and the characters u0026 *)
Definition re_escaped_amp : re := lit ([92%N] ++ Js.str "u0026").

(** [url.replace(/\\u0026/g, '&').replace(/&amp;/g, '&')] *)
Definition clean_url (url : jsstring) : jsstring :=
  RegexG.replace_all false (lit (Js.str "&amp;")) (Js.str "&")
    (RegexG.replace_all false re_escaped_amp (Js.str "&") url).

(** The [for] loop of [_extractCaptionUrl] over the patterns. *)
Fixpoint first_url (patterns : list re) (html : jsstring) : option jsstring :=
  match patterns with
  | [] => None
  | pattern :: patterns' =>
      match exec false pattern html with
      | Some found =>
          (* match[1] || match[0] *)
          Some (clean_url (Js.or_default (group1 found) (RegexG.matched html found)))
      | None => first_url patterns' html
      end
  end.

(** _extractCaptionUrl(html); nothing in its [try] block can throw. *)
Definition _extractCaptionUrl (html : jsstring) : option jsstring :=
  first_url [re_caption_tracks; re_timedtext] html.

(** /<meta\s+name=\x22title\x22\s+content=\x22([^\x22]+)\x22/i *)
Definition re_meta_title : re :=
  Seq (lit (Js.str "<meta"))
   (Seq (Class Js.is_space)
    (Seq (Star true Js.is_space)
     (Seq (lit (Js.str "name=" ++ [34%N] ++ Js.str "title" ++ [34%N]))
      (Seq (Class Js.is_space)
       (Seq (Star true Js.is_space)
        (Seq (lit (Js.str "content=" ++ [34%N]))
         (Seq (Group (Seq (Class not_quote) (Star true not_quote)))
              (Chr 34)))))))).

(** /\x22author\x22:\x22([^\x22]+)\x22/ *)
Definition re_author : re :=
  Seq (lit ([34%N] ++ Js.str "author" ++ [34%N] ++ Js.str ":" ++ [34%N]))
      (Seq (Group (Seq (Class not_quote) (Star true not_quote))) (Chr 34)).

(** /\x22description\x22:\{\x22simpleText\x22:\x22([^\x22]+)\x22/ *)
Definition re_description : re :=
  Seq (lit ([34%N] ++ Js.str "description" ++ [34%N] ++ Js.str ":{" ++ [34%N]
            ++ Js.str "simpleText" ++ [34%N] ++ Js.str ":" ++ [34%N]))
      (Seq (Group (Seq (Class not_quote) (Star true not_quote))) (Chr 34)).

(** _extractFromHtml(html, regex) *)
Definition _extractFromHtml (ignoreCase : bool) (html : jsstring) (regex : re)
  : option jsstring :=
  match exec ignoreCase regex html with
  | Some found => group1 found
  | None => None
  end.

End TranscriptFormats.

(* ===================================================================== *)
(** * Transcript and metadata requests (transcript-fetcher.js)            *)
(* ===================================================================== *)

Module Innertube.
Import TranscriptFetcher TranscriptFormats.

(** [videoDetails] of the player response; each field may be missing. *)
Record VideoDetails := {
  vd_title : option jsstring;
  author : option jsstring;
  shortDescription : option jsstring;
  lengthSeconds : option jsstring;
  vd_viewCount : option jsstring
}.

(** What the two methods read of the parsed player response:
    [captions.playerCaptionsTracklistRenderer.captionTracks] and
    [videoDetails], either of which may be missing. *)
Record PlayerData := {
  captionTracks : option (list CaptionTrack);
  videoDetails : option VideoDetails
}.

(** The answer to the POST to [youtubei/v1/player]; [player_data] is
    [Thrown] where the body is not JSON or is the JSON [null]. *)
Record PlayerResponse := {
  player_ok : bool;
  player_data : Js.result PlayerData
}.

Inductive Request :=
| Player (videoId : jsstring)            (* POST youtubei/v1/player?key=... *)
| Get (url : jsstring).                  (* fetch(url) *)

(** What the network answers. *)
Record Env := {
  player : jsstring -> Js.result PlayerResponse;
  get : jsstring -> Js.result APIManager.Response;
  type_error_message : jsstring
}.

Definition WATCH : jsstring := Js.str "https://www.youtube.com/watch?v=".

Section Requests.
Variable env : Env.

Let tem := type_error_message env.

(** The second step of [_fetchViaInnertube]: the transcript itself. *)
Definition fetch_track (base : jsstring) : option jsstring * list Request :=
  let json3_url := base ++ Js.str "&fmt=json3" in
  match get env json3_url with
  | Js.Thrown _ => (None, [Get json3_url])
  | Js.Returned transcriptResponse =>
      if negb (APIManager.ok transcriptResponse) then
        (* Try XML format as fallback *)
        match get env base with
        | Js.Thrown _ => (None, [Get json3_url; Get base])
        | Js.Returned xmlResponse =>
            if APIManager.ok xmlResponse then
              (_parseTranscriptXml tem (APIManager.body_text xmlResponse),
               [Get json3_url; Get base])
            else (None, [Get json3_url; Get base])
        end
      else
        match APIManager.body_json transcriptResponse with
        | Js.Thrown _ => (None, [Get json3_url])
        | Js.Returned transcriptData =>
            (_parseTranscriptJson tem transcriptData, [Get json3_url])
        end
  end.

(** async _fetchViaInnertube(videoId): what it resolves to ([None] for
    [null]; every failure is caught) and the requests it sent. *)
Definition _fetchViaInnertube (videoId : jsstring) : option jsstring * list Request :=
  match player env videoId with
  | Js.Thrown _ => (None, [Player videoId])
  | Js.Returned playerResponse =>
      if negb (player_ok playerResponse) then (None, [Player videoId])
      else
        match player_data playerResponse with
        | Js.Thrown _ => (None, [Player videoId])
        | Js.Returned playerData =>
            match captionTracks playerData with
            | None | Some [] => (None, [Player videoId])
            | Some (t :: tracks) =>
                match _selectBestTrack (t :: tracks) with
                | Some {| baseUrl := Some (c :: base) |} =>
                    let '(transcript, requests) := fetch_track (c :: base) in
                    (transcript, Player videoId :: requests)
                | _ => (None, [Player videoId])
                end
            end
        end
  end.

(** async _fetchFromVideoPage(videoId) *)
Definition _fetchFromVideoPage (videoId : jsstring) : option jsstring * list Request :=
  let videoPageUrl := WATCH ++ videoId in
  match get env videoPageUrl with
  | Js.Thrown _ => (None, [Get videoPageUrl])
  | Js.Returned response =>
      match _extractCaptionUrl (APIManager.body_text response) with
      | Some (c :: captionUrl) =>
          match get env (c :: captionUrl) with
          | Js.Thrown _ => (None, [Get videoPageUrl; Get (c :: captionUrl)])
          | Js.Returned transcriptResponse =>
              (_parseTranscriptXml tem (APIManager.body_text transcriptResponse),
               [Get videoPageUrl; Get (c :: captionUrl)])
          end
      | _ => (None, [Get videoPageUrl])
      end
  end.

(** [v || null] *)
Definition or_null (v : option jsstring) : option jsstring :=
  match v with
  | Some (c :: s) => Some (c :: s)
  | _ => None
  end.

(** async _fetchMetadataFromPage(videoId) *)
Definition _fetchMetadataFromPage (videoId : jsstring) : VideoMetadata * list Request :=
  match get env (WATCH ++ videoId) with
  | Js.Thrown _ =>
      ({| title := None; channel := None; description := None;
          duration := None; viewCount := None |}, [Get (WATCH ++ videoId)])
  | Js.Returned response =>
      let html := APIManager.body_text response in
      ({| title := _extractFromHtml true html re_meta_title;
          channel := _extractFromHtml false html re_author;
          description := _extractFromHtml false html re_description;
          duration := None; viewCount := None |}, [Get (WATCH ++ videoId)])
  end.

(** async fetchMetadata(videoId) *)
Definition fetchMetadata (videoId : jsstring) : VideoMetadata * list Request :=
  let from_page :=
    let '(metadata, requests) := _fetchMetadataFromPage videoId in
    (metadata, Player videoId :: requests) in
  match player env videoId with
  | Js.Thrown _ => from_page
  | Js.Returned response =>
      if negb (player_ok response) then from_page
      else
        match player_data response with
        | Js.Thrown _ => from_page
        | Js.Returned data =>
            let field (read : VideoDetails -> option jsstring) :=
              match videoDetails data with
              | Some details => read details
              | None => None               (* data.videoDetails || {} *)
              end in
            ({| title := or_null (field vd_title);
                channel := or_null (field author);
                description :=
                  or_null (option_map (take 500) (field shortDescription));
                duration := or_null (field lengthSeconds);
                viewCount := or_null (field vd_viewCount) |},
             [Player videoId])
        end
  end.

(** The two extraction methods as [fetchTranscript] awaits them: neither
    ever throws. *)
Definition viaInnertube (videoId : jsstring) : Js.result (option jsstring) :=
  Js.Returned (fst (_fetchViaInnertube videoId)).

Definition fromVideoPage (videoId : jsstring) : Js.result (option jsstring) :=
  Js.Returned (fst (_fetchFromVideoPage videoId)).
End Requests.

End Innertube.


(* ===================================================================== *)
(** * Structured summaries (gemini-api.js, class GeminiAPI)               *)
(* ===================================================================== *)

Module GeminiCall.
Import GeminiAPI.

Definition GEMINI_API_URL : jsstring :=
  Js.str "https://generativelanguage.googleapis.com/v1beta/models/gemini-2.0-flash-exp:generateContent".

(** The fields of the [metadata] argument that the prompt reads. *)
Record PromptMetadata := {
  prompt_title : option jsstring;
  prompt_channel : option jsstring;
  prompt_description : option jsstring
}.

(** The value of [transcript && transcript.trim().length > 0]: the
    transcript itself where it is null or empty, a boolean otherwise. *)
Inductive HasTranscript :=
| ht_null
| ht_empty
| ht_bool (b : bool).

Definition hasTranscript_of (transcript : option jsstring) : HasTranscript :=
  match transcript with
  | None => ht_null
  | Some [] => ht_empty
  | Some (c :: s) =>
      ht_bool (match Js.trim (c :: s) with
               | [] => false
               | _ :: _ => true
               end)
  end.

(** Truthiness of such a value. *)
Definition holds (h : HasTranscript) : bool :=
  match h with
  | ht_bool b => b
  | _ => false
  end.

(** _buildPrompt(transcript, metadata, hasTranscript) *)
Definition _buildPrompt (transcript : option jsstring) (metadata : PromptMetadata)
    (hasTranscript : HasTranscript) : jsstring :=
  if holds hasTranscript then
    Js.join Js.nl
      [Js.str "You are a YouTube video summarizer. Analyze the following video transcript and create a concise summary.";
       [];
       Js.str "Video Title: " ++ Js.or_default (prompt_title metadata) (Js.str "Unknown");
       Js.str "Channel: " ++ Js.or_default (prompt_channel metadata) (Js.str "Unknown");
       [];
       Js.str "Transcript:";
       Js.interpolate transcript;
       [];
       Js.str "INSTRUCTIONS:";
       Js.str "1. Create 5-8 bullet points summarizing the main content";
       Js.str "2. Identify 3 key takeaways or insights";
       Js.str "3. Be accurate and specific - only include information explicitly mentioned";
       Js.str "4. Do NOT hallucinate or infer details not in the transcript";
       Js.str "5. If the transcript is incomplete or unclear, acknowledge it";
       [];
       Js.str "FORMAT YOUR RESPONSE EXACTLY AS:";
       Js.str "SUMMARY:";
       Js.str "- [bullet point 1]";
       Js.str "- [bullet point 2]";
       Js.str "- [bullet point 3]";
       Js.str "...";
       [];
       Js.str "TAKEAWAYS:";
       Js.str "1. [takeaway 1]";
       Js.str "2. [takeaway 2]";
       Js.str "3. [takeaway 3]"]
  else
    Js.join Js.nl
      [Js.str "You are a YouTube video analyzer. The transcript for this video is unavailable, but you have metadata.";
       [];
       Js.str "Video Title: " ++ Js.or_default (prompt_title metadata) (Js.str "Unknown");
       Js.str "Channel: " ++ Js.or_default (prompt_channel metadata) (Js.str "Unknown");
       Js.str "Description: "
         ++ Js.or_default (prompt_description metadata) (Js.str "Not available");
       [];
       Js.str "INSTRUCTIONS:";
       Js.str "1. Based ONLY on the title, channel, and description, provide a brief overview";
       Js.str "2. Create 3-5 bullet points about what this video LIKELY covers";
       Js.str "3. Be clear that this is based on limited information, NOT the actual content";
       Js.str "4. Do NOT make specific claims about video content";
       Js.str "5. Acknowledge the limitation prominently";
       [];
       Js.str "FORMAT YOUR RESPONSE EXACTLY AS:";
       Js.str "DISCLAIMER: Summary based on metadata only (transcript unavailable)";
       [];
       Js.str "SUMMARY:";
       Js.str "- [likely topic 1]";
       Js.str "- [likely topic 2]";
       Js.str "- [likely topic 3]";
       Js.str "...";
       [];
       Js.str "TAKEAWAYS:";
       Js.str "1. [potential insight 1]";
       Js.str "2. [potential insight 2]";
       Js.str "3. [potential insight 3]"].

(** What the method reads of the answer.  [error_message] is
    [errorData.error?.message] of a body that is not OK: [Thrown] where
    the body is the JSON [null], [None] where there is no message or the
    body is not JSON.  [generated] is
    [data.candidates?.[0]?.content?.parts?.[0]?.text]: [Thrown] where the
    body is not JSON or is [null].  Where present, both are strings. *)
Record Answer := {
  answer_ok : bool;
  answer_status : Z;
  error_message : Js.result (option jsstring);
  generated : Js.result (option jsstring)
}.

(** What a call resolves to: the parsed response, with the value of
    [hasTranscript] as it was computed. *)
Record StructuredSummary := {
  parsed : ParsedResponse;
  result_hasTranscript : HasTranscript
}.

Section Call.
(** [this.apiKey] and the network. *)
Variable apiKey : option jsstring.
Variable fetch : jsstring -> jsstring -> Js.result Answer.

(** async generateSummary(transcript, metadata = {}): the outcome and
    the requests sent, each with its URL and the prompt in its body. *)
Definition generateSummary (transcript : option jsstring) (metadata : PromptMetadata)
  : Js.result StructuredSummary * list (jsstring * jsstring) :=
  match apiKey with
  | Some (c :: key) =>
      let hasTranscript := hasTranscript_of transcript in
      let prompt := _buildPrompt transcript metadata hasTranscript in
      let url_ := GEMINI_API_URL ++ Js.str "?key=" ++ c :: key in
      (match fetch url_ prompt with
       | Js.Thrown error => Js.Thrown error          (* catch: logged, thrown again *)
       | Js.Returned response =>
           if negb (answer_ok response) then
             match error_message response with
             | Js.Thrown error => Js.Thrown error
             | Js.Returned message =>
                 Js.Thrown
                   (Js.Error (Js.str "Gemini API error: "
                              ++ Js.of_Z (answer_status response) ++ Js.str " - "
                              ++ Js.or_default message (Js.str "Unknown error")))
             end
           else
             match generated response with
             | Js.Thrown error => Js.Thrown error
             | Js.Returned (Some (g :: generatedText)) =>
                 Js.Returned
                   {| parsed := _parseResponse (g :: generatedText) (holds hasTranscript);
                      result_hasTranscript := hasTranscript |}
             | Js.Returned _ => Js.Thrown (Js.Error (Js.str "No content generated"))
             end
       end, [(url_, prompt)])
  | _ => (Js.Thrown (Js.Error (Js.str "Gemini API key not configured")), [])
  end.

(** async testApiKey() *)
Definition testApiKey : bool * list (jsstring * jsstring) :=
  match generateSummary (Some (Js.str "This is a test transcript about testing API keys."))
          {| prompt_title := Some (Js.str "Test Video");
             prompt_channel := Some (Js.str "Test Channel");
             prompt_description := None |} with
  | (Js.Returned _, requests) => (true, requests)
  | (Js.Thrown _, requests) => (false, requests)
  end.
End Call.

End GeminiCall.

(* ===================================================================== *)
(** * Context menu (background.js, listeners)                             *)
(* ===================================================================== *)

Module ContextMenu.
Import Background.

(** The video the content script reported last:
    [contextMenuVideoId] and [contextMenuVideoTitle]. *)
Record Tracked := {
  contextMenuVideoId : option jsstring;
  contextMenuVideoTitle : option jsstring
}.

(** The branch of the [onMessage] listener for [setContextMenuVideo]. *)
Definition setContextMenuVideo (videoId title_ : option jsstring) : Tracked :=
  {| contextMenuVideoId := videoId; contextMenuVideoTitle := title_ |}.

(** What the side panel is sent. *)
Inductive PanelMessage :=
| showLoading (title_ : jsstring)
| panel (message : Message).

(** The fields of [info] that the listener reads. *)
Record Click := {
  menuItemId : jsstring;
  linkUrl : option jsstring
}.

Definition COULD_NOT_DETECT : jsstring :=
  Js.str "Could not detect video. Try right-clicking directly on a video thumbnail.".

Section Listeners.
Variable env : APIManager.Env.
Variable rejects : Storage.faults.
Variable _fetchViaInnertube : jsstring -> Js.result (option jsstring).
Variable _fetchFromVideoPage : jsstring -> Js.result (option jsstring).
Variable fetchMetadata : jsstring -> TranscriptFetcher.VideoMetadata.
Variable clock : Clock.
(** Whether [chrome.sidePanel.open] resolves; where it rejects, the
    listener ends there. *)
Variable panel_opens : bool.

(** The video the click is about: the id in the link URL, else the
    tracked one. *)
Definition clicked_video (info : Click) (tracked : Tracked) : option jsstring :=
  let videoId :=
    if Js.truthy (linkUrl info) then VideoId.extractVideoId (linkUrl info) else None in
  if negb (Js.truthy videoId) && Js.truthy (contextMenuVideoId tracked)
  then contextMenuVideoId tracked
  else videoId.

(** chrome.contextMenus.onClicked *)
Definition onClicked (info : Click) (tracked : Tracked) (st : State)
  : Run (list PanelMessage) :=
  if Js.eqb (menuItemId info) (Js.str "summarizeVideo") then
    let title_ := Js.or_default (contextMenuVideoTitle tracked) (Js.str "YouTube Video") in
    match clicked_video info tracked with
    | Some (c :: videoId) =>
        if panel_opens then
          let run :=
            generateAndShowSummary env rejects _fetchViaInnertube _fetchFromVideoPage
              fetchMetadata clock (c :: videoId) (Some title_) st in
          {| out := showLoading title_ :: map panel (out run);
             state := state run; events := events run |}
        else {| out := []; state := st; events := [] |}
    | _ =>
        {| out := [panel (showError COULD_NOT_DETECT)]; state := st; events := [] |}
    end
  else {| out := []; state := st; events := [] |}.
End Listeners.

End ContextMenu.

(* ===================================================================== *)
(** * Settings page and popup (options.js, popup.js)                      *)
(* ===================================================================== *)

Module Options.

(** The fields of the settings form.  [hoverDelay] is what [parseInt]
    makes of its field, [None] for NaN. *)
Record Form := {
  apiKey : jsstring;
  openRouterApiKey : jsstring;
  openRouterModel : jsstring;
  deepSeekApiKey : jsstring;
  ollamaUrl : jsstring;
  ollamaModel : jsstring;
  hoverDelay : option Z
}.

(** The keys of chrome.storage.sync that the extension uses. *)
Record Sync := {
  stored : APIManager.Settings;
  stored_hoverDelay : option Z
}.

(** showStatus(message, type) *)
Inductive Status :=
| PleaseConfigure   (* Please configure at least one AI provider *)
| HoverDelayRange   (* Hover delay must be between 100 and 2000 milliseconds *)
| Saved             (* Settings saved successfully! *)
| FailedToSave.     (* Failed to save settings *)

(** async saveSettings(); [set_rejects] tells whether
    chrome.storage.sync.set rejects. *)
Definition saveSettings (form : Form) (set_rejects : bool) (sync : Sync)
  : Status * Sync :=
  let apiKey_ := Js.trim (apiKey form) in
  let openRouterApiKey_ := Js.trim (openRouterApiKey form) in
  let openRouterModel_ := Js.trim (openRouterModel form) in
  let deepSeekApiKey_ := Js.trim (deepSeekApiKey form) in
  let ollamaUrl_ := Js.trim (ollamaUrl form) in
  let ollamaModel_ := Js.or_default (Some (Js.trim (ollamaModel form))) (Js.str "llama3.2") in
  if negb (Js.truthy (Some apiKey_)) && negb (Js.truthy (Some openRouterApiKey_))
     && negb (Js.truthy (Some deepSeekApiKey_)) && negb (Js.truthy (Some ollamaUrl_))
  then (PleaseConfigure, sync)
  else
    match hoverDelay form with
    | None => (HoverDelayRange, sync)
    | Some delay =>
        if (delay <? 100) || (2000 <? delay) then (HoverDelayRange, sync)
        else if set_rejects then (FailedToSave, sync)
        else
          (Saved,
           {| stored :=
                {| APIManager.apiKey := Some apiKey_;
                   APIManager.openRouterApiKey := Some openRouterApiKey_;
                   APIManager.openRouterModel := Some openRouterModel_;
                   APIManager.deepSeekApiKey := Some deepSeekApiKey_;
                   APIManager.ollamaUrl := Some ollamaUrl_;
                   APIManager.ollamaModel := Some ollamaModel_ |};
              stored_hoverDelay := Some delay |})
    end.

End Options.

Module Popup.

(** What the popup shows as status. *)
Inductive StatusText :=
| Ready           (* Ready, with: Right-click on video thumbnails to summarize! *)
| NotConfigured.  (* Not configured, with: Configure an API key in settings *)

(** async checkStatus(); [None] where reading the storage fails and the
    popup is left as it was. *)
Definition checkStatus (get_rejects : bool) (sync : Options.Sync) : option StatusText :=
  if get_rejects then None
  else
    let result := Options.stored sync in
    if Js.truthy (APIManager.apiKey result)
       || Js.truthy (APIManager.deepSeekApiKey result)
       || Js.truthy (APIManager.ollamaUrl result)
    then Some Ready
    else Some NotConfigured.

End Popup.

(* ===================================================================== *)
(** * Vocabulary of the specification                                     *)
(* ===================================================================== *)

(** ** Provider cascade *)

(** The provider's call throws. *)
Definition fails (env : APIManager.Env) (transcript : option jsstring)
    (p : APIManager.Provider) : Prop :=
  exists error, fst (APIManager._callProvider env transcript p) = Js.Thrown error.

(** The message of the error the provider's call throws, if it throws. *)
Definition failure_message (env : APIManager.Env) (transcript : option jsstring)
    (p : APIManager.Provider) : jsstring :=
  match fst (APIManager._callProvider env transcript p) with
  | Js.Thrown error => Js.message error
  | Js.Returned _ => []
  end.

(** What a failed attempt leaves on the console and the network. *)
Definition failed_attempt (env : APIManager.Env) (transcript : option jsstring)
    (p : APIManager.Provider) : list APIManager.Event :=
  APIManager.LogAttempt p :: snd (APIManager._callProvider env transcript p)
  ++ [APIManager.WarnFailed p (failure_message env transcript p)].

(** The entry of the [errors] array for a failed provider. *)
Definition recorded (env : APIManager.Env) (transcript : option jsstring)
    (p : APIManager.Provider) : APIManager.Provider * jsstring :=
  (p, failure_message env transcript p).

(** The three cloud providers need a stored key; the local one needs
    nothing. *)
Definition credential_missing (env : APIManager.Env) (p : APIManager.Provider) : bool :=
  let s := APIManager.settings env in
  match p with
  | APIManager.gemini => negb (Js.truthy (APIManager.apiKey s))
  | APIManager.openrouter => negb (Js.truthy (APIManager.openRouterApiKey s))
  | APIManager.deepseek => negb (Js.truthy (APIManager.deepSeekApiKey s))
  | APIManager.local => false
  end.

Definition not_configured (p : APIManager.Provider) : jsstring :=
  match p with
  | APIManager.gemini => Js.str "Gemini API key not configured"
  | APIManager.openrouter => Js.str "OpenRouter API key not configured"
  | APIManager.deepseek => Js.str "DeepSeek API key not configured"
  | APIManager.local => []
  end.

(** ** Caption tracks *)

Definition English (t : TranscriptFetcher.CaptionTrack) : Prop :=
  TranscriptFetcher.languageCode t = Some (Js.str "en").

Definition EnPrefixed (t : TranscriptFetcher.CaptionTrack) : Prop :=
  exists rest, TranscriptFetcher.languageCode t = Some (Js.str "en" ++ rest).

Definition AutoGenerated (t : TranscriptFetcher.CaptionTrack) : Prop :=
  TranscriptFetcher.kind t = Some (Js.str "asr").

Definition Manual (t : TranscriptFetcher.CaptionTrack) : Prop := ~ AutoGenerated t.

(** The six priorities, highest first. *)
Inductive Rank :=
| EnglishManual | EnglishAuto | EnPrefixedManual | EnPrefixedAny | AnyManual | AnyTrack.

Definition satisfies (r : Rank) (t : TranscriptFetcher.CaptionTrack) : Prop :=
  match r with
  | EnglishManual => English t /\ Manual t
  | EnglishAuto => English t /\ AutoGenerated t
  | EnPrefixedManual => EnPrefixed t /\ Manual t
  | EnPrefixedAny => EnPrefixed t
  | AnyManual => Manual t
  | AnyTrack => True
  end.

Definition ranks : list Rank :=
  [EnglishManual; EnglishAuto; EnPrefixedManual; EnPrefixedAny; AnyManual; AnyTrack].

Definition track (lang kind_ : string) : TranscriptFetcher.CaptionTrack :=
  {| TranscriptFetcher.languageCode := Some (Js.str lang);
     TranscriptFetcher.kind := Some (Js.str kind_);
     TranscriptFetcher.baseUrl := None |}.

(** ** Transcript fetching *)

(** An extraction method fails when it throws or resolves to a falsy
    value (null or the empty string). *)
Definition method_failed (r : Js.result (option jsstring)) : Prop :=
  match r with
  | Js.Thrown _ => True
  | Js.Returned v => Js.truthy v = false
  end.

(** ** Parser *)

(** The marker occurs somewhere in the text, in any mix of cases. *)
Definition occurs_ci (lit text : jsstring) : Prop :=
  exists pre occ post,
    text = pre ++ occ ++ post /\
    map Regex.canonicalize occ = map Regex.canonicalize lit.

(** The same, decided. *)
Fixpoint contains_ci (text lit : jsstring) : bool :=
  Regex.starts_with true text lit ||
  match text with
  | [] => false
  | _ :: text' => contains_ci text' lit
  end.

Definition Glyph (g : N) : Prop := g = 45%N \/ g = 42%N \/ g = 8226%N.
Definition Space (c : N) : Prop := Js.is_space c = true.
Definition Digit (c : N) : Prop := Js.is_digit c = true.

(** The text does not start with white space. *)
Definition starts_solid (t : jsstring) : Prop :=
  match t with
  | c :: _ => Js.is_space c = false
  | [] => True
  end.

(** A line that begins with a bullet glyph followed by white space. *)
Definition BulletLine (l : jsstring) : Prop :=
  exists g w rest, l = g :: w :: rest /\ Glyph g /\ Space w.

(** A line that begins with a digit sequence followed by a full stop. *)
Definition NumberedLine (l : jsstring) : Prop :=
  exists ds rest, l = ds ++ 46%N :: rest /\ ds <> [] /\ Forall Digit ds.

(** [t] is the line [l] without its glyph and the white space after it. *)
Definition unbulleted (l t : jsstring) : Prop :=
  exists g ws, l = g :: ws ++ t /\ Glyph g /\ ws <> [] /\ Forall Space ws /\
               starts_solid t.

(** Where white space follows the full stop of the numeral, [t] is the
    line [l] without the numeral, the full stop and that white space. *)
Definition unnumbered (l t : jsstring) : Prop :=
  forall ds ws rest,
    l = ds ++ 46%N :: ws ++ rest -> ds <> [] -> Forall Digit ds ->
    ws <> [] -> Forall Space ws -> starts_solid rest -> t = rest.

(** [kept] are the lines of [ls] that satisfy [P], in their order. *)
Inductive surviving (P : jsstring -> Prop) : list jsstring -> list jsstring -> Prop :=
| surviving_nil : surviving P [] []
| surviving_keep l ls kept :
    P l -> surviving P ls kept -> surviving P (l :: ls) (l :: kept)
| surviving_drop l ls kept :
    ~ P l -> surviving P ls kept -> surviving P (l :: ls) kept.

(** The block of a section: what follows the leftmost occurrence of the
    marker and the white space after it, up to [stop]. *)
Definition block_after (lit text block stop : jsstring) : Prop :=
  exists pre occ ws,
    text = pre ++ occ ++ ws ++ block ++ stop /\
    map Regex.canonicalize occ = map Regex.canonicalize lit /\
    (forall k, (k < length pre)%nat ->
               Regex.starts_with true (drop k text) lit = false) /\
    Forall Space ws /\ starts_solid (block ++ stop).

(** ** The patterns, read directly

    What each pattern of the parser and of the local provider computes,
    written as a function on the text; the properties below prove each
    equal to the matcher run on the pattern. *)
Module Direct.

(** [(.+?)(?:\n|$)]: the characters up to the first line terminator,
    at least one, provided a newline or the end of the text follows. *)
Definition rest_of_line (s : jsstring) : option jsstring :=
  let run := Js.take_while Regex.dot s in
  match run, Js.drop_while Regex.dot s with
  | [], _ => None
  | _ :: _, [] => Some run
  | _ :: _, c :: _ => if (c =? 10)%N then Some run else None
  end.

(** [\s*(.+?)(?:\n|$)]: after as much white space as possible, giving
    it back one character at a time while the rest fails. *)
Fixpoint spaces_then_rest_of_line (s : jsstring) : option jsstring :=
  match s with
  | c :: s' =>
      if Js.is_space c then
        match spaces_then_rest_of_line s' with
        | Some found => Some found
        | None => rest_of_line s
        end
      else rest_of_line s
  | [] => rest_of_line []
  end.

(** Group 1 of /DISCLAIMER:\s*(.+?)(?:\n|$)/i at its leftmost match. *)
Fixpoint match_disclaimer (s : jsstring) : option jsstring :=
  match (if Regex.starts_with true s GeminiAPI.DISCLAIMER
         then spaces_then_rest_of_line (drop (length GeminiAPI.DISCLAIMER) s)
         else None) with
  | Some found => Some found
  | None => match s with
            | [] => None
            | _ :: s' => match_disclaimer s'
            end
  end.

(** What follows the leftmost occurrence of a marker. *)
Fixpoint after_marker (lit : jsstring) (s : jsstring) : option jsstring :=
  if Regex.starts_with true s lit then Some (drop (length lit) s)
  else match s with
       | [] => None
       | _ :: s' => after_marker lit s'
       end.

(** The text up to the first TAKEAWAYS: or to its end. *)
Fixpoint until_takeaways (s : jsstring) : jsstring :=
  match s with
  | [] => []
  | c :: s' =>
      if Regex.starts_with true s GeminiAPI.TAKEAWAYS then []
      else c :: until_takeaways s'
  end.

(** Group 1 of /SUMMARY:\s*([\s\S]*?)(?=TAKEAWAYS:|$)/i. *)
Definition match_summary (text : jsstring) : option jsstring :=
  match after_marker GeminiAPI.SUMMARY text with
  | Some rest => Some (until_takeaways (Js.trimStart rest))
  | None => None
  end.

(** Group 1 of /TAKEAWAYS:\s*([\s\S]*?)$/i. *)
Definition match_takeaways (text : jsstring) : option jsstring :=
  match after_marker GeminiAPI.TAKEAWAYS text with
  | Some rest => Some (Js.trimStart rest)
  | None => None
  end.

(** [line.match(/^[-*•]\s/)] *)
Definition bullet_test (line : jsstring) : bool :=
  match line with
  | g :: w :: _ => GeminiAPI.is_bullet_glyph g && Js.is_space w
  | _ => false
  end.

(** [line.replace(/^[-*•]\s+/, '')] *)
Definition bullet_replace (line : jsstring) : jsstring :=
  match line with
  | g :: w :: rest =>
      if GeminiAPI.is_bullet_glyph g && Js.is_space w then Js.trimStart rest else line
  | _ => line
  end.

(** [line.match(/^\d+\./)] *)
Definition numeral_test (line : jsstring) : bool :=
  match Js.take_while Js.is_digit line, Js.drop_while Js.is_digit line with
  | _ :: _, d :: _ => (d =? 46)%N
  | _, _ => false
  end.

(** [line.replace(/^\d+\.\s+/, '')] *)
Definition numeral_replace (line : jsstring) : jsstring :=
  match Js.take_while Js.is_digit line, Js.drop_while Js.is_digit line with
  | _ :: _, d :: w :: rest =>
      if (d =? 46)%N && Js.is_space w then Js.trimStart rest else line
  | _, _ => line
  end.

(** [s.replace(/\/$/, '')]: a slash at the very end is removed. *)
Fixpoint strip_trailing_slash (s : jsstring) : jsstring :=
  match s with
  | [] => []
  | c :: s' =>
      match s' with
      | [] => if (c =? 47)%N then [] else [c]
      | _ :: _ => c :: strip_trailing_slash s'
      end
  end.

End Direct.

(** ** Concrete worlds *)

Definition lines (ls : list string) : jsstring := Js.join Js.nl (map Js.str ls).

(** An entry for ["abc123"] written on 2023-11-14 at 22:00:00 UTC with a
    TTL of -472222 hours: its expiresAt is 0. *)
Definition zero_expiry_area : gmap jsstring (SummaryCache.CacheEntry jsstring) :=
  SummaryCache.set Storage.reliable 1699999200000 1699999200000 (Js.str "abc123")
    (Js.str "a summary") (-472222) ∅.

Definition no_settings : APIManager.Settings :=
  {| APIManager.apiKey := None; APIManager.openRouterApiKey := None;
     APIManager.openRouterModel := None; APIManager.deepSeekApiKey := None;
     APIManager.ollamaUrl := None; APIManager.ollamaModel := None |}.

Definition failed_to_fetch : Js.error :=
  {| Js.name := Js.str "TypeError"; Js.message := Js.str "Failed to fetch" |}.

(** Nothing is configured and the network is down. *)
Definition offline_env : APIManager.Env :=
  {| APIManager.settings := no_settings;
     APIManager.fetch := fun _ => Js.Thrown failed_to_fetch;
     APIManager.type_error_message := Js.str "Cannot read properties of undefined" |}.

Definition chat_completion (content : jsstring) : APIManager.Response :=
  {| APIManager.status := 200;
     APIManager.body_text := [];
     APIManager.body_json :=
       Js.Returned
         (Json.JObj [("choices"%string,
            Json.JArr [Json.JObj [("message"%string,
              Json.JObj [("content"%string, Json.JStr content)])]])]) |}.

(** Only the DeepSeek key is stored; every request is answered with a
    chat completion. *)
Definition deepseek_env : APIManager.Env :=
  {| APIManager.settings :=
       {| APIManager.apiKey := None; APIManager.openRouterApiKey := None;
          APIManager.openRouterModel := None;
          APIManager.deepSeekApiKey := Some (Js.str "sk-1");
          APIManager.ollamaUrl := None; APIManager.ollamaModel := None |};
     APIManager.fetch := fun _ => Js.Returned (chat_completion (Js.str " A summary. "));
     APIManager.type_error_message := Js.str "Cannot read properties of undefined" |}.

Definition gemini_answer (text_ : jsstring) : APIManager.Response :=
  {| APIManager.status := 200;
     APIManager.body_text := [];
     APIManager.body_json :=
       Js.Returned
         (Json.JObj [("candidates"%string,
            Json.JArr [Json.JObj [("content"%string,
              Json.JObj [("parts"%string,
                Json.JArr [Json.JObj [("text"%string, Json.JStr text_)]])])]])]) |}.

(** Only the Gemini key is stored; every request is answered. *)
Definition gemini_env : APIManager.Env :=
  {| APIManager.settings :=
       {| APIManager.apiKey := Some (Js.str "k"); APIManager.openRouterApiKey := None;
          APIManager.openRouterModel := None; APIManager.deepSeekApiKey := None;
          APIManager.ollamaUrl := None; APIManager.ollamaModel := None |};
     APIManager.fetch := fun _ => Js.Returned (gemini_answer (Js.str " A guess. "));
     APIManager.type_error_message := Js.str "Cannot read properties of undefined" |}.

Definition gemini_request (content : jsstring) : APIManager.Request :=
  {| APIManager.url :=
       Js.str "https://generativelanguage.googleapis.com/v1beta/models/gemini-2.0-flash-exp:generateContent?key=k";
     APIManager.authorization := None; APIManager.model := None;
     APIManager.system := None;
     APIManager.prompt := APIManager.instruction ++ content |}.

Definition some_metadata : TranscriptFetcher.VideoMetadata :=
  {| TranscriptFetcher.title := Some (Js.str "Proofs in 100 seconds");
     TranscriptFetcher.channel := Some (Js.str "Chan");
     TranscriptFetcher.description := Some (Js.str "About proofs.");
     TranscriptFetcher.duration := None;
     TranscriptFetcher.viewCount := None |}.

(** A video for which both extraction methods find nothing. *)
Definition no_captions : jsstring -> Js.result (option jsstring) :=
  fun _ => Js.Returned None.

Definition a_clock : Background.Clock :=
  {| Background.at_get := 1700000000000; Background.at_set := 1700000000500;
     Background.at_stamp := 1700000000500 |}.

Definition fresh : Background.State :=
  {| Background.area := ∅; Background.current := None |}.

(** ** Video ids, read directly

    What the three patterns of [extractVideoId] compute at one position
    of the URL; the properties below prove the leftmost such position to
    be what the matcher finds. *)
Module DirectId.

(** The first position, from the left, at which [at_pos] finds something. *)
Fixpoint first_at (at_pos : jsstring -> option jsstring) (s : jsstring)
  : option jsstring :=
  match at_pos s with
  | Some found => Some found
  | None =>
      match s with
      | [] => None
      | _ :: s' => first_at at_pos s'
      end
  end.

(** [([^...]+)] in front of nothing else: the longest run of characters
    of the class, at least one. *)
Definition run_of (p : N -> bool) (s : jsstring) : option jsstring :=
  match Js.take_while p s with
  | [] => None
  | c :: run => Some (c :: run)
  end.

(** /[?&]v=([^&]+)/ at the start of [s] *)
Definition watch_at (s : jsstring) : option jsstring :=
  match s with
  | c :: s' =>
      if VideoId.is_query_mark c && Regex.starts_with false s' (Js.str "v=")
      then run_of VideoId.not_amp (drop 2 s')
      else None
  | [] => None
  end.

(** /\/shorts\/([^?&]+)/ at the start of [s] *)
Definition shorts_at (s : jsstring) : option jsstring :=
  if Regex.starts_with false s (Js.str "/shorts/")
  then run_of VideoId.not_query_mark (drop 8 s)
  else None.

(** /youtu\.be\/([^?&]+)/ at the start of [s] *)
Definition short_link_at (s : jsstring) : option jsstring :=
  if Regex.starts_with false s (Js.str "youtu.be/")
  then run_of VideoId.not_query_mark (drop 9 s)
  else None.

End DirectId.

(** The URL holds no [?] and no [&]. *)
Definition no_query (s : jsstring) : Prop :=
  Forall (fun c => c <> 63%N /\ c <> 38%N) s.

(** ** Requests and counts *)



Definition is_fetch (e : APIManager.Event) : bool :=
  match e with
  | APIManager.Fetch _ => true
  | _ => false
  end.

(** How many network requests a run made. *)
Definition requests (evs : list APIManager.Event) : nat :=
  length (List.filter is_fetch evs).

(** The label a cloud provider puts in front of an HTTP error. *)
Definition api_label (p : APIManager.Provider) : string :=
  match p with
  | APIManager.gemini => "Gemini"
  | APIManager.openrouter => "OpenRouter"
  | APIManager.deepseek => "DeepSeek"
  | APIManager.local => "Ollama"
  end.


(** The string has no white space at either end. *)
Definition trimmed (s : jsstring) : Prop := Js.trim s = s.

(** Every storage call is rejected. *)
Definition broken_storage : Storage.faults := fun _ => true.

(** Only the Ollama URL is stored; the server answers every request with
    the given status. *)
Definition ollama_env (status_ : Z) : APIManager.Env :=
  {| APIManager.settings :=
       {| APIManager.apiKey := None; APIManager.openRouterApiKey := None;
          APIManager.openRouterModel := None; APIManager.deepSeekApiKey := None;
          APIManager.ollamaUrl := Some (Js.str "http://localhost:11434/");
          APIManager.ollamaModel := Some (Js.str "mistral") |};
     APIManager.fetch := fun _ =>
       Js.Returned {| APIManager.status := status_;
                      APIManager.body_text := Js.str "not here";
                      APIManager.body_json := Js.Thrown failed_to_fetch |};
     APIManager.type_error_message := Js.str "Cannot read properties of undefined" |}.

(** A transcript found by the first method. *)
Definition captions (t : string) : jsstring -> Js.result (option jsstring) :=
  fun _ => Js.Returned (Some (Js.str t)).



(** ** Transcript text *)

(** [s.replace(/\s+/g, ' ')], read directly: every run of white space
    becomes one space.  [in_run] tells whether the character before was
    white space. *)
Fixpoint squeeze (in_run : bool) (s : jsstring) : jsstring :=
  match s with
  | [] => []
  | c :: s' =>
      if Js.is_space c then
        if in_run then squeeze true s' else 32%N :: squeeze true s'
      else c :: squeeze false s'
  end.

(** The only white space in the text is the space character, and no two
    spaces are adjacent. *)
Fixpoint single_spaced (s : jsstring) : bool :=
  match s with
  | [] => true
  | c :: s' =>
      (if Js.is_space c
       then (c =? 32)%N && match s' with
                           | d :: _ => negb (Js.is_space d)
                           | [] => true
                           end
       else true)
      && single_spaced s'
  end.

(** A word: not empty, no white space. *)
Definition word (w : jsstring) : Prop :=
  w <> [] /\ Forall (fun c => Js.is_space c = false) w.

(** A json3 transcript whose events hold the given segments. *)
Definition json3 (events : list (list jsstring)) : Json.value :=
  Json.JObj
    [("events"%string,
      Json.JArr
        (map (fun segs =>
                Json.JObj
                  [("segs"%string,
                    Json.JArr (map (fun utf8 => Json.JObj [("utf8"%string, Json.JStr utf8)])
                                 segs))])
             events))].

(** ** Patterns without a capture group *)

Fixpoint groupless (r : Regex.re) : bool :=
  match r with
  | Regex.Group _ => false
  | Regex.Seq a b | Regex.Alt a b => groupless a && groupless b
  | Regex.Ahead a => groupless a
  | _ => true
  end.

(** ** Transcript XML *)



(** ** Structured summaries *)

(** The transcript is null, empty or white space only. *)
Definition blank (transcript : option jsstring) : bool :=
  match transcript with
  | None => true
  | Some s => match Js.trim s with
              | [] => true
              | _ :: _ => false
              end
  end.

(** A network that answers every request with the same generated text. *)
Definition generating (text_ : string) : jsstring -> jsstring -> Js.result GeminiCall.Answer :=
  fun _ _ =>
    Js.Returned {| GeminiCall.answer_ok := true;
                   GeminiCall.answer_status := 200;
                   GeminiCall.error_message := Js.Returned None;
                   GeminiCall.generated := Js.Returned (Some (Js.str text_)) |}.

Definition no_metadata : GeminiCall.PromptMetadata :=
  {| GeminiCall.prompt_title := None; GeminiCall.prompt_channel := None;
     GeminiCall.prompt_description := None |}.

(** ** Responses in the format the prompt asks for *)

(** A response written as the prompt asks: the summary heading, one
    line per bullet, an empty line, the takeaways heading and one
    numbered line per takeaway. *)
Definition formatted (bullets : list jsstring) (items : list (jsstring * jsstring))
  : jsstring :=
  Js.join Js.nl
    ([GeminiAPI.SUMMARY] ++ map (fun b => Js.str "- " ++ b) bullets
     ++ [[]; GeminiAPI.TAKEAWAYS]
     ++ map (fun item => fst item ++ Js.str ". " ++ snd item) items).

(** A text that fits on one line of such a response: not empty, no white
    space at either end, no line feed. *)
Definition one_line (t : jsstring) : Prop :=
  t <> [] /\ trimmed t /\ Forall (fun c => c <> 10%N) t.

(** A form with an OpenRouter key and nothing else. *)
Definition openrouter_form : Options.Form :=
  {| Options.apiKey := []; Options.openRouterApiKey := Js.str " sk-or-1 ";
     Options.openRouterModel := []; Options.deepSeekApiKey := [];
     Options.ollamaUrl := Js.str "  "; Options.ollamaModel := [];
     Options.hoverDelay := Some 500 |}.

(** Nothing stored yet. *)
Definition fresh_sync : Options.Sync :=
  {| Options.stored := no_settings; Options.stored_hoverDelay := None |}.

(** The environment of the service worker once the settings are those
    of the synchronised storage. *)
Definition configured_by (sync : Options.Sync) (env : APIManager.Env) : Prop :=
  APIManager.settings env = Options.stored sync.

(** The stored value is a string without white space at either end. *)
Definition stored_trimmed (v : option jsstring) : Prop :=
  exists s, v = Some s /\ trimmed s.

(** A click on the menu item over a link to a video, while the content
    script had reported another one. *)
Definition link_click : ContextMenu.Click :=
  {| ContextMenu.menuItemId := Js.str "summarizeVideo";
     ContextMenu.linkUrl := Some (Js.str "https://www.youtube.com/watch?v=abc123&t=4s") |}.

Definition hovered : ContextMenu.Tracked :=
  ContextMenu.setContextMenuVideo (Some (Js.str "xyz789")) (Some (Js.str "A title")).

(* ===================================================================== *)
(** * Properties                                                          *)
(* ===================================================================== *)

(** ** The patterns: matcher and direct reading agree *)

Section Patterns.
Import Regex GeminiAPI Direct.

Lemma m_lit {R} ic cs bol s cap (k : bool -> jsstring -> option jsstring -> option R) :
  m ic (lit cs) bol s cap k =
  if starts_with ic s cs
  then k (match cs with [] => bol | _ => false end) (drop (length cs) s) cap
  else None.
Proof.
  revert bol s. induction cs as [|c cs IH]; intros bol s; cbn; [done|].
  destruct s as [|x s]; [done|]. cbn.
  destruct (same_char ic x c); [|done]. cbn. rewrite IH. by destruct cs.
Qed.

Lemma m_eol ic b s cap :
  m ic Eol b s cap accept = match s with [] => Some (cap, []) | _ :: _ => None end.
Proof. by destruct s. Qed.

(** A greedy star in front of a continuation that never fails stops after
    the longest run. *)
Lemma star_greedy_total {R} p (k : bool -> jsstring -> option R)
    (f : jsstring -> R) bol s :
  (forall b t, k b t = Some (f t)) ->
  star true p k bol s = Some (f (Js.drop_while p s)).
Proof.
  intros Hk. revert bol. induction s as [|c s IH]; intros bol; cbn; [apply Hk|].
  destruct (p c); [|apply Hk]. by rewrite IH.
Qed.

(** A greedy star in front of a continuation that refuses every character
    of the class stops after the longest run and does not come back. *)
Lemma star_greedy_stop {R} p (k : jsstring -> option R) bol s :
  (forall c t, p c = true -> k (c :: t) = None) ->
  star true p (fun _ t => k t) bol s = k (Js.drop_while p s).
Proof.
  intros Hk. revert bol. induction s as [|c s IH]; intros bol; cbn; [done|].
  destruct (p c) eqn:Hc; [|done]. rewrite IH.
  destruct (k (Js.drop_while p s)) eqn:Hd; [done|]. by apply Hk.
Qed.

Lemma star_map {R Q} (h : R -> Q) g p (k : bool -> jsstring -> option R) bol s :
  option_map h (star g p k bol s)
  = star g p (fun b t => option_map h (k b t)) bol s.
Proof.
  revert bol. induction s as [|c s IH]; intros bol; destruct g; cbn.
  - done.
  - by destruct (k bol []).
  - destruct (p c); [|done]. rewrite <- IH.
    by destruct (star true p k false s).
  - destruct (k bol (c :: s)); [done|]. cbn. destruct (p c); [|done]. apply IH.
Qed.

Lemma star_ext {R} g p (k k' : bool -> jsstring -> option R) bol s :
  (forall b t, k b t = k' b t) -> star g p k bol s = star g p k' bol s.
Proof.
  intros Hk. revert bol. induction s as [|c s IH]; intros bol; destruct g; cbn;
    rewrite ?Hk, ?IH; done.
Qed.

Lemma canonicalize_newline c : (canonicalize c =? 10)%N = (c =? 10)%N.
Proof.
  unfold canonicalize. destruct ((97 <=? c) && (c <=? 122))%N eqn:Hr; [|done].
  apply andb_true_iff in Hr as [H1%N.leb_le H2%N.leb_le].
  destruct (N.eqb_spec (c - 32) 10), (N.eqb_spec c 10); lia || done.
Qed.

(** (?:\n|$) *)
Lemma line_end b s cap :
  m true (Alt (Chr 10) Eol) b s cap accept =
  match s with
  | [] => Some (cap, [])
  | c :: s' => if (c =? 10)%N then Some (cap, s') else None
  end.
Proof.
  destruct s as [|c s']; cbn; [done|].
  unfold same_char. rewrite canonicalize_newline. by destruct (c =? 10)%N.
Qed.

(** What a group has consumed when [t] is left of [pre ++ t]. *)
Lemma take_suffix (pre t : jsstring) :
  take (length (pre ++ t) - length t) (pre ++ t) = pre.
Proof.
  rewrite length_app.
  replace (length pre + length t - length t)%nat with (length pre) by lia.
  apply take_app_length.
Qed.

Lemma trimStart_drop_while (s : jsstring) :
  Js.trimStart s = Js.drop_while Js.is_space s.
Proof. induction s as [|c s IH]; cbn; [done|]. by rewrite IH. Qed.

(** *** The disclaimer pattern *)

Lemma lazy_dot whole pre t b :
  whole = pre ++ t ->
  option_map fst
    (star false dot
       (fun b' s' => m true (Alt (Chr 10) Eol) b' s'
                       (Some (take (length whole - length s') whole)) accept)
       b t)
  = match Js.drop_while dot t with
    | [] => Some (Some (pre ++ Js.take_while dot t))
    | c :: _ =>
        if (c =? 10)%N then Some (Some (pre ++ Js.take_while dot t)) else None
    end.
Proof.
  intros ->. revert pre b. induction t as [|c t IH]; intros pre b; cbn [star].
  - rewrite line_end. cbn [option_map fst Js.drop_while Js.take_while].
    by rewrite take_suffix, app_nil_r.
  - rewrite line_end.
    destruct (c =? 10)%N eqn:Hc.
    + apply N.eqb_eq in Hc as ->. cbn [option_map fst]. rewrite take_suffix.
      cbn. by rewrite app_nil_r.
    + cbn [Js.drop_while Js.take_while]. destruct (dot c) eqn:Hd.
      * replace (pre ++ c :: t) with ((pre ++ [c]) ++ t) by by rewrite <- app_assoc.
        rewrite IH. by rewrite <- !app_assoc.
      * by rewrite Hc.
Qed.

Lemma disclaimer_tail b s :
  option_map fst
    (m true (Seq (Group (Seq (Class dot) (Star false dot))) (Alt (Chr 10) Eol))
       b s None accept)
  = option_map Some (rest_of_line s).
Proof.
  unfold rest_of_line.
  set (ending := Alt (Chr 10) Eol).
  destruct s as [|x s]; cbn [m]; [done|].
  cbn [Js.take_while Js.drop_while]. destruct (dot x) eqn:Hx; [|done].
  subst ending. rewrite (lazy_dot (x :: s) [x] s false eq_refl).
  destruct (Js.drop_while dot s) as [|c ?]; [done|]. by destruct (c =? 10)%N.
Qed.

Lemma greedy_spaces_disclaimer b s :
  option_map fst
    (star true Js.is_space
       (fun b' s' =>
          m true (Seq (Group (Seq (Class dot) (Star false dot))) (Alt (Chr 10) Eol))
            b' s' None accept) b s)
  = option_map Some (spaces_then_rest_of_line s).
Proof.
  rewrite star_map.
  rewrite (star_ext _ _ _ (fun _ t => option_map Some (rest_of_line t)))
    by (intros; apply disclaimer_tail).
  revert b. induction s as [|c s IH]; intros b; cbn [star spaces_then_rest_of_line].
  - done.
  - destruct (Js.is_space c); [|done]. rewrite IH.
    by destruct (spaces_then_rest_of_line s).
Qed.

Lemma m_disclaimer b s :
  option_map fst (m true re_disclaimer b s None accept)
  = option_map Some
      (if starts_with true s DISCLAIMER
       then spaces_then_rest_of_line (drop (length DISCLAIMER) s)
       else None).
Proof.
  unfold re_disclaimer.
  set (tail_ := Seq (Group (Seq (Class dot) (Star false dot))) (Alt (Chr 10) Eol)).
  cbn [m]. rewrite m_lit.
  destruct (starts_with true s DISCLAIMER); [|done].
  apply greedy_spaces_disclaimer.
Qed.

Lemma search_disclaimer b skipped s :
  capture (search_from true re_disclaimer b skipped s) = match_disclaimer s.
Proof.
  revert b skipped. induction s as [|c s IH]; intros b skipped;
    cbn [search_from match_disclaimer];
    pose proof (m_disclaimer b) as Hm.
  - specialize (Hm []).
    destruct (m true re_disclaimer b [] None accept) as [[cap rest]|];
      destruct (if starts_with true [] DISCLAIMER then _ else _);
      cbn [option_map fst capture group1] in *; congruence.
  - specialize (Hm (c :: s)).
    destruct (m true re_disclaimer b (c :: s) None accept) as [[cap rest]|];
      destruct (if starts_with true (c :: s) DISCLAIMER then _ else _);
      cbn [option_map fst capture group1] in *; first [congruence | apply IH].
Qed.

Lemma disclaimerMatch_direct text : disclaimerMatch text = match_disclaimer text.
Proof. apply search_disclaimer. Qed.

(** *** The section patterns *)

(** (?=TAKEAWAYS:|$) *)
Lemma ahead_takeaways b s cap :
  m true (Ahead (Alt (lit TAKEAWAYS) Eol)) b s cap accept =
  if starts_with true s TAKEAWAYS then Some (cap, s)
  else match s with
       | [] => Some (cap, [])
       | _ :: _ => None
       end.
Proof.
  cbn [m]. rewrite m_lit.
  destruct (starts_with true s TAKEAWAYS); [done|].
  by destruct s.
Qed.

Lemma lazy_any_until whole pre t b :
  whole = pre ++ t ->
  star false any
    (fun b' s' => m true (Ahead (Alt (lit TAKEAWAYS) Eol)) b' s'
                    (Some (take (length whole - length s') whole)) accept)
    b t
  = Some (Some (pre ++ until_takeaways t), drop (length (until_takeaways t)) t).
Proof.
  intros ->. revert pre b. induction t as [|c t IH]; intros pre b; cbn [star].
  - rewrite ahead_takeaways.
    assert (starts_with true [] TAKEAWAYS = false) as -> by reflexivity.
    rewrite take_suffix. cbn. by rewrite app_nil_r.
  - rewrite ahead_takeaways. cbn [until_takeaways].
    destruct (starts_with true (c :: t) TAKEAWAYS) eqn:Hstart.
    + rewrite take_suffix. cbn. by rewrite app_nil_r.
    + cbn [any].
      replace (pre ++ c :: t) with ((pre ++ [c]) ++ t) by by rewrite <- app_assoc.
      rewrite IH. by rewrite <- !app_assoc.
Qed.

Lemma lazy_any_end whole pre t b :
  whole = pre ++ t ->
  star false any
    (fun b' s' => m true Eol b' s' (Some (take (length whole - length s') whole)) accept)
    b t
  = Some (Some (pre ++ t), []).
Proof.
  intros ->. revert pre b. induction t as [|c t IH]; intros pre b; cbn [star];
    rewrite m_eol.
  - by rewrite take_suffix, app_nil_r.
  - cbn [any].
    replace (pre ++ c :: t) with ((pre ++ [c]) ++ t) by by rewrite <- app_assoc.
    rewrite IH. by rewrite <- !app_assoc.
Qed.

Lemma m_summary b s :
  option_map fst (m true re_summary b s None accept)
  = if starts_with true s SUMMARY
    then Some (Some (until_takeaways (Js.trimStart (drop (length SUMMARY) s))))
    else None.
Proof.
  unfold re_summary.
  set (tail_ := Seq (Group (Star false any)) (Ahead (Alt (lit TAKEAWAYS) Eol))).
  cbn [m]. rewrite m_lit.
  destruct (starts_with true s SUMMARY); [|done].
  rewrite (star_greedy_total Js.is_space _
             (fun t => (Some (until_takeaways t), drop (length (until_takeaways t)) t))).
  - by rewrite trimStart_drop_while.
  - intros b' t. subst tail_.
    set (ahead := Ahead (Alt (lit TAKEAWAYS) Eol)). cbn [m]. subst ahead.
    apply (lazy_any_until t [] t b' eq_refl).
Qed.

Lemma m_takeaways b s :
  option_map fst (m true re_takeaways b s None accept)
  = if starts_with true s TAKEAWAYS
    then Some (Some (Js.trimStart (drop (length TAKEAWAYS) s)))
    else None.
Proof.
  unfold re_takeaways.
  set (tail_ := Seq (Group (Star false any)) Eol).
  cbn [m]. rewrite m_lit.
  destruct (starts_with true s TAKEAWAYS); [|done].
  rewrite (star_greedy_total Js.is_space _ (fun t => (Some t, []))).
  - by rewrite trimStart_drop_while.
  - intros b' t. subst tail_. cbn [m].
    apply (lazy_any_end t [] t b' eq_refl).
Qed.

(** A search for a pattern whose match at each position is known. *)
Lemma search_marker r (direct : jsstring -> option jsstring) marker b skipped s :
  (forall b t, option_map fst (m true r b t None accept)
               = if starts_with true t marker then Some (direct t) else None) ->
  capture (search_from true r b skipped s)
  = (fix go (s : jsstring) : option jsstring :=
       if starts_with true s marker then direct s
       else match s with
            | [] => None
            | _ :: s' => go s'
            end) s.
Proof.
  intros Hm. revert b skipped. induction s as [|c s IH]; intros b skipped;
    cbn [search_from]; specialize (Hm b).
  - specialize (Hm []).
    destruct (m true r b [] None accept) as [[cap rest]|];
      destruct (starts_with true [] marker);
      cbn [option_map fst capture group1] in *; congruence.
  - specialize (Hm (c :: s)).
    destruct (m true r b (c :: s) None accept) as [[cap rest]|];
      destruct (starts_with true (c :: s) marker);
      cbn [option_map fst capture group1] in *; first [congruence | apply IH].
Qed.

Lemma summarySection_direct text : summarySection text = match_summary text.
Proof.
  unfold summarySection, exec, match_summary.
  rewrite (search_marker re_summary
             (fun t => Some (until_takeaways (Js.trimStart (drop (length SUMMARY) t))))
             SUMMARY) by apply m_summary.
  induction text as [|c text IH]; cbn [after_marker].
  - by destruct (starts_with true [] SUMMARY).
  - by destruct (starts_with true (c :: text) SUMMARY).
Qed.

Lemma takeawaysSection_direct text : takeawaysSection text = match_takeaways text.
Proof.
  unfold takeawaysSection, exec, match_takeaways.
  rewrite (search_marker re_takeaways
             (fun t => Some (Js.trimStart (drop (length TAKEAWAYS) t)))
             TAKEAWAYS) by apply m_takeaways.
  induction text as [|c text IH]; cbn [after_marker].
  - by destruct (starts_with true [] TAKEAWAYS).
  - by destruct (starts_with true (c :: text) TAKEAWAYS).
Qed.

(** *** The line patterns *)

(** A pattern that starts with ^ matches at the start of the input or
    nowhere. *)
Lemma search_bol_false ic r skipped s :
  search_from ic (Seq Bol r) false skipped s = None.
Proof.
  revert skipped. induction s as [|c s IH]; intros skipped; cbn; [done|]. apply IH.
Qed.

Lemma exec_bol ic r s :
  exec ic (Seq Bol r) s =
  match m ic r true s None accept with
  | Some (cap, s') => Some {| before := []; group1 := cap; after := s' |}
  | None => None
  end.
Proof.
  unfold exec. destruct s as [|c s]; cbn [search_from m rev].
  - by destruct (m ic r true [] None accept) as [[? ?]|].
  - destruct (m ic r true (c :: s) None accept) as [[? ?]|]; [done|].
    apply search_bol_false.
Qed.

Lemma test_bullet line : test false re_bullet line = bullet_test line.
Proof.
  unfold test, re_bullet. rewrite exec_bol.
  destruct line as [|g [|w rest]]; cbn; [done| |].
  - by destruct (is_bullet_glyph g).
  - by destruct (is_bullet_glyph g), (Js.is_space w).
Qed.

Lemma remove_bullet_prefix line :
  remove_first false re_bullet_prefix line = bullet_replace line.
Proof.
  unfold remove_first, re_bullet_prefix. rewrite exec_bol.
  destruct line as [|g [|w rest]]; cbn [m bullet_replace]; [done| |].
  - by destruct (is_bullet_glyph g).
  - destruct (is_bullet_glyph g); [|done]. destruct (Js.is_space w); [|done].
    cbn [andb].
    rewrite (star_greedy_total Js.is_space _ (fun t => (None, t))) by done.
    cbn. by rewrite trimStart_drop_while.
Qed.

Lemma digit_not_stop c : Js.is_digit c = true -> (c =? 46)%N = false.
Proof.
  unfold Js.is_digit. intros [H1%N.leb_le H2%N.leb_le]%andb_true_iff.
  apply N.eqb_neq. lia.
Qed.

Lemma test_numeral line : test false re_numeral line = numeral_test line.
Proof.
  unfold test, re_numeral, numeral_test. rewrite exec_bol.
  destruct line as [|d line]; cbn [m Js.take_while Js.drop_while]; [done|].
  destruct (Js.is_digit d); [|done].
  rewrite (star_greedy_stop Js.is_digit
             (fun t => m false (Chr 46) false t None accept)).
  - cbn [m]. destruct (Js.drop_while Js.is_digit line) as [|x ?]; [done|].
    unfold same_char. by destruct (x =? 46)%N.
  - intros c t Hc. cbn. unfold same_char. by rewrite (digit_not_stop c Hc).
Qed.

Lemma remove_numeral_prefix line :
  remove_first false re_numeral_prefix line = numeral_replace line.
Proof.
  unfold remove_first, re_numeral_prefix, numeral_replace. rewrite exec_bol.
  destruct line as [|d line]; cbn [m Js.take_while Js.drop_while]; [done|].
  destruct (Js.is_digit d); [|done].
  rewrite (star_greedy_stop Js.is_digit
             (fun t => m false (Seq (Chr 46) (Seq (Class Js.is_space)
                                                (Star true Js.is_space)))
                         false t None accept)).
  - destruct (Js.drop_while Js.is_digit line) as [|x [|w rest]]; cbn [m]; [done| |].
    + unfold same_char. by destruct (x =? 46)%N.
    + unfold same_char. destruct (x =? 46)%N; [|done].
      destruct (Js.is_space w); [|done]. cbn [andb].
      rewrite (star_greedy_total Js.is_space _ (fun t => (None, t))) by done.
      cbn. by rewrite trimStart_drop_while.
  - intros c t Hc. cbn. unfold same_char. by rewrite (digit_not_stop c Hc).
Qed.

(** *** The trailing slash of the Ollama URL *)

Lemma search_trailing_slash b skipped s :
  match search_from false APIManager.re_trailing_slash b skipped s with
  | Some f => before f ++ after f
  | None => rev skipped ++ s
  end = rev skipped ++ strip_trailing_slash s.
Proof.
  revert b skipped. induction s as [|c s IH]; intros b skipped; [done|].
  cbn [search_from APIManager.re_trailing_slash m strip_trailing_slash].
  unfold same_char.
  specialize (IH false (c :: skipped)). cbn [rev] in IH.
  rewrite <- !app_assoc in IH. cbn [app] in IH.
  destruct (c =? 47)%N eqn:Hc; destruct s as [|c' s]; cbn [before after]; done.
Qed.

Lemma remove_trailing_slash s :
  remove_first false APIManager.re_trailing_slash s = strip_trailing_slash s.
Proof. apply (search_trailing_slash true [] s). Qed.

Lemma strip_trailing_slash_snoc u : strip_trailing_slash (u ++ [47%N]) = u.
Proof.
  induction u as [|c u IH]; [done|]. cbn [app strip_trailing_slash].
  rewrite IH. by destruct u.
Qed.

Lemma strip_trailing_slash_other u c :
  c <> 47%N -> strip_trailing_slash (u ++ [c]) = u ++ [c].
Proof.
  intros Hc%N.eqb_neq. induction u as [|d u IH]; cbn [app strip_trailing_slash].
  - by rewrite Hc.
  - rewrite IH. by destruct u.
Qed.
End Patterns.

(** ** Summary cache: lazy expiry and round trip *)

Section CacheContract.
Import SummaryCache.
Context {Data : Type}.
Implicit Types (area : gmap jsstring (CacheEntry Data)) (videoId : jsstring).

Lemma cache_key_inj videoId videoId' :
  CACHE_PREFIX ++ videoId = CACHE_PREFIX ++ videoId' -> videoId = videoId'.
Proof. apply app_inv_head. Qed.

Lemma get_absent rejects now videoId area :
  area !! (CACHE_PREFIX ++ videoId) = None ->
  get rejects now videoId area = (None, area).
Proof.
  intros Habs. unfold get, Storage.get.
  destruct (rejects _); [done|]. by rewrite Habs.
Qed.

(** A rejected read is swallowed: [get] answers null. *)
Lemma get_rejected rejects now videoId area :
  rejects (Storage.CallGet (CACHE_PREFIX ++ videoId)) = true ->
  get rejects now videoId area = (None, area).
Proof. intros Hr. unfold get, Storage.get. by rewrite Hr. Qed.

Lemma get_stored rejects now videoId area e :
  rejects (Storage.CallGet (CACHE_PREFIX ++ videoId)) = false ->
  area !! (CACHE_PREFIX ++ videoId) = Some e ->
  get rejects now videoId area =
    if negb (expiresAt e =? 0) && (expiresAt e <? now)
    then (None, SummaryCache.delete rejects videoId area)
    else (Some (data e), area).
Proof.
  intros Hr Hlook. unfold get, Storage.get. by rewrite Hr, Hlook.
Qed.

Lemma delete_reliable videoId area :
  SummaryCache.delete Storage.reliable videoId area
  = base.delete (CACHE_PREFIX ++ videoId) area.
Proof. reflexivity. Qed.

(** A rejected removal is swallowed: the expired entry stays in the area
    although [get] answers null. *)
Lemma delete_rejected rejects videoId area :
  rejects (Storage.CallRemove (CACHE_PREFIX ++ videoId)) = true ->
  SummaryCache.delete rejects videoId area = area.
Proof. intros Hr. unfold SummaryCache.delete, Storage.remove. by rewrite Hr. Qed.

Lemma set_reliable now now' videoId d ttl area :
  set Storage.reliable now now' videoId d ttl area
  = <[CACHE_PREFIX ++ videoId :=
        {| data := d; expiresAt := now + ttl * 60 * 60 * 1000; cachedAt := now' |}]> area.
Proof. reflexivity. Qed.

(** A rejected write is swallowed: the area keeps what it had. *)
Lemma set_rejected rejects now now' videoId d ttl area :
  rejects (Storage.CallSet (CACHE_PREFIX ++ videoId)) = true ->
  set rejects now now' videoId d ttl area = area.
Proof. intros Hr. unfold set, Storage.set. by rewrite Hr. Qed.

(** What [getStats] counts as valid is what [get] returns: an entry
    whose expiresAt is 0 never expires for either. *)
Lemma get_stored_unexpired now videoId area e :
  area !! (CACHE_PREFIX ++ videoId) = Some e ->
  get Storage.reliable now videoId area =
    if unexpired now e then (Some (data e), area)
    else (None, base.delete (CACHE_PREFIX ++ videoId) area).
Proof.
  intros Hlook. rewrite (get_stored _ _ _ _ e); [|done|done].
  unfold unexpired. rewrite delete_reliable.
  destruct (expiresAt e =? 0); [done|]. cbn.
  destruct (Z.ltb_spec (expiresAt e) now), (Z.leb_spec now (expiresAt e)); (done || lia).
Qed.

Lemma owned_key videoId : owned (CACHE_PREFIX ++ videoId) = true.
Proof. reflexivity. Qed.

Lemma lookup_foldr_delete (keys : list jsstring) area k :
  foldr base.delete area keys !! k = if bool_decide (k ∈ keys) then None else area !! k.
Proof.
  induction keys as [|k' keys IH]; cbn [foldr].
  - rewrite bool_decide_false; [done|]. apply not_elem_of_nil.
  - destruct (decide (k = k')) as [->|Hne].
    + rewrite lookup_delete_eq, bool_decide_true; [done|]. apply elem_of_cons; by left.
    + rewrite lookup_delete_ne by done. rewrite IH.
      destruct (bool_decide (k ∈ keys)) eqn:Hin.
      * apply bool_decide_eq_true in Hin. rewrite bool_decide_true; [done|].
        apply elem_of_cons; by right.
      * apply bool_decide_eq_false in Hin. rewrite bool_decide_false; [done|].
        intros [?|?]%elem_of_cons; done.
Qed.

(** After [clear], [get] answers null for every video identifier. *)
Lemma clear_then_get now videoId area :
  fst (get Storage.reliable now videoId (snd (clear Storage.reliable area))) = None.
Proof.
  unfold clear, Storage.get_all, Storage.remove_all, Storage.reliable.
  set (keys := List.filter owned (map fst (map_to_list area))).
  assert (forall k, owned k = true -> is_Some (area !! k) -> k ∈ keys) as Hkeys.
  { intros k Hk [e He]. apply list_elem_of_In, List.filter_In. split; [|done].
    apply List.in_map_iff. exists (k, e). split; [done|].
    apply list_elem_of_In, elem_of_map_to_list. done. }
  destruct (area !! (CACHE_PREFIX ++ videoId)) as [e|] eqn:Hlook.
  - assert (CACHE_PREFIX ++ videoId ∈ keys) as Hin
      by (apply Hkeys; [apply owned_key|by eexists]).
    destruct keys as [|k0 keys0] eqn:Hk; [by apply elem_of_nil in Hin|].
    cbn [snd]. rewrite get_absent; [done|].
    rewrite lookup_foldr_delete. by rewrite bool_decide_true.
  - destruct keys as [|k0 keys0]; cbn [snd].
    + by rewrite get_absent.
    + rewrite get_absent; [done|]. rewrite lookup_foldr_delete.
      by destruct (bool_decide _).
Qed.

(** C3 (as amended): on a storage layer that answers, [get] returns null
    and leaves the area alone when no entry is stored; when the stored
    entry has a non-zero expiresAt that the current time is past, it
    returns null and the entry is gone from the area afterwards, every
    other key being untouched; in every other case (the time is not past
    expiresAt, or expiresAt is 0) it returns the stored data and leaves
    the area alone. *)
Theorem cache_get_lazy_expiry now videoId area :
  let key := CACHE_PREFIX ++ videoId in
  (area !! key = None ->
     get Storage.reliable now videoId area = (None, area)) /\
  (forall e, area !! key = Some e -> expiresAt e <> 0 -> expiresAt e < now ->
     exists area', get Storage.reliable now videoId area = (None, area') /\
                   area' !! key = None /\
                   forall k, k <> key -> area' !! k = area !! k) /\
  (forall e, area !! key = Some e -> (now <= expiresAt e \/ expiresAt e = 0) ->
     get Storage.reliable now videoId area = (Some (data e), area)).
Proof.
  intros key. split; [|split].
  - apply get_absent.
  - intros e Hlook Hnz Hpast.
    exists (base.delete key area). split; [|split].
    + rewrite (get_stored _ _ _ _ e); [|done|done].
      assert ((expiresAt e =? 0) = false) as -> by lia.
      assert ((expiresAt e <? now) = true) as -> by lia.
      by rewrite delete_reliable.
    + apply lookup_delete_eq.
    + intros k Hk. by apply lookup_delete_ne.
  - intros e Hlook Hlive.
    rewrite (get_stored _ _ _ _ e); [|done|done].
    destruct Hlive as [Hlive | Hzero].
    + assert ((expiresAt e <? now) = false) as -> by lia.
      by rewrite andb_false_r.
    + assert ((expiresAt e =? 0) = true) as -> by lia. done.
Qed.

(** C4: [set(id, data)] with the default TTL of 168 hours, followed by
    [get(id)] at any time up to the entry's expiresAt, returns [data],
    whatever the area held before. *)
Theorem cache_set_get_roundtrip now now' later videoId (d : Data) area :
  later <= now + 168 * 60 * 60 * 1000 ->
  fst (get Storage.reliable later videoId
         (set_default Storage.reliable now now' videoId d area)) = Some d.
Proof.
  intros Hlater. unfold set_default, DEFAULT_TTL_HOURS.
  rewrite set_reliable.
  rewrite (get_stored _ _ _ _
             {| data := d; expiresAt := now + 168 * 60 * 60 * 1000; cachedAt := now' |});
    [|done|apply lookup_insert_eq].
  cbn [expiresAt data].
  assert ((now + 168 * 60 * 60 * 1000 <? later) = false) as -> by lia.
  by rewrite andb_false_r.
Qed.
End CacheContract.

(** C3 (as stated) fails: an entry is stored whose expiresAt (0) the
    current time is past, and [get] returns its data and keeps it. *)
Lemma cache_get_zero_expiry_kept :
  exists e,
    zero_expiry_area !! (SummaryCache.CACHE_PREFIX ++ Js.str "abc123") = Some e /\
    SummaryCache.expiresAt e < 1699999200001 /\
    SummaryCache.get Storage.reliable 1699999200001 (Js.str "abc123") zero_expiry_area
    = (Some (Js.str "a summary"), zero_expiry_area).
Proof.
  eexists. split; [|split].
  - unfold zero_expiry_area. rewrite set_reliable. apply lookup_insert_eq.
  - cbn. lia.
  - unfold zero_expiry_area. rewrite set_reliable.
    erewrite get_stored; [|done|apply lookup_insert_eq]. reflexivity.
Qed.

Lemma cache_get_lazy_expiry_witness :
  let id := Js.str "abc123" in
  let key := SummaryCache.CACHE_PREFIX ++ id in
  let entry t := {| SummaryCache.data := Js.str "a summary";
                    SummaryCache.expiresAt := t; SummaryCache.cachedAt := 5 |} in
  SummaryCache.get Storage.reliable 10 id
    (∅ : gmap jsstring (SummaryCache.CacheEntry jsstring)) = (None, ∅) /\
  (exists area', SummaryCache.get Storage.reliable 10 id {[ key := entry 7 ]} = (None, area')
                 /\ area' !! key = None) /\
  SummaryCache.get Storage.reliable 10 id {[ key := entry 12 ]}
  = (Some (Js.str "a summary"), {[ key := entry 12 ]}).
Proof.
  intros id key entry. split; [|split].
  - apply (proj1 (cache_get_lazy_expiry 10 id ∅)). apply lookup_empty.
  - destruct (proj1 (proj2 (cache_get_lazy_expiry 10 id {[ key := entry 7 ]}))
                (entry 7)) as (area' & Hget & Hgone & _).
    + apply lookup_singleton_eq.
    + cbn. lia.
    + cbn. lia.
    + exists area'. split; assumption.
  - apply (proj2 (proj2 (cache_get_lazy_expiry 10 id {[ key := entry 12 ]})) (entry 12)).
    + apply lookup_singleton_eq.
    + left. cbn. lia.
Defined.

Lemma cache_set_get_roundtrip_witness :
  fst (SummaryCache.get Storage.reliable 1700000000001 (Js.str "abc123")
         (SummaryCache.set_default Storage.reliable 1700000000000 1700000000000
            (Js.str "abc123") (Js.str "a summary") ∅))
  = Some (Js.str "a summary").
Proof. apply cache_set_get_roundtrip. lia. Defined.

(** ** Provider cascade *)

Section CascadeFacts.
Import APIManager.
Variable env : Env.
Variable transcript : option jsstring.

Lemma thrown_attempt p error evs :
  _callProvider env transcript p = (Js.Thrown error, evs) ->
  recorded env transcript p = (p, Js.message error) /\
  failed_attempt env transcript p
  = LogAttempt p :: evs ++ [WarnFailed p (Js.message error)].
Proof.
  intros Hcall. unfold recorded, failed_attempt, failure_message.
  by rewrite Hcall.
Qed.

Lemma cascade_all_fail ps errors current log :
  Forall (fails env transcript) ps ->
  cascade env transcript ps errors current log =
    {| outcome := Js.Thrown (Js.Error (all_failed (errors ++ map (recorded env transcript) ps)));
       currentProvider := current;
       events := log ++ concat (map (failed_attempt env transcript) ps) |}.
Proof.
  intros Hall. revert errors log.
  induction Hall as [|p ps [error Hp] _ IH]; intros errors log; cbn [cascade].
  - by rewrite !app_nil_r.
  - destruct (_callProvider env transcript p) as [r evs] eqn:Hcall.
    cbn in Hp. subst r.
    destruct (thrown_attempt _ _ _ Hcall) as [Hrec Hev].
    rewrite IH. cbn [map concat]. rewrite Hrec, Hev.
    by rewrite <- !app_assoc.
Qed.

Lemma cascade_first_success pre p post s errors current log :
  Forall (fails env transcript) pre ->
  fst (_callProvider env transcript p) = Js.Returned s ->
  cascade env transcript (pre ++ p :: post) errors current log =
    {| outcome := Js.Returned {| summary := s; provider := p |};
       currentProvider := Some p;
       events := log ++ concat (map (failed_attempt env transcript) pre)
                 ++ LogAttempt p :: snd (_callProvider env transcript p) |}.
Proof.
  intros Hpre Hp. revert errors log.
  induction Hpre as [|q pre [error Hq] _ IH]; intros errors log; cbn [app cascade].
  - destruct (_callProvider env transcript p) as [r evs]. cbn in Hp. by subst r.
  - destruct (_callProvider env transcript q) as [r evs] eqn:Hcall.
    cbn in Hq. subst r.
    destruct (thrown_attempt _ _ _ Hcall) as [_ Hev].
    rewrite IH. cbn [map concat]. rewrite Hev.
    by rewrite <- !app_assoc.
Qed.

Lemma returned_or_fails p :
  (exists s, fst (_callProvider env transcript p) = Js.Returned s)
  \/ fails env transcript p.
Proof.
  unfold fails. destruct (fst (_callProvider env transcript p)) as [s|e]; eauto.
Qed.

(** Where some provider of a list succeeds, there is a first one. *)
Lemma first_success_exists ps :
  (exists p s, p ∈ ps /\ fst (_callProvider env transcript p) = Js.Returned s) ->
  exists pre p post s,
    ps = pre ++ p :: post /\ Forall (fails env transcript) pre /\
    fst (_callProvider env transcript p) = Js.Returned s.
Proof.
  induction ps as [|q ps IH]; intros (p & s & Hin & Hp).
  - by apply elem_of_nil in Hin.
  - destruct (returned_or_fails q) as [[s' Hs']|Hq].
    + exists [], q, ps, s'. by repeat split.
    + assert (p ∈ ps) as Hps.
      { apply elem_of_cons in Hin as [->|Hin]; [|done].
        destruct Hq as [e He]. congruence. }
      destruct IH as (pre & p' & post & s' & -> & Hpre & Hp'); [by eauto|].
      exists (q :: pre), p', post, s'. split; [done|]. split; [by constructor|done].
Qed.

(** A provider call writes no "Attempting" line itself. *)
Lemma call_logs_no_attempt p q :
  LogAttempt q ∉ snd (_callProvider env transcript p).
Proof.
  intros Hin. destruct p; cbn in Hin;
    unfold _callGemini, _callOpenRouter, _callDeepSeek, _callLocal in Hin;
    repeat match type of Hin with
           | context [match ?x with _ => _ end] => destruct x
           end; cbn in Hin;
    repeat (apply elem_of_cons in Hin as [Hin|Hin]; [discriminate|]);
    by apply elem_of_nil in Hin.
Qed.

(** The events of failed attempts name no other provider. *)
Lemma failed_attempts_only pre q :
  LogAttempt q ∈ concat (map (failed_attempt env transcript) pre) -> q ∈ pre.
Proof.
  induction pre as [|p pre IH]; cbn [map concat]; intros Hin.
  - by apply elem_of_nil in Hin.
  - apply elem_of_cons.
    apply elem_of_app in Hin as [Hin|Hin]; [|right; by apply IH].
    unfold failed_attempt in Hin.
    apply elem_of_cons in Hin as [Heq|Hin]; [left; congruence|].
    apply elem_of_app in Hin as [Hin|Hin].
    + by apply call_logs_no_attempt in Hin.
    + apply elem_of_cons in Hin as [Hin|Hin]; [discriminate|by apply elem_of_nil in Hin].
Qed.

(** Every request of a provider call carries the instruction followed by
    the interpolated transcript argument. *)
Lemma call_prompt p r :
  Fetch r ∈ snd (_callProvider env transcript p) ->
  prompt r = instruction ++ Js.interpolate transcript.
Proof.
  intros Hin. destruct p; cbn in Hin;
    unfold _callGemini, _callOpenRouter, _callDeepSeek, _callLocal in Hin;
    repeat match type of Hin with
           | context [match ?x with _ => _ end] => destruct x
           end; cbn in Hin;
    repeat (apply elem_of_cons in Hin as [Hin|Hin];
            [first [discriminate Hin | injection Hin as ->; reflexivity]|]);
    by apply elem_of_nil in Hin.
Qed.

Lemma cascade_prompts ps errors current log r :
  Fetch r ∈ events (cascade env transcript ps errors current log) ->
  Fetch r ∈ log \/ prompt r = instruction ++ Js.interpolate transcript.
Proof.
  revert errors log. induction ps as [|p ps IH]; intros errors log; cbn [cascade].
  - cbn. auto.
  - destruct (_callProvider env transcript p) as [[s|error] evs] eqn:Hcall.
    + cbn [events]. intros Hin.
      apply elem_of_app in Hin as [Hin|Hin]; [by left|].
      apply elem_of_cons in Hin as [Hin|Hin]; [discriminate|].
      right. apply (call_prompt p). by rewrite Hcall.
    + intros Hin. apply IH in Hin as [Hin|Hin]; [|by right].
      apply elem_of_app in Hin as [Hin|Hin]; [by left|].
      apply elem_of_cons in Hin as [Hin|Hin]; [discriminate|].
      apply elem_of_app in Hin as [Hin|Hin].
      * right. apply (call_prompt p). by rewrite Hcall.
      * apply elem_of_cons in Hin as [Hin|Hin]; [discriminate|].
        by apply elem_of_nil in Hin.
Qed.

Lemma generateSummary_prompts current r :
  Fetch r ∈ events (generateSummary env transcript current) ->
  prompt r = instruction ++ Js.interpolate transcript.
Proof.
  intros Hin. apply cascade_prompts in Hin as [Hin|Hin]; [|done].
  by apply elem_of_nil in Hin.
Qed.

(** A provider that succeeds has sent a request. *)
Lemma call_returned_fetches p s :
  fst (_callProvider env transcript p) = Js.Returned s ->
  exists r, Fetch r ∈ snd (_callProvider env transcript p).
Proof.
  destruct p; cbn;
    unfold _callGemini, _callOpenRouter, _callDeepSeek, _callLocal;
    repeat match goal with
           | |- context [match ?x with Some _ => _ | None => _ end] => destruct x
           | |- context [match ?x with [] => _ | _ :: _ => _ end] => destruct x
           end; cbn [fst snd]; try discriminate; intros _; eexists;
    repeat first [by (apply elem_of_cons; left) | (apply elem_of_cons; right)].
Qed.
End CascadeFacts.

(** Without its key a cloud provider throws at once and sends nothing. *)
Lemma missing_credential_call env transcript p :
  credential_missing env p = true ->
  APIManager._callProvider env transcript p
  = (Js.Thrown (Js.Error (not_configured p)), []).
Proof.
  destruct p; cbn; unfold APIManager._callGemini, APIManager._callOpenRouter,
    APIManager._callDeepSeek; try discriminate.
  - destruct (APIManager.apiKey _) as [[|? ?]|]; cbn; (discriminate || reflexivity).
  - destruct (APIManager.openRouterApiKey _) as [[|? ?]|]; cbn; (discriminate || reflexivity).
  - destruct (APIManager.deepSeekApiKey _) as [[|? ?]|]; cbn; (discriminate || reflexivity).
Qed.

Lemma providers_NoDup : NoDup APIManager.providers.
Proof.
  unfold APIManager.providers.
  repeat constructor; intros H;
    repeat (apply elem_of_cons in H as [H|H]; [discriminate|]);
    by apply elem_of_nil in H.
Qed.

(** C1: when some provider's call succeeds, [generateSummary] returns the
    summary tagged with the first provider of [gemini, openrouter,
    deepseek, local] that succeeds; every provider before it was attempted
    and its failure recorded, a missing key being a failure like any
    other; and no provider after it is attempted. *)
Theorem generateSummary_first_success env transcript current :
  (exists p s, p ∈ APIManager.providers /\
               fst (APIManager._callProvider env transcript p) = Js.Returned s) ->
  exists pre p post s,
    APIManager.providers = pre ++ p :: post /\
    Forall (fails env transcript) pre /\
    fst (APIManager._callProvider env transcript p) = Js.Returned s /\
    (forall q, credential_missing env q = true ->
               fails env transcript q /\
               failed_attempt env transcript q
               = [APIManager.LogAttempt q; APIManager.WarnFailed q (not_configured q)]) /\
    let run := APIManager.generateSummary env transcript current in
    APIManager.outcome run
    = Js.Returned {| APIManager.summary := s; APIManager.provider := p |} /\
    APIManager.currentProvider run = Some p /\
    APIManager.events run
    = concat (map (failed_attempt env transcript) pre)
      ++ APIManager.LogAttempt p :: snd (APIManager._callProvider env transcript p) /\
    (forall q, q ∈ post -> APIManager.LogAttempt q ∉ APIManager.events run).
Proof.
  intros Hsome.
  destruct (first_success_exists env transcript _ Hsome)
    as (pre & p & post & s & Hsplit & Hpre & Hp).
  exists pre, p, post, s. split; [done|]. split; [done|]. split; [done|].
  split.
  { intros q Hq. pose proof (missing_credential_call env transcript q Hq) as Hcall.
    split; [eexists; by rewrite Hcall|].
    unfold failed_attempt, failure_message. by rewrite Hcall. }
  unfold APIManager.generateSummary. rewrite Hsplit.
  rewrite (cascade_first_success env transcript pre p post s) by done.
  cbn [APIManager.outcome APIManager.currentProvider APIManager.events app].
  split; [done|]. split; [done|]. split; [done|].
  intros q Hq Hin.
  pose proof providers_NoDup as Hnd. rewrite Hsplit in Hnd.
  apply NoDup_app in Hnd as (_ & Hdisj & Hnd).
  apply NoDup_cons in Hnd as [Hp_post _].
  apply elem_of_app in Hin as [Hin|Hin].
  - apply failed_attempts_only in Hin.
    apply (Hdisj q Hin). by apply elem_of_cons; right.
  - apply elem_of_cons in Hin as [Heq|Hin].
    + injection Heq as ->. done.
    + by apply call_logs_no_attempt in Hin.
Qed.

(** C2: when all four calls throw, [generateSummary] throws one Error
    whose message lists, after the heading, each provider's name and the
    message of its error, in the order gemini, openrouter, deepseek,
    local. *)
Theorem generateSummary_all_failed env transcript current e1 e2 e3 e4 :
  fst (APIManager._callProvider env transcript APIManager.gemini) = Js.Thrown e1 ->
  fst (APIManager._callProvider env transcript APIManager.openrouter) = Js.Thrown e2 ->
  fst (APIManager._callProvider env transcript APIManager.deepseek) = Js.Thrown e3 ->
  fst (APIManager._callProvider env transcript APIManager.local) = Js.Thrown e4 ->
  let run := APIManager.generateSummary env transcript current in
  APIManager.outcome run
  = Js.Thrown (Js.Error
      (Js.str "All AI providers failed:" ++ Js.nl
       ++ Js.str "- gemini: " ++ Js.message e1 ++ Js.nl
       ++ Js.str "- openrouter: " ++ Js.message e2 ++ Js.nl
       ++ Js.str "- deepseek: " ++ Js.message e3 ++ Js.nl
       ++ Js.str "- local: " ++ Js.message e4)) /\
  APIManager.currentProvider run = current /\
  APIManager.events run
  = concat (map (failed_attempt env transcript) APIManager.providers).
Proof.
  intros H1 H2 H3 H4 run. subst run. unfold APIManager.generateSummary.
  rewrite cascade_all_fail.
  2:{ unfold APIManager.providers. repeat constructor; eexists; eassumption. }
  cbn [APIManager.outcome APIManager.currentProvider APIManager.events app].
  split; [|done]. do 2 f_equal.
  unfold APIManager.all_failed, APIManager.providers, recorded, failure_message.
  cbn [map]. rewrite H1, H2, H3, H4.
  cbn [Js.join fst snd APIManager.provider_name].
  rewrite <- !app_assoc. reflexivity.
Qed.

(** The scenario [fail, fail, succeed, unreached]. *)
Example cascade_third_provider :
  let run := APIManager.generateSummary deepseek_env (Some (Js.str "words")) None in
  APIManager.outcome run
  = Js.Returned {| APIManager.summary := Js.str "A summary.";
                   APIManager.provider := APIManager.deepseek |} /\
  APIManager.events run
  = [ APIManager.LogAttempt APIManager.gemini;
      APIManager.WarnFailed APIManager.gemini (Js.str "Gemini API key not configured");
      APIManager.LogAttempt APIManager.openrouter;
      APIManager.WarnFailed APIManager.openrouter (Js.str "OpenRouter API key not configured");
      APIManager.LogAttempt APIManager.deepseek;
      APIManager.Fetch
        {| APIManager.url := Js.str "https://api.deepseek.com/v1/chat/completions";
           APIManager.authorization := Some (Js.str "Bearer sk-1");
           APIManager.model := Some (Js.str "deepseek-chat");
           APIManager.system := Some APIManager.system_message;
           APIManager.prompt := APIManager.instruction ++ Js.str "words" |} ].
Proof. split; vm_compute; reflexivity. Qed.

Lemma generateSummary_first_success_witness :
  exists p s,
    APIManager.outcome
      (APIManager.generateSummary deepseek_env (Some (Js.str "words")) None)
    = Js.Returned {| APIManager.summary := s; APIManager.provider := p |}.
Proof.
  destruct (generateSummary_first_success deepseek_env (Some (Js.str "words")) None)
    as (pre & p & post & s & _ & _ & _ & _ & Hout & _).
  - exists APIManager.deepseek, (Js.str "A summary."). split.
    + unfold APIManager.providers. do 2 (apply elem_of_cons; right).
      apply elem_of_cons; left. reflexivity.
    + vm_compute. reflexivity.
  - exists p, s. exact Hout.
Defined.

Lemma generateSummary_all_failed_witness :
  APIManager.outcome (APIManager.generateSummary offline_env (Some (Js.str "words")) None)
  = Js.Thrown (Js.Error
      (Js.str "All AI providers failed:" ++ Js.nl
       ++ Js.str "- gemini: Gemini API key not configured" ++ Js.nl
       ++ Js.str "- openrouter: OpenRouter API key not configured" ++ Js.nl
       ++ Js.str "- deepseek: DeepSeek API key not configured" ++ Js.nl
       ++ Js.str "- local: " ++ APIManager.cannot_connect)).
Proof.
  exact (proj1 (generateSummary_all_failed offline_env (Some (Js.str "words")) None
                  (Js.Error (Js.str "Gemini API key not configured"))
                  (Js.Error (Js.str "OpenRouter API key not configured"))
                  (Js.Error (Js.str "DeepSeek API key not configured"))
                  (Js.Error APIManager.cannot_connect)
                  eq_refl eq_refl eq_refl eq_refl)).
Defined.

(** ** The local provider *)

(** C10: whatever is stored, [_callLocal] sends exactly one request, to
    the configured base URL (one trailing slash removed) followed by
    /api/generate, with the configured model; where the URL or the model
    is not stored (or is empty) it uses http://localhost:11434 and
    llama3.2.  A cloud provider without its key throws "not configured"
    and sends nothing. *)
Theorem local_provider_never_skipped env transcript :
  let s := APIManager.settings env in
  (exists u m req,
     snd (APIManager._callLocal env transcript)
     = [APIManager.LogOllama u m; APIManager.Fetch req] /\
     APIManager.url req = u ++ Js.str "/api/generate" /\
     APIManager.model req = Some m /\
     APIManager.prompt req = APIManager.instruction ++ Js.interpolate transcript /\
     (Js.truthy (APIManager.ollamaUrl s) = false ->
        u = Js.str "http://localhost:11434") /\
     (forall base, APIManager.ollamaUrl s = Some (base ++ Js.str "/") -> u = base) /\
     (forall c base, APIManager.ollamaUrl s = Some (base ++ [c]) -> c <> 47%N ->
        u = base ++ [c]) /\
     (Js.truthy (APIManager.ollamaModel s) = false -> m = Js.str "llama3.2") /\
     (forall c m', APIManager.ollamaModel s = Some (c :: m') -> m = c :: m')) /\
  (forall p, credential_missing env p = true ->
     APIManager._callProvider env transcript p
     = (Js.Thrown (Js.Error (not_configured p)), [])).
Proof.
  intros s. split; [|intros p; apply missing_credential_call].
  unfold APIManager._callLocal. cbn [snd]. do 3 eexists.
  split; [reflexivity|]. cbn [APIManager.url APIManager.model APIManager.prompt].
  split; [reflexivity|]. split; [reflexivity|]. split; [reflexivity|].
  fold s. repeat split.
  - destruct (APIManager.ollamaUrl s) as [[|? ?]|]; cbn; (discriminate || reflexivity).
  - intros base ->.
    assert (Js.or_default (Some (base ++ Js.str "/")) APIManager.DEFAULT_OLLAMA_URL
            = base ++ Js.str "/") as ->.
    { destruct base; reflexivity. }
    rewrite remove_trailing_slash. apply strip_trailing_slash_snoc.
  - intros c base -> Hc.
    assert (Js.or_default (Some (base ++ [c])) APIManager.DEFAULT_OLLAMA_URL
            = base ++ [c]) as ->.
    { destruct base; reflexivity. }
    rewrite remove_trailing_slash. by apply strip_trailing_slash_other.
  - destruct (APIManager.ollamaModel s) as [[|? ?]|]; cbn; (discriminate || reflexivity).
  - intros c m' ->. reflexivity.
Qed.

Lemma local_provider_never_skipped_witness :
  (exists req,
     APIManager.Fetch req ∈ snd (APIManager._callLocal offline_env None) /\
     APIManager.url req = Js.str "http://localhost:11434/api/generate" /\
     APIManager.model req = Some (Js.str "llama3.2")) /\
  APIManager._callProvider offline_env None APIManager.gemini
  = (Js.Thrown (Js.Error (Js.str "Gemini API key not configured")), []).
Proof.
  destruct (local_provider_never_skipped offline_env None)
    as [(u & m & req & Hev & Hurl & Hmodel & _ & Hu & _ & _ & Hm & _) Hcloud].
  split.
  - exists req. split; [|split].
    + rewrite Hev. apply elem_of_cons; right. apply elem_of_cons; left. reflexivity.
    + rewrite Hurl, (Hu eq_refl). reflexivity.
    + rewrite Hmodel, (Hm eq_refl). reflexivity.
  - apply (Hcloud APIManager.gemini). reflexivity.
Defined.

(** ** Caption-track selection *)

Section TrackSelection.
Import TranscriptFetcher.

Lemma eqb_eq (a b : jsstring) : Js.eqb a b = true <-> a = b.
Proof.
  revert b. induction a as [|x a IH]; intros [|y b]; cbn; try (split; congruence).
  rewrite andb_true_iff, N.eqb_eq, IH. split; [intros [-> ->]; done|].
  intros [= -> ->]. done.
Qed.

Lemma startsWith_prefix (s p : jsstring) :
  Js.startsWith s p = true <-> exists rest, s = p ++ rest.
Proof.
  revert s. induction p as [|a p IH]; intros s; cbn.
  - split; [intros _; by exists s|done].
  - destruct s as [|b s].
    + split; [done|]. intros [rest Hrest]. discriminate.
    + rewrite andb_true_iff, N.eqb_eq, IH. split.
      * intros [-> [rest ->]]. by exists rest.
      * intros [rest [= -> ->]]. eauto.
Qed.

Lemma is_en_English t : is_en t = true <-> English t.
Proof.
  unfold is_en, English. destruct (languageCode t) as [l|]; [|split; done].
  rewrite eqb_eq. split; congruence.
Qed.

Lemma en_prefixed_EnPrefixed t : en_prefixed t = true <-> EnPrefixed t.
Proof.
  unfold en_prefixed, EnPrefixed. destruct (languageCode t) as [l|].
  - rewrite startsWith_prefix. split; intros [rest H]; exists rest; congruence.
  - split; [done|]. intros [rest H]. discriminate.
Qed.

Lemma is_asr_AutoGenerated t : is_asr t = true <-> AutoGenerated t.
Proof.
  unfold is_asr, AutoGenerated. destruct (kind t) as [k|]; [|split; done].
  rewrite eqb_eq. split; congruence.
Qed.

Lemma not_asr_Manual t : negb (is_asr t) = true <-> Manual t.
Proof.
  unfold Manual. rewrite <- is_asr_AutoGenerated.
  destruct (is_asr t); cbn; split; congruence.
Qed.

(** The i-th test of the source decides the i-th predicate. *)
Lemma priorities_satisfies :
  Forall2 (fun test r => forall t, test t = true <-> satisfies r t) priorities ranks.
Proof.
  unfold priorities, ranks.
  repeat (apply List.Forall2_cons;
          [intros t; cbn [satisfies];
           rewrite ?andb_true_iff, ?is_en_English, ?en_prefixed_EnPrefixed,
             ?not_asr_Manual, ?is_asr_AutoGenerated; done|]).
  apply List.Forall2_nil.
Qed.

Lemma find_first (test : CaptionTrack -> bool) tracks t :
  List.find test tracks = Some t ->
  exists before after,
    tracks = before ++ t :: after /\ test t = true /\
    forall t', t' ∈ before -> test t' = false.
Proof.
  induction tracks as [|x tracks IH]; cbn; [done|].
  destruct (test x) eqn:Hx.
  - intros [= ->]. exists [], tracks. repeat split; [done|].
    intros t' Hin. by apply elem_of_nil in Hin.
  - intros Hfind. destruct (IH Hfind) as (before & after & -> & Ht & Hbefore).
    exists (x :: before), after. repeat split; [done|].
    intros t' Hin. apply elem_of_cons in Hin as [->|Hin]; auto.
Qed.

Lemma find_none (test : CaptionTrack -> bool) tracks :
  List.find test tracks = None -> forall t, t ∈ tracks -> test t = false.
Proof.
  induction tracks as [|x tracks IH]; cbn; intros Hfind t Hin.
  - by apply elem_of_nil in Hin.
  - destruct (test x) eqn:Hx; [done|].
    apply elem_of_cons in Hin as [->|Hin]; auto.
Qed.

Lemma first_found_spec tests rs tracks t :
  Forall2 (fun test r => forall t, test t = true <-> satisfies r t) tests rs ->
  first_found tests tracks = Some t ->
  exists higher r lower before after,
    rs = higher ++ r :: lower /\
    tracks = before ++ t :: after /\
    satisfies r t /\
    (forall t', t' ∈ before -> ~ satisfies r t') /\
    (forall r' t', r' ∈ higher -> t' ∈ tracks -> ~ satisfies r' t').
Proof.
  intros Htests. induction Htests as [|test r tests rs Hr _ IH]; cbn; [done|].
  destruct (List.find test tracks) as [t0|] eqn:Hfind.
  - intros [= ->].
    destruct (find_first _ _ _ Hfind) as (before & after & -> & Ht & Hbefore).
    exists [], r, rs, before, after. repeat split; [by apply Hr| |].
    + intros t' Hin Hsat. apply Hr in Hsat. rewrite (Hbefore t' Hin) in Hsat. done.
    + intros r' t' Hin. by apply elem_of_nil in Hin.
  - intros Hrest.
    destruct (IH Hrest) as (higher & r0 & lower & before & after
                            & -> & -> & Hsat & Hbefore & Hhigher).
    exists (r :: higher), r0, lower, before, after. repeat split; [done..|].
    intros r' t' Hin Ht' Hsat'.
    apply elem_of_cons in Hin as [->|Hin]; [|by eapply Hhigher].
    apply Hr in Hsat'. rewrite (find_none _ _ Hfind t' Ht') in Hsat'. done.
Qed.

(** On a non-empty list the loop over the priorities always returns: its
    last test accepts the first track, so the final [return tracks[0]] is
    never reached. *)
Lemma first_found_total tracks :
  tracks <> [] -> exists t, first_found priorities tracks = Some t.
Proof.
  destruct tracks as [|x tracks]; [done|]. intros _.
  unfold priorities. cbn [first_found].
  repeat match goal with
         | |- context [List.find ?f ?l] =>
             destruct (List.find f l) eqn:?; [by eauto|]
         end.
  match goal with H : List.find (fun _ => true) _ = None |- _ => discriminate H end.
Qed.

(** C7: for a non-empty list the selected track is the first track of the
    list that satisfies the highest-priority predicate satisfied by any
    track, in the order English manual, English auto-generated,
    "en"-prefixed manual, "en"-prefixed, manual, any; for
    [fr/asr, en/asr, en/manual] it is the English manual one. *)
Theorem selectBestTrack_priority :
  (forall tracks, tracks <> [] ->
     exists t higher r lower before after,
       _selectBestTrack tracks = Some t /\
       ranks = higher ++ r :: lower /\
       tracks = before ++ t :: after /\
       satisfies r t /\
       (forall t', t' ∈ before -> ~ satisfies r t') /\
       (forall r' t', r' ∈ higher -> t' ∈ tracks -> ~ satisfies r' t')) /\
  _selectBestTrack [track "fr" "asr"; track "en" "asr"; track "en" "manual"]
  = Some (track "en" "manual").
Proof.
  split; [|reflexivity].
  intros tracks Hne.
  destruct (first_found_total tracks Hne) as [t Ht].
  destruct (first_found_spec _ _ _ _ priorities_satisfies Ht)
    as (higher & r & lower & before & after & Hr & Htr & Hsat & Hb & Hh).
  exists t, higher, r, lower, before, after.
  split; [|done].
  unfold _selectBestTrack. destruct tracks; [done|]. by rewrite Ht.
Qed.
End TrackSelection.

Lemma selectBestTrack_priority_witness :
  exists t, TranscriptFetcher._selectBestTrack [track "de" "asr"; track "en-GB" "asr"]
            = Some t /\ EnPrefixed t.
Proof.
  destruct (proj1 selectBestTrack_priority [track "de" "asr"; track "en-GB" "asr"])
    as (t & higher & r & lower & before & after & Hsel & _).
  - discriminate.
  - exists t. split; [exact Hsel|].
    injection Hsel as <-. exists (Js.str "-GB"). reflexivity.
Defined.

(** ** Transcript fetching *)

Section FetchTranscript.
Import TranscriptFetcher.
Variable _fetchViaInnertube : jsstring -> Js.result (option jsstring).
Variable _fetchFromVideoPage : jsstring -> Js.result (option jsstring).

(** C8: [fetchTranscript] always resolves to a result object, whatever
    the two methods do; when both fail the result has null text,
    [available: false] and no source; and a result with [available: true]
    carries a non-empty text. *)
Theorem fetchTranscript_never_raises videoId :
  let r := fetchTranscript _fetchViaInnertube _fetchFromVideoPage videoId in
  (method_failed (_fetchViaInnertube videoId) ->
   method_failed (_fetchFromVideoPage videoId) ->
   text r = None /\ available r = false /\ source r = None) /\
  (available r = true -> exists c s, text r = Some (c :: s)).
Proof.
  unfold fetchTranscript, method_failed.
  destruct (_fetchViaInnertube videoId) as [[[|c s]|]|e]; cbn;
    try (split; [done || (intros; discriminate)|]; eauto; done);
    destruct (_fetchFromVideoPage videoId) as [[[|c' s']|]|e']; cbn;
    (split; [done || (intros; discriminate)|]); eauto; done.
Qed.

(** The second method is tried only after the first resolved to nothing,
    and the first result that is a non-empty string names its source. *)
Lemma fetchTranscript_source videoId :
  let r := fetchTranscript _fetchViaInnertube _fetchFromVideoPage videoId in
  (source r = Some innertube <->
     exists c s, _fetchViaInnertube videoId = Js.Returned (Some (c :: s))) /\
  (source r = Some page_scrape ->
     method_failed (_fetchViaInnertube videoId) /\
     exists c s, _fetchFromVideoPage videoId = Js.Returned (Some (c :: s))).
Proof.
  unfold fetchTranscript, method_failed.
  destruct (_fetchViaInnertube videoId) as [[[|c s]|]|e]; cbn;
    try destruct (_fetchFromVideoPage videoId) as [[[|c' s']|]|e']; cbn;
    (split; [split; [discriminate || eauto|]; try (intros (? & ? & [=])); done|]);
    (discriminate || eauto).
Qed.
End FetchTranscript.

Lemma fetchTranscript_never_raises_witness :
  let r := TranscriptFetcher.fetchTranscript
             (fun _ => Js.Returned None) (fun _ => Js.Thrown failed_to_fetch)
             (Js.str "abc123") in
  TranscriptFetcher.text r = None /\ TranscriptFetcher.available r = false /\
  TranscriptFetcher.source r = None.
Proof.
  apply (proj1 (fetchTranscript_never_raises
                  (fun _ => Js.Returned None) (fun _ => Js.Thrown failed_to_fetch)
                  (Js.str "abc123"))).
  - reflexivity.
  - exact I.
Defined.

(** ** End-to-end handlers without a transcript *)

Section NoTranscript.
Import TranscriptFetcher Background.
Variable env : APIManager.Env.
Variable rejects : Storage.faults.
Variable _fetchViaInnertube : jsstring -> Js.result (option jsstring).
Variable _fetchFromVideoPage : jsstring -> Js.result (option jsstring).
Variable fetchMetadata : jsstring -> VideoMetadata.
Variable clock : Clock.

Lemma contentForAI_unavailable tr md title_ :
  available tr = false -> contentForAI tr md title_ = metadata_content md title_.
Proof.
  intros Hav. unfold contentForAI. rewrite Hav.
  by destruct (text tr) as [[|? ?]|].
Qed.

Lemma contentForAI_available tr md title_ c t :
  available tr = true -> text tr = Some (c :: t) -> contentForAI tr md title_ = c :: t.
Proof. intros Hav Htext. unfold contentForAI. by rewrite Htext, Hav. Qed.

(** The side-panel handler: with a provider configured, nothing cached
    and no transcript, every request to a provider carries the content
    built from title, channel and description. *)
Lemma generateAndShowSummary_metadata_prompt videoId title_ st r :
  checkProviderConfig env = true ->
  fst (SummaryCache.get rejects (at_get clock) videoId (area st)) = None ->
  available (fetchTranscript _fetchViaInnertube _fetchFromVideoPage videoId) = false ->
  APIManager.Fetch r
    ∈ events (generateAndShowSummary env rejects _fetchViaInnertube
                _fetchFromVideoPage fetchMetadata clock videoId title_ st) ->
  APIManager.prompt r
  = APIManager.instruction ++ metadata_content (fetchMetadata videoId) title_.
Proof.
  intros Hcfg Hmiss Hav. unfold generateAndShowSummary. rewrite Hcfg. cbn [negb].
  destruct (SummaryCache.get _ _ _ _) as [cached area1]. cbn in Hmiss. subst cached.
  rewrite contentForAI_unavailable by done.
  set (run := APIManager.generateSummary _ _ _).
  assert (APIManager.Fetch r ∈ APIManager.events run ->
          APIManager.prompt r
          = APIManager.instruction ++ metadata_content (fetchMetadata videoId) title_)
    as Hrun by apply generateSummary_prompts.
  destruct (APIManager.outcome run); cbn [events]; exact Hrun.
Qed.

(** The getSummary handler under the same conditions: every request
    carries the interpolation of the transcript result's text, which is
    null. *)
Lemma handleGetSummary_null_prompt videoId st r :
  checkProviderConfig env = true ->
  fst (SummaryCache.get rejects (at_get clock) videoId (area st)) = None ->
  available (fetchTranscript _fetchViaInnertube _fetchFromVideoPage videoId) = false ->
  APIManager.Fetch r
    ∈ events (handleGetSummary env rejects _fetchViaInnertube
                _fetchFromVideoPage fetchMetadata clock videoId st) ->
  APIManager.prompt r = APIManager.instruction ++ Js.str "null".
Proof.
  intros Hcfg Hmiss Hav. unfold handleGetSummary. rewrite Hcfg. cbn [negb].
  destruct (SummaryCache.get _ _ _ _) as [cached area1]. cbn in Hmiss. subst cached.
  assert (text (fetchTranscript _fetchViaInnertube _fetchFromVideoPage videoId) = None)
    as ->.
  { revert Hav. unfold fetchTranscript.
    destruct (_fetchViaInnertube videoId) as [[[|? ?]|]|?]; cbn; try done;
      destruct (_fetchFromVideoPage videoId) as [[[|? ?]|]|?]; cbn; done. }
  set (run := APIManager.generateSummary _ _ _).
  assert (APIManager.Fetch r ∈ APIManager.events run ->
          APIManager.prompt r = APIManager.instruction ++ Js.str "null")
    as Hrun by apply generateSummary_prompts.
  destruct (APIManager.outcome run); cbn [events]; exact Hrun.
Qed.
End NoTranscript.

(** C9 at a video without captions: [handleGetSummary] answers with a
    summary (it does not fail), but what it sent to the provider is the
    instruction followed by "null", where [generateAndShowSummary] in the
    same world sends the content built from title, channel and
    description. *)
Theorem handleGetSummary_sends_null :
  let reply := Background.handleGetSummary gemini_env Storage.reliable
                 no_captions no_captions (fun _ => some_metadata) a_clock
                 (Js.str "abc123") fresh in
  let shown := Background.generateAndShowSummary gemini_env Storage.reliable
                 no_captions no_captions (fun _ => some_metadata) a_clock
                 (Js.str "abc123") None fresh in
  Background.events reply
  = [APIManager.LogAttempt APIManager.gemini;
     APIManager.Fetch (gemini_request (Js.str "null"))] /\
  (exists data, Background.out reply = Background.Success data false APIManager.gemini /\
                Background.hasTranscript (Background.metadata data) = false) /\
  Background.events shown
  = [APIManager.LogAttempt APIManager.gemini;
     APIManager.Fetch (gemini_request
       (Js.str "VIDEO TITLE: Proofs in 100 seconds" ++ Js.nl
        ++ Js.str "CHANNEL: Chan" ++ Js.nl
        ++ Js.str "DESCRIPTION: About proofs." ++ Js.nl ++ Js.nl
        ++ Background.NOTE))].
Proof.
  split; [vm_compute; reflexivity|]. split; [|vm_compute; reflexivity].
  eexists. split; vm_compute; reflexivity.
Qed.

(** ** Structured response parser *)

Section ParserFacts.
Import Regex GeminiAPI Direct.

Lemma starts_with_ci_spec s lit :
  starts_with true s lit = true <->
  exists occ rest, s = occ ++ rest /\ map canonicalize occ = map canonicalize lit.
Proof.
  revert s. induction lit as [|a lit IH]; intros s; cbn.
  - split; [intros _; by exists [], s|done].
  - destruct s as [|b s].
    + split; [done|]. intros ([|? ?] & rest & Hs & Hocc); discriminate.
    + rewrite andb_true_iff, N.eqb_eq, IH. split.
      * intros [Hb (occ & rest & -> & Hocc)]. exists (b :: occ), rest.
        cbn. by rewrite Hb, Hocc.
      * intros ([|c occ] & rest & Hs & Hocc); [discriminate|].
        injection Hs as -> ->. injection Hocc as Hb Hocc. eauto.
Qed.

Lemma contains_ci_spec text lit :
  contains_ci text lit = true <-> occurs_ci lit text.
Proof.
  unfold occurs_ci. induction text as [|c text IH]; cbn [contains_ci].
  - rewrite orb_false_r, starts_with_ci_spec. split.
    + intros (occ & rest & Hs & Hocc). by exists [], occ, rest.
    + intros (pre & occ & post & Hs & Hocc).
      destruct pre; [|discriminate]. exists occ, post. split; [exact Hs|exact Hocc].
  - rewrite orb_true_iff, starts_with_ci_spec, IH. split.
    + intros [(occ & rest & Hs & Hocc)|(pre & occ & post & -> & Hocc)].
      * by exists [], occ, rest.
      * by exists (c :: pre), occ, post.
    + intros ([|c' pre] & occ & post & Hs & Hocc).
      * left. exists occ, post. split; [exact Hs|exact Hocc].
      * right. injection Hs as -> ->. by exists pre, occ, post.
Qed.

Lemma after_marker_contains lit text rest :
  after_marker lit text = Some rest -> contains_ci text lit = true.
Proof.
  induction text as [|c text IH]; cbn [after_marker contains_ci].
  - destruct (starts_with true [] lit); [done|discriminate].
  - destruct (starts_with true (c :: text) lit); [done|]. cbn. auto.
Qed.

Lemma after_marker_absent lit text :
  contains_ci text lit = false -> after_marker lit text = None.
Proof.
  intros Hno. destruct (after_marker lit text) eqn:Hafter; [|done].
  apply after_marker_contains in Hafter. congruence.
Qed.

Lemma match_disclaimer_contains text m :
  match_disclaimer text = Some m -> contains_ci text DISCLAIMER = true.
Proof.
  induction text as [|c text IH]; cbn [match_disclaimer contains_ci].
  - destruct (starts_with true [] DISCLAIMER); [done|discriminate].
  - destruct (starts_with true (c :: text) DISCLAIMER); [done|]. cbn. auto.
Qed.

Lemma not_occurs lit text : ~ occurs_ci lit text -> contains_ci text lit = false.
Proof.
  intros Hno. destruct (contains_ci text lit) eqn:Hc; [|done].
  by apply contains_ci_spec in Hc.
Qed.

(** C6 (as amended): the parser returns a result for every text; where
    the text has no occurrence of DISCLAIMER: (in any case, anywhere in a
    line) the disclaimer is null; where it has no occurrence of TAKEAWAYS:
    the takeaways are the empty list; where it has no occurrence of
    SUMMARY: the summary is the empty list; and there are never more than
    3 takeaways (nor more than 8 bullets). *)
Theorem parseResponse_absent_sections text hasTranscript_ :
  let r := _parseResponse text hasTranscript_ in
  (~ occurs_ci DISCLAIMER text -> disclaimer r = None) /\
  (~ occurs_ci TAKEAWAYS text -> takeaways r = []) /\
  (~ occurs_ci SUMMARY text -> summary r = []) /\
  (length (takeaways r) <= 3)%nat /\
  (length (summary r) <= 8)%nat.
Proof.
  intros r. subst r. unfold _parseResponse. cbn [disclaimer takeaways summary].
  rewrite disclaimerMatch_direct, summarySection_direct, takeawaysSection_direct.
  repeat split.
  - intros Hno%not_occurs.
    destruct (match_disclaimer text) eqn:Hm; [|done].
    apply match_disclaimer_contains in Hm. congruence.
  - intros Hno%not_occurs. unfold match_takeaways.
    by rewrite (after_marker_absent _ _ Hno).
  - intros Hno%not_occurs. unfold match_summary.
    by rewrite (after_marker_absent _ _ Hno).
  - destruct (match_takeaways text); cbn; [|lia].
    rewrite length_take. lia.
  - destruct (match_summary text); cbn; [|lia].
    rewrite length_take. lia.
Qed.

(** *** Lines of a block *)

Lemma take_drop_while f (s : jsstring) :
  s = Js.take_while f s ++ Js.drop_while f s.
Proof.
  induction s as [|c s IH]; cbn; [done|].
  destruct (f c); cbn; congruence.
Qed.

Lemma take_while_Forall f (s : jsstring) :
  Forall (fun c => f c = true) (Js.take_while f s).
Proof.
  induction s as [|c s IH]; cbn; [constructor|].
  destruct (f c) eqn:Hc; by constructor.
Qed.

Lemma take_while_stop f (pre s : jsstring) c :
  Forall (fun c => f c = true) pre -> f c = false ->
  Js.take_while f (pre ++ c :: s) = pre /\ Js.drop_while f (pre ++ c :: s) = c :: s.
Proof.
  intros Hpre Hc. induction Hpre as [|d pre Hd _ IH]; cbn.
  - by rewrite Hc.
  - rewrite Hd. destruct IH as [-> ->]. done.
Qed.

Lemma trimStart_solid (s : jsstring) : starts_solid (Js.trimStart s).
Proof.
  induction s as [|c s IH]; cbn; [done|].
  destruct (Js.is_space c) eqn:Hc; [done|]. cbn. done.
Qed.

Lemma trimStart_spaces (ws t : jsstring) :
  Forall Space ws -> starts_solid t -> Js.trimStart (ws ++ t) = t.
Proof.
  intros Hws Ht. induction Hws as [|w ws Hw _ IH]; cbn.
  - destruct t as [|c t]; [done|]. cbn in Ht |- *. by rewrite Ht.
  - unfold Space in Hw. by rewrite Hw.
Qed.

Lemma is_bullet_glyph_Glyph g : is_bullet_glyph g = true <-> Glyph g.
Proof.
  unfold is_bullet_glyph, Glyph.
  rewrite !orb_true_iff, !N.eqb_eq. tauto.
Qed.

Lemma bullet_test_spec l : bullet_test l = true <-> BulletLine l.
Proof.
  unfold BulletLine. destruct l as [|g [|w rest]]; cbn.
  - split; [done|]. intros (? & ? & ? & ? & _); discriminate.
  - split; [done|]. intros (? & ? & ? & ? & _); discriminate.
  - rewrite andb_true_iff, is_bullet_glyph_Glyph. split.
    + intros [Hg Hw]. by exists g, w, rest.
    + intros (g' & w' & rest' & [= -> -> ->] & Hg & Hw). done.
Qed.

Lemma bullet_replace_spec l :
  bullet_test l = true -> unbulleted l (bullet_replace l).
Proof.
  destruct l as [|g [|w rest]]; cbn; try discriminate.
  intros Htest. rewrite Htest.
  apply andb_true_iff in Htest as [Hg%is_bullet_glyph_Glyph Hw].
  exists g, (w :: Js.take_while Js.is_space rest).
  split; [|split; [done|split; [done|split]]].
  - cbn. rewrite trimStart_drop_while. do 2 f_equal. apply take_drop_while.
  - constructor; [done|]. apply take_while_Forall.
  - apply trimStart_solid.
Qed.

(** The stripped form of a bullet line is determined by the line. *)
Lemma unbulleted_functional l t t' : unbulleted l t -> unbulleted l t' -> t = t'.
Proof.
  intros (g & ws & -> & _ & _ & Hws & Ht) (g' & ws' & Heq & _ & _ & Hws' & Ht').
  injection Heq as _ Heq.
  rewrite <- (trimStart_spaces ws t Hws Ht), Heq.
  by apply trimStart_spaces.
Qed.

Lemma numeral_test_spec l : numeral_test l = true <-> NumberedLine l.
Proof.
  unfold numeral_test, NumberedLine. split.
  - pose proof (take_drop_while Js.is_digit l) as Hl.
    pose proof (take_while_Forall Js.is_digit l) as Hds.
    destruct (Js.take_while Js.is_digit l) as [|d ds]; [done|].
    destruct (Js.drop_while Js.is_digit l) as [|c rest]; [done|].
    intros ->%N.eqb_eq. by exists (d :: ds), rest.
  - intros (ds & rest & -> & Hne & Hds).
    destruct (take_while_stop Js.is_digit ds rest 46%N) as [-> ->]; [done..|].
    destruct ds; done.
Qed.

Lemma numeral_replace_spec l : unnumbered l (numeral_replace l).
Proof.
  intros ds ws rest -> Hne Hds Hwne Hws Hrest. unfold numeral_replace.
  destruct (take_while_stop Js.is_digit ds (ws ++ rest) 46%N) as [-> ->]; [done..|].
  destruct ds as [|d ds]; [done|].
  destruct ws as [|w ws]; [done|]. cbn [app].
  apply Forall_cons in Hws as [Hw Hws]. unfold Space in Hw. rewrite Hw. cbn.
  by apply trimStart_spaces.
Qed.

(** [Array.prototype.filter] with a test that decides [P] keeps the lines
    that satisfy [P], in their order. *)
Lemma filter_surviving (P : jsstring -> Prop) (test : jsstring -> bool)
    (ls : list jsstring) :
  (forall l, test l = true <-> P l) ->
  surviving P ls (List.filter test ls).
Proof.
  intros Hspec. induction ls as [|l ls IH]; cbn [List.filter]; [constructor|].
  destruct (test l) eqn:Htest.
  - apply surviving_keep; [by apply Hspec|done].
  - apply surviving_drop; [|done]. intros HP%Hspec. congruence.
Qed.

(** What survives is determined by the lines. *)
Lemma surviving_unique (P : jsstring -> Prop) ls kept kept' :
  surviving P ls kept -> surviving P ls kept' -> kept = kept'.
Proof.
  intros H. revert kept'. induction H; intros kept' H'; inversion H'; subst;
    try done; f_equal; auto.
Qed.

Lemma Forall2_take_map {A B} (R : A -> B -> Prop) (f : A -> B) n (ls : list A) :
  Forall (fun x => R x (f x)) ls ->
  Forall2 R (take n ls) (take n (map f ls)).
Proof.
  intros Hall. revert n. induction Hall as [|x ls Hx _ IH]; intros [|n]; cbn;
    constructor; auto.
Qed.

(** C5 (as amended): the lines of the summary block are trimmed; those
    that then begin with a bullet glyph followed by white space are kept,
    and the summary is the first 8 of them, in order, each without its
    glyph and the white space after it.  The lines of the takeaways block
    are trimmed; those that then begin with digits followed by a full stop
    are kept, and the takeaways are the first 3 of them, in order, those
    whose full stop is followed by white space without their numeral
    prefix. *)
Theorem parseResponse_bullets_and_takeaways text hasTranscript_ :
  let r := _parseResponse text hasTranscript_ in
  (forall block, summarySection text = Some block ->
     exists kept,
       surviving BulletLine (map Js.trim (Js.split_lines block)) kept /\
       Forall2 unbulleted (take 8 kept) (summary r)) /\
  (forall block, takeawaysSection text = Some block ->
     exists kept,
       surviving NumberedLine (map Js.trim (Js.split_lines block)) kept /\
       Forall2 unnumbered (take 3 kept) (takeaways r)).
Proof.
  intros r. subst r. unfold _parseResponse. cbn [summary takeaways]. split.
  - intros block ->. eexists. split.
    + apply (filter_surviving BulletLine (test false re_bullet)).
      intros l. rewrite test_bullet. apply bullet_test_spec.
    + apply Forall2_take_map. apply List.Forall_forall.
      intros l [_ Hl]%List.filter_In. rewrite test_bullet in Hl.
      rewrite remove_bullet_prefix. by apply bullet_replace_spec.
  - intros block ->. eexists. split.
    + apply (filter_surviving NumberedLine (test false re_numeral)).
      intros l. rewrite test_numeral. apply numeral_test_spec.
    + apply Forall2_take_map. apply List.Forall_forall.
      intros l _. rewrite remove_numeral_prefix. apply numeral_replace_spec.
Qed.

(** *** Where the blocks are *)

Lemma after_marker_spec lit text rest :
  after_marker lit text = Some rest ->
  exists pre occ,
    text = pre ++ occ ++ rest /\
    map canonicalize occ = map canonicalize lit /\
    forall k, (k < length pre)%nat -> starts_with true (drop k text) lit = false.
Proof.
  revert rest. induction text as [|c text IH]; intros rest; cbn [after_marker].
  - destruct (starts_with true [] lit) eqn:Hstart; [|discriminate].
    intros [= <-]. apply starts_with_ci_spec in Hstart as (occ & rest & Hs & Hocc).
    exists [], occ. split; [|split; [done|cbn; lia]].
    destruct occ; [|discriminate]. destruct lit; [|discriminate]. done.
  - destruct (starts_with true (c :: text) lit) eqn:Hstart.
    + intros [= <-].
      pose proof Hstart as (occ & rest & Hs & Hocc)%starts_with_ci_spec.
      exists [], occ. split; [|split; [done|cbn; lia]].
      cbn [app]. rewrite Hs at 1. f_equal.
      assert (length lit = length occ) as ->.
      { rewrite <- (length_map canonicalize lit), <- Hocc. apply length_map. }
      rewrite Hs. by rewrite drop_app_length.
    + intros Hrest. destruct (IH rest Hrest) as (pre & occ & -> & Hocc & Hleft).
      exists (c :: pre), occ. split; [done|]. split; [done|].
      intros [|k] Hk; [exact Hstart|]. cbn in Hk |- *. apply Hleft. lia.
Qed.

Lemma until_takeaways_spec s :
  exists stop,
    s = until_takeaways s ++ stop /\
    (stop = [] \/ starts_with true stop TAKEAWAYS = true) /\
    forall k, (k < length (until_takeaways s))%nat ->
              starts_with true (drop k s) TAKEAWAYS = false.
Proof.
  induction s as [|c s (stop & Hs & Hstop & Hbefore)]; cbn [until_takeaways].
  - exists []. split; [done|]. split; [by left|]. cbn. lia.
  - destruct (starts_with true (c :: s) TAKEAWAYS) eqn:Hstart.
    + exists (c :: s). split; [done|]. split; [by right|]. cbn. lia.
    + exists stop. split; [cbn; congruence|]. split; [done|].
      intros [|k] Hk; [exact Hstart|]. cbn in Hk |- *. apply Hbefore. lia.
Qed.

Lemma trimStart_split (s : jsstring) :
  exists ws, s = ws ++ Js.trimStart s /\ Forall Space ws.
Proof.
  exists (Js.take_while Js.is_space s). split.
  - rewrite trimStart_drop_while. apply take_drop_while.
  - apply take_while_Forall.
Qed.

(** The summary block starts after the leftmost SUMMARY: and the white
    space that follows it, and ends before the next TAKEAWAYS: or at the
    end of the text. *)
Lemma summarySection_block text block :
  summarySection text = Some block ->
  exists stop,
    block_after SUMMARY text block stop /\
    (stop = [] \/ starts_with true stop TAKEAWAYS = true) /\
    forall k, (k < length block)%nat ->
              starts_with true (drop k (block ++ stop)) TAKEAWAYS = false.
Proof.
  rewrite summarySection_direct.
  unfold match_summary. destruct (after_marker SUMMARY text) as [rest|] eqn:Hafter;
    [|discriminate].
  intros [= <-].
  destruct (after_marker_spec _ _ _ Hafter) as (pre & occ & Htext & Hocc & Hleft).
  destruct (trimStart_split rest) as (ws & Hrest & Hws).
  destruct (until_takeaways_spec (Js.trimStart rest)) as (stop & Hs & Hstop & Hbefore).
  exists stop. split; [|split; [done|]].
  - exists pre, occ, ws. split; [|split; [done|split; [done|split; [done|]]]].
    + rewrite Htext. rewrite Hrest at 1. by rewrite Hs at 1.
    + rewrite <- Hs. apply trimStart_solid.
  - intros k Hk. rewrite <- Hs. by apply Hbefore.
Qed.

(** The takeaways block starts after the leftmost TAKEAWAYS: and the white
    space that follows it, and runs to the end of the text. *)
Lemma takeawaysSection_block text block :
  takeawaysSection text = Some block -> block_after TAKEAWAYS text block [].
Proof.
  rewrite takeawaysSection_direct.
  unfold match_takeaways. destruct (after_marker TAKEAWAYS text) as [rest|] eqn:Hafter;
    [|discriminate].
  intros [= <-].
  destruct (after_marker_spec _ _ _ Hafter) as (pre & occ & Htext & Hocc & Hleft).
  destruct (trimStart_split rest) as (ws & Hrest & Hws).
  exists pre, occ, ws. rewrite app_nil_r.
  split; [|split; [done|split; [done|split; [done|]]]].
  - rewrite Htext. by rewrite Hrest at 1.
  - apply trimStart_solid.
Qed.
End ParserFacts.

(** C6 (as stated) fails: no line of this text begins with DISCLAIMER:,
    not even after trimming, and the disclaimer is not null. *)
Lemma parseResponse_disclaimer_mid_line :
  let text := Js.str "Note - DISCLAIMER: based on the title only" in
  Forall (fun line => Regex.starts_with true (Js.trim line) GeminiAPI.DISCLAIMER = false)
         (Js.split_lines text) /\
  GeminiAPI.disclaimer (GeminiAPI._parseResponse text false)
  = Some (Js.str "based on the title only").
Proof. split; [repeat constructor|vm_compute; reflexivity]. Qed.

Lemma parseResponse_absent_sections_witness :
  let r := GeminiAPI._parseResponse (Js.str "The model said nothing useful.") true in
  GeminiAPI.disclaimer r = None /\ GeminiAPI.takeaways r = [] /\ GeminiAPI.summary r = [].
Proof.
  pose proof (parseResponse_absent_sections
                (Js.str "The model said nothing useful.") true)
    as (Hd & Ht & Hs & _).
  split; [|split].
  - apply Hd. intros Hocc%contains_ci_spec. vm_compute in Hocc. discriminate.
  - apply Ht. intros Hocc%contains_ci_spec. vm_compute in Hocc. discriminate.
  - apply Hs. intros Hocc%contains_ci_spec. vm_compute in Hocc. discriminate.
Defined.

(** C5 (as stated) fails: the second line of this summary block begins
    with two spaces, not with a bullet glyph, and it is kept; and the
    first takeaway keeps its numeral. *)
Lemma parseResponse_keeps_indented_bullet :
  let text := lines ["SUMMARY:"; "- first"; "  - indented";
                     "TAKEAWAYS:"; "1.one"; "2. two"]%string in
  let r := GeminiAPI._parseResponse text true in
  exists block,
    GeminiAPI.summarySection text = Some block /\
    Js.split_lines block = [Js.str "- first"; Js.str "  - indented"; []] /\
    ~ BulletLine (Js.str "  - indented") /\
    GeminiAPI.summary r = [Js.str "first"; Js.str "indented"] /\
    GeminiAPI.takeaways r = [Js.str "1.one"; Js.str "two"].
Proof.
  eexists. split; [vm_compute; reflexivity|]. split; [vm_compute; reflexivity|].
  split; [|split; vm_compute; reflexivity].
  intros H%bullet_test_spec. vm_compute in H. discriminate.
Qed.

Lemma parseResponse_bullets_and_takeaways_witness :
  let text := lines ["SUMMARY:"; "- first"; "* second"; "not a bullet"; "";
                     "TAKEAWAYS:"; "1. one"; "2.  two"]%string in
  let r := GeminiAPI._parseResponse text true in
  Forall2 unbulleted [Js.str "- first"; Js.str "* second"] (GeminiAPI.summary r) /\
  Forall2 unnumbered [Js.str "1. one"; Js.str "2.  two"] (GeminiAPI.takeaways r).
Proof.
  intros text r.
  destruct (parseResponse_bullets_and_takeaways text true) as [Hs Ht]. split.
  - destruct (Hs _ eq_refl) as (kept & Hsurv & Hkept).
    rewrite (surviving_unique _ _ _ _ Hsurv
               (filter_surviving BulletLine Direct.bullet_test _ bullet_test_spec))
      in Hkept.
    exact Hkept.
  - destruct (Ht _ eq_refl) as (kept & Hsurv & Hkept).
    rewrite (surviving_unique _ _ _ _ Hsurv
               (filter_surviving NumberedLine Direct.numeral_test _ numeral_test_spec))
      in Hkept.
    exact Hkept.
Defined.

(** The boundary cases of the specification: ten bullets give the first
    eight, five numbered lines the first three. *)
Example parseResponse_caps :
  let r := GeminiAPI._parseResponse
             (lines ["SUMMARY:"; "- b1"; "- b2"; "- b3"; "- b4"; "- b5"; "- b6";
                     "- b7"; "- b8"; "- b9"; "- b10";
                     "TAKEAWAYS:"; "1. t1"; "2. t2"; "3. t3"; "4. t4"; "5. t5"]%string)
             true in
  GeminiAPI.summary r
  = map Js.str ["b1"; "b2"; "b3"; "b4"; "b5"; "b6"; "b7"; "b8"]%string /\
  GeminiAPI.takeaways r = map Js.str ["t1"; "t2"; "t3"]%string.
Proof. split; vm_compute; reflexivity. Qed.

(** A numbered line whose full stop is not followed by white space passes
    the filter and keeps its numeral: the replace pattern asks for the
    white space that the filter pattern does not. *)
Example parseResponse_numeral_without_space :
  GeminiAPI.takeaways
    (GeminiAPI._parseResponse (lines ["TAKEAWAYS:"; "1.first"; "2. second"]%string) true)
  = [Js.str "1.first"; Js.str "second"].
Proof. vm_compute. reflexivity. Qed.

(* ===================================================================== *)
(** * Further properties of the code                                      *)
(* ===================================================================== *)

(** ** Summary cache: clearing, statistics, independence of videos *)

Lemma filter_none {A} (f : A -> bool) (l : list A) :
  (forall x, In x l -> f x = false) -> List.filter f l = [].
Proof.
  induction l as [|x l IH]; [done|]. intros H. cbn [List.filter].
  rewrite (H x) by (by left). apply IH. intros y Hy. apply H. by right.
Qed.

Section CacheOperations.
Import SummaryCache.
Context {Data : Type}.
Implicit Types area : gmap jsstring (CacheEntry Data).

Lemma owned_keys_spec area k :
  k ∈ List.filter owned (map fst (map_to_list area))
  <-> owned k = true /\ is_Some (area !! k).
Proof.
  rewrite list_elem_of_In, List.filter_In, List.in_map_iff. split.
  - intros [([k' e] & Hk & Hin) Ho]. cbn in Hk. subst k'. split; [done|].
    exists e. by apply elem_of_map_to_list, list_elem_of_In.
  - intros [Ho [e He]]. split; [|done]. exists (k, e). split; [done|].
    by apply list_elem_of_In, elem_of_map_to_list.
Qed.

Lemma owned_count (items : list (jsstring * CacheEntry Data)) :
  length (List.filter owned (map fst items))
  = length (map snd (List.filter (fun kv => owned (fst kv)) items)).
Proof.
  induction items as [|[k e] items IH]; [done|]. cbn [map List.filter fst].
  destruct (owned k); cbn [length map]; by rewrite IH.
Qed.

Lemma clear_lookup area k :
  snd (clear Storage.reliable area) !! k = if owned k then None else area !! k.
Proof.
  unfold clear, Storage.get_all, Storage.remove_all, Storage.reliable.
  pose proof (owned_keys_spec area k) as Hspec.
  destruct (List.filter owned (map fst (map_to_list area))) as [|k0 keys] eqn:Hkeys;
    cbn [snd].
  - destruct (owned k) eqn:Ho; [|done].
    destruct (area !! k) as [e|] eqn:He; [|done].
    exfalso. eapply not_elem_of_nil, Hspec. by eauto.
  - rewrite lookup_foldr_delete.
    destruct (bool_decide (k ∈ k0 :: keys)) eqn:Hin.
    + apply bool_decide_eq_true, Hspec in Hin as [-> _]. done.
    + apply bool_decide_eq_false in Hin.
      destruct (owned k) eqn:Ho; [|done].
      destruct (area !! k) as [e|] eqn:He; [|done].
      exfalso. apply Hin, Hspec. by eauto.
Qed.

(** X1 (cache.js, clear): on a storage layer that answers, [clear]
    removes every key that starts with the cache prefix and leaves every
    other key of the storage area as it was. *)
Theorem clear_removes_namespace area k :
  snd (clear Storage.reliable area) !! k
  = if Js.startsWith k CACHE_PREFIX then None else area !! k.
Proof. apply clear_lookup. Qed.

(** X2 (cache.js, clear and getStats): the number [clear] returns is the
    total [getStats] reported before it; the valid and expired counts of
    [getStats] add up to its total; and after [clear], [getStats] reports
    nothing at all. *)
Theorem clear_count_is_stats_total now later area :
  let before := getStats Storage.reliable now area in
  let '(cleared, area') := clear Storage.reliable area in
  cleared = total before /\
  (valid before + expired before)%nat = total before /\
  getStats Storage.reliable later area' = {| total := 0; valid := 0; expired := 0 |}.
Proof.
  cbn zeta.
  destruct (clear Storage.reliable area) as [cleared area'] eqn:Hclear.
  split; [|split].
  - revert Hclear.
    unfold clear, getStats, Storage.get_all, Storage.remove_all, Storage.reliable.
    cbn [total]. rewrite <- owned_count.
    destruct (List.filter owned (map fst (map_to_list area))); by intros [= <- _].
  - unfold getStats, Storage.get_all, Storage.reliable. cbn [total valid expired].
    set (items := map snd _).
    pose proof (List.filter_length_le (unexpired now) items). lia.
  - assert (forall k, area' !! k = if owned k then None else area !! k) as Hlook.
    { intros k. rewrite <- clear_lookup. by rewrite Hclear. }
    unfold getStats, Storage.get_all, Storage.reliable.
    rewrite filter_none; [done|].
    intros [k e] Hin%list_elem_of_In%elem_of_map_to_list. cbn [fst].
    rewrite Hlook in Hin. by destruct (owned k).
Qed.

(** X3 (cache.js, set and delete): writing or deleting the entry of one
    video changes nothing about what [get] answers for another video,
    whether or not the storage layer rejects calls. *)
Theorem cache_videos_independent rejects now now' later videoId other d ttl area :
  other <> videoId ->
  fst (get rejects later other (set rejects now now' videoId d ttl area))
  = fst (get rejects later other area) /\
  fst (get rejects later other (SummaryCache.delete rejects videoId area))
  = fst (get rejects later other area).
Proof.
  intros Hne.
  assert (CACHE_PREFIX ++ other <> CACHE_PREFIX ++ videoId) as Hkey
    by (intros H%cache_key_inj; done).
  unfold get, set, SummaryCache.delete, Storage.get, Storage.set, Storage.remove.
  destruct (rejects (Storage.CallGet _)); [done|].
  split.
  - destruct (rejects (Storage.CallSet _)); [done|].
    rewrite lookup_insert_ne by done.
    destruct (area !! _) as [e|]; [|done]. by destruct (_ && _).
  - destruct (rejects (Storage.CallRemove (CACHE_PREFIX ++ videoId))); [done|].
    rewrite lookup_delete_ne by done.
    destruct (area !! _) as [e|]; [|done]. by destruct (_ && _).
Qed.
End CacheOperations.

Lemma cache_videos_independent_witness :
  let area := SummaryCache.set_default Storage.reliable 1700000000000 1700000000000
                (Js.str "abc123") (Js.str "a summary") ∅ in
  fst (SummaryCache.get Storage.reliable 1700000000001 (Js.str "abc123")
         (SummaryCache.set Storage.reliable 1700000000000 1700000000000
            (Js.str "xyz789") (Js.str "another") 1 area))
  = fst (SummaryCache.get Storage.reliable 1700000000001 (Js.str "abc123") area) /\
  fst (SummaryCache.get Storage.reliable 1700000000001 (Js.str "abc123")
         (SummaryCache.delete Storage.reliable (Js.str "xyz789") area))
  = fst (SummaryCache.get Storage.reliable 1700000000001 (Js.str "abc123") area).
Proof.
  intros area.
  apply (cache_videos_independent Storage.reliable 1700000000000 1700000000000
           1700000000001 (Js.str "xyz789") (Js.str "abc123") (Js.str "another") 1 area).
  discriminate.
Defined.

(** ** End-to-end handlers: cache hits, failures, storage faults *)

Section Pipeline.
Import TranscriptFetcher Background.
Variable env : APIManager.Env.
Variables viaInnertube fromPage : jsstring -> Js.result (option jsstring).
Variable fetchMetadata : jsstring -> VideoMetadata.
Variable clock : Clock.



(** A freshly generated reply leaves its data in the cache. *)
Lemma fresh_reply_cached rejects videoId st data p :
  let first := handleGetSummary env rejects viaInnertube fromPage
                 fetchMetadata clock videoId st in
  out first = Success data false p ->
  provider data = p /\
  exists area1,
    area (state first)
    = SummaryCache.set_default rejects (at_set clock) (at_stamp clock)
        videoId data area1.
Proof.
  cbn zeta. unfold handleGetSummary.
  destruct (checkProviderConfig env); cbn [negb]; [|discriminate].
  destruct (SummaryCache.get rejects (at_get clock) videoId (area st))
    as [[cached|] area1]; [discriminate|].
  destruct (APIManager.outcome _) as [r|error]; [|discriminate].
  cbn [out state area]. intros [= <- <-]. split; [done|]. by exists area1.
Qed.

(** What [cache.get] answers for an entry written with the default TTL. *)
Lemma get_after_set_default (later now now' : Z) (videoId : jsstring) (data : SummaryResult) area1 :
  later <= now + 168 * 60 * 60 * 1000 ->
  let stored := SummaryCache.set_default Storage.reliable now now' videoId data area1 in
  SummaryCache.get Storage.reliable later videoId stored = (Some data, stored).
Proof.
  intros Hlater stored. subst stored.
  unfold SummaryCache.set_default, SummaryCache.DEFAULT_TTL_HOURS.
  rewrite set_reliable.
  rewrite (get_stored _ _ _ _ _ eq_refl (lookup_insert_eq _ _ _)).
  cbn [SummaryCache.expiresAt SummaryCache.data].
  assert ((now + 168 * 60 * 60 * 1000 <? later) = false) as -> by lia.
  by rewrite andb_false_r.
Qed.

(** X4 (background.js, handleGetSummary and generateAndShowSummary; cache.js):
    once [handleGetSummary] has answered with a freshly generated summary,
    a second request for the same video within the seven days of the
    default TTL is answered from the cache with the same data, marked
    [fromCache: true] and tagged with the same provider, without any
    provider being called and whatever the transcript methods would now
    say; and the side panel handler shows that same summary, marked as
    cached. *)
Theorem second_request_served_from_cache
    viaInnertube' fromPage' fetchMetadata' clock' videoId title_ st data p :
  let first := handleGetSummary env Storage.reliable viaInnertube fromPage
                 fetchMetadata clock videoId st in
  out first = Success data false p ->
  at_get clock' <= at_set clock + 168 * 60 * 60 * 1000 ->
  let second := handleGetSummary env Storage.reliable viaInnertube' fromPage'
                  fetchMetadata' clock' videoId (state first) in
  let shown := generateAndShowSummary env Storage.reliable viaInnertube' fromPage'
                 fetchMetadata' clock' videoId title_ (state first) in
  out second = Success data true p /\
  events second = [] /\
  state second = state first /\
  out shown = [showSummary {| summary := summary data; provider := p;
                              metadata := metadata data; fromCache := Some true |}] /\
  events shown = [].
Proof.
  intros first Hout Hlater.
  assert (checkProviderConfig env = true) as Hcfg.
  { revert Hout. subst first. unfold handleGetSummary.
    by destruct (checkProviderConfig env). }
  destruct (fresh_reply_cached _ _ _ _ _ Hout) as [<- [area1 Harea]].
  fold first in Harea. clearbody first. destruct (state first) as [area_ current_].
  cbn [area] in Harea. subst area_.
  cbn zeta. unfold handleGetSummary, generateAndShowSummary.
  rewrite Hcfg. cbn [negb area current].
  by rewrite get_after_set_default.
Qed.


(** X6 (background.js, handleGetSummary and generateAndShowSummary): when
    the transcript fetch finds a transcript, the two handlers run the
    same provider cascade, and every request carries the instruction
    followed by that transcript. *)
Theorem handlers_agree_with_transcript rejects videoId title_ st c t :
  let tr := fetchTranscript viaInnertube fromPage videoId in
  text tr = Some (c :: t) ->
  let reply := handleGetSummary env rejects viaInnertube fromPage
                 fetchMetadata clock videoId st in
  let shown := generateAndShowSummary env rejects viaInnertube fromPage
                 fetchMetadata clock videoId title_ st in
  events reply = events shown /\
  forall r, APIManager.Fetch r ∈ events reply ->
            APIManager.prompt r = APIManager.instruction ++ c :: t.
Proof.
  intros tr Htext reply shown. subst reply shown.
  assert (available tr = true) as Hav.
  { revert Htext. subst tr. unfold fetchTranscript.
    destruct (viaInnertube videoId) as [[[|? ?]|]|?]; cbn; try done;
      destruct (fromPage videoId) as [[[|? ?]|]|?]; cbn; done. }
  unfold handleGetSummary, generateAndShowSummary.
  destruct (checkProviderConfig env); cbn [negb];
    [|split; [done|]; by intros r Hin%elem_of_nil].
  destruct (SummaryCache.get rejects (at_get clock) videoId (area st))
    as [[cached|] area1]; [split; [done|]; by intros r Hin%elem_of_nil|].
  fold tr. rewrite (contentForAI_available tr _ _ c t Hav Htext), Htext.
  set (run := APIManager.generateSummary _ _ _).
  assert (forall r, APIManager.Fetch r ∈ APIManager.events run ->
                    APIManager.prompt r = APIManager.instruction ++ c :: t)
    as Hrun by (intros r; apply generateSummary_prompts).
  destruct (APIManager.outcome run); cbn [events]; by split.
Qed.

(** X7 (background.js, handleGetSummary; cache.js): a storage layer that
    rejects every call does not get in the way.  With a provider
    configured, [handleGetSummary] runs the cascade and answers with its
    outcome, never marked as cached, and the storage area is as it was. *)
Theorem storage_failure_does_not_block videoId st :
  checkProviderConfig env = true ->
  let run := handleGetSummary env broken_storage viaInnertube fromPage
               fetchMetadata clock videoId st in
  let generated :=
    APIManager.generateSummary env
      (text (fetchTranscript viaInnertube fromPage videoId)) (current st) in
  area (state run) = area st /\
  events run = APIManager.events generated /\
  match APIManager.outcome generated with
  | Js.Returned r =>
      exists data, out run = Success data false (APIManager.provider r) /\
                   summary data = APIManager.summary r
  | Js.Thrown error => out run = Failure (Js.message error)
  end.
Proof.
  intros Hcfg run generated. subst run generated.
  unfold handleGetSummary. rewrite Hcfg. cbn [negb].
  rewrite get_rejected by done.
  destruct (APIManager.outcome _) as [r|error]; cbn [out state events area].
  - unfold SummaryCache.set_default. rewrite set_rejected by done. eauto.
  - done.
Qed.
End Pipeline.

Lemma second_request_served_from_cache_witness :
  let first := Background.handleGetSummary gemini_env Storage.reliable
                 (captions "words") no_captions (fun _ => some_metadata) a_clock
                 (Js.str "abc123") fresh in
  let second := Background.handleGetSummary gemini_env Storage.reliable
                  no_captions no_captions (fun _ => some_metadata) a_clock
                  (Js.str "abc123") (Background.state first) in
  Background.events second = [] /\ Background.state second = Background.state first.
Proof.
  intros first second.
  edestruct (second_request_served_from_cache gemini_env (captions "words")
               no_captions (fun _ => some_metadata) a_clock
               no_captions no_captions (fun _ => some_metadata) a_clock
               (Js.str "abc123") None fresh) as (_ & Hev & Hst & _).
  - vm_compute. reflexivity.
  - cbn. lia.
  - split; [exact Hev|exact Hst].
Defined.


Lemma handlers_agree_with_transcript_witness :
  Background.events
    (Background.handleGetSummary gemini_env Storage.reliable (captions "words")
       no_captions (fun _ => some_metadata) a_clock (Js.str "abc123") fresh)
  = Background.events
      (Background.generateAndShowSummary gemini_env Storage.reliable (captions "words")
         no_captions (fun _ => some_metadata) a_clock (Js.str "abc123") None fresh).
Proof.
  edestruct (handlers_agree_with_transcript gemini_env (captions "words") no_captions
               (fun _ => some_metadata) a_clock Storage.reliable (Js.str "abc123")
               None fresh) as [Hev _].
  - vm_compute. reflexivity.
  - exact Hev.
Defined.

Lemma storage_failure_does_not_block_witness :
  Background.area
    (Background.state
       (Background.handleGetSummary gemini_env broken_storage (captions "words")
          no_captions (fun _ => some_metadata) a_clock (Js.str "abc123") fresh))
  = ∅.
Proof.
  apply (storage_failure_does_not_block gemini_env (captions "words") no_captions
           (fun _ => some_metadata) a_clock (Js.str "abc123") fresh).
  reflexivity.
Defined.

(** ** Providers: what a call returns and how it fails *)

Lemma trimEnd_split (s : jsstring) :
  exists ws, s = Js.trimEnd s ++ ws /\ Forall Space ws.
Proof.
  unfold Js.trimEnd.
  exists (rev (Js.take_while Js.is_space (rev s))). split.
  - rewrite <- rev_app_distr, trimStart_drop_while, <- take_drop_while.
    by rewrite rev_involutive.
  - apply Forall_rev, take_while_Forall.
Qed.

Lemma trimStart_id (s : jsstring) : starts_solid s -> Js.trimStart s = s.
Proof. destruct s as [|c s]; [done|]. cbn. by intros ->. Qed.

Lemma trimEnd_solid (s : jsstring) : starts_solid s -> starts_solid (Js.trimEnd s).
Proof.
  intros Hs. destruct (trimEnd_split s) as (ws & Heq & Hws).
  destruct (Js.trimEnd s) as [|d t] eqn:Ht; [done|].
  rewrite Heq in Hs. exact Hs.
Qed.

Lemma trimStart_trimStart (s : jsstring) : Js.trimStart (Js.trimStart s) = Js.trimStart s.
Proof. apply trimStart_id, trimStart_solid. Qed.

Lemma trimEnd_trimEnd (s : jsstring) : Js.trimEnd (Js.trimEnd s) = Js.trimEnd s.
Proof. unfold Js.trimEnd. by rewrite rev_involutive, trimStart_trimStart. Qed.

(** [trim] is idempotent. *)
Lemma trim_trimmed (s : jsstring) : trimmed (Js.trim s).
Proof.
  unfold trimmed, Js.trim.
  rewrite (trimStart_id (Js.trimEnd (Js.trimStart s)))
    by apply trimEnd_solid, trimStart_solid.
  apply trimEnd_trimEnd.
Qed.



Lemma startsWith_guard (m rest F : jsstring) q :
  ~ In q F -> Js.startsWith (m ++ q :: rest) F = true -> Js.startsWith m F = true.
Proof.
  revert m. induction F as [|a F IH]; intros m Hq; [done|].
  destruct m as [|b m]; cbn.
  - intros [Haq _]%andb_true_iff. apply N.eqb_eq in Haq. subst a.
    exfalso. apply Hq. by left.
  - intros [Hab H]%andb_true_iff. rewrite Hab. cbn.
    apply IH; [|done]. intros Hin. apply Hq. by right.
Qed.




Section ProviderFacts.
Import APIManager.
Variable env : Env.
Variable transcript : option jsstring.














End ProviderFacts.



(** ** Provider self-test *)

Section SelfTest.
Import APIManager ProviderTest.
Variable env : Env.


End SelfTest.

(** ** Video ids *)

Section VideoIds.
Import Regex VideoId DirectId.

Lemma starts_with_plain (s l : jsstring) : starts_with false s l = Js.startsWith s l.
Proof.
  revert s. induction l as [|a l IH]; intros [|b s]; cbn; try done.
  by rewrite IH, N.eqb_sym.
Qed.

Lemma startsWith_app (s l : jsstring) :
  Js.startsWith s l = true -> exists s', s = l ++ s'.
Proof.
  revert s. induction l as [|a l IH]; intros s; [by exists s|].
  destruct s as [|b s]; cbn; [done|].
  intros [->%N.eqb_eq [s' ->]%IH]%andb_true_iff. by exists s'.
Qed.

Lemma includes_false_cons (c : N) (s l : jsstring) :
  Js.includes (c :: s) l = false ->
  Js.startsWith (c :: s) l = false /\ Js.includes s l = false.
Proof. cbn [Js.includes]. by intros [? ?]%orb_false_iff. Qed.

Lemma includes_false_head (s l : jsstring) :
  Js.includes s l = false -> Js.startsWith s l = false.
Proof. destruct s; cbn [Js.includes]; by intros [? ?]%orb_false_iff. Qed.

(** [([^...]+)] in front of the end of the pattern *)
Lemma m_plus_group ic p b s :
  m ic (Group (Seq (Class p) (Star true p))) b s None accept
  = match run_of p s with
    | Some run => Some (Some run, Js.drop_while p s)
    | None => None
    end.
Proof.
  unfold run_of. cbn [m]. destruct s as [|c s]; [done|]. cbn [Js.take_while Js.drop_while].
  destruct (p c); [|done].
  rewrite (star_greedy_total p _
             (fun t => (Some (take (length (c :: s) - length t) (c :: s)), t)))
    by done.
  f_equal. f_equal. f_equal.
  rewrite (take_drop_while p s) at 1 3.
  apply (take_suffix (c :: Js.take_while p s)).
Qed.

Lemma m_seq {R} ic a r b s cap (k : bool -> jsstring -> option jsstring -> option R) :
  m ic (Seq a r) b s cap k
  = m ic a b s cap (fun b' s' cap' => m ic r b' s' cap' k).
Proof. reflexivity. Qed.

Lemma m_class {R} ic p b c s cap (k : bool -> jsstring -> option jsstring -> option R) :
  m ic (Class p) b (c :: s) cap k = if p c then k false s cap else None.
Proof. reflexivity. Qed.

Lemma m_watch b s :
  option_map fst (m false re_watch b s None accept) = option_map Some (watch_at s).
Proof.
  unfold re_watch, watch_at. rewrite m_seq.
  destruct s as [|c s]; [done|]. rewrite m_class.
  destruct (is_query_mark c); [|done]. cbn [andb].
  rewrite m_seq, m_lit. destruct (starts_with false s (Js.str "v=")); [|done].
  rewrite m_plus_group. change (length (Js.str "v=")) with 2%nat.
  by destruct (run_of _ _).
Qed.

Lemma m_shorts b s :
  option_map fst (m false re_shorts b s None accept) = option_map Some (shorts_at s).
Proof.
  unfold re_shorts, shorts_at.
  rewrite m_seq, m_lit. destruct (starts_with false s (Js.str "/shorts/")); [|done].
  rewrite m_plus_group. change (length (Js.str "/shorts/")) with 8%nat.
  by destruct (run_of _ _).
Qed.

Lemma m_short_link b s :
  option_map fst (m false re_short_link b s None accept)
  = option_map Some (short_link_at s).
Proof.
  unfold re_short_link, short_link_at.
  rewrite m_seq, m_lit. destruct (starts_with false s (Js.str "youtu.be/")); [|done].
  rewrite m_plus_group. change (length (Js.str "youtu.be/")) with 9%nat.
  by destruct (run_of _ _).
Qed.

(** The leftmost match of a pattern is the first position at which its
    direct reading finds something. *)
Lemma search_first_at ic r at_pos :
  (forall b t, option_map fst (m ic r b t None accept) = option_map Some (at_pos t)) ->
  forall b skipped s,
    option_map group1 (search_from ic r b skipped s)
    = option_map Some (first_at at_pos s).
Proof.
  intros Hm b skipped s. revert b skipped.
  induction s as [|c s IH]; intros b skipped; cbn [search_from first_at].
  - specialize (Hm b []).
    destruct (m ic r b [] None accept) as [[cap rest]|]; destruct (at_pos []);
      cbn [option_map fst group1] in *; congruence.
  - specialize (Hm b (c :: s)).
    destruct (m ic r b (c :: s) None accept) as [[cap rest]|];
      destruct (at_pos (c :: s));
      cbn [option_map fst group1] in *; first [congruence | apply IH].
Qed.

Lemma exec_first_at r at_pos s :
  (forall b t, option_map fst (m false r b t None accept) = option_map Some (at_pos t)) ->
  match exec false r s with
  | Some found => group1 found
  | None => None
  end = first_at at_pos s
  /\ (exec false r s = None <-> first_at at_pos s = None).
Proof.
  intros Hm. pose proof (search_first_at false r at_pos Hm true [] s) as H.
  unfold exec. destruct (search_from false r true [] s) as [found|];
    destruct (first_at at_pos s); cbn in H; split; (congruence || done).
Qed.

(** [extractVideoId] of background.js, read directly. *)
Lemma extractVideoId_direct s :
  extractVideoId (Some s)
  = match first_at watch_at s with
    | Some id => Some id
    | None =>
        match first_at shorts_at s with
        | Some id => Some id
        | None => first_at short_link_at s
        end
    end.
Proof.
  destruct s as [|c u]; [done|]. unfold extractVideoId.
  destruct (exec_first_at re_watch watch_at (c :: u) m_watch) as [H1 H1'].
  destruct (exec_first_at re_shorts shorts_at (c :: u) m_shorts) as [H2 H2'].
  destruct (exec_first_at re_short_link short_link_at (c :: u) m_short_link) as [H3 H3'].
  destruct (exec false re_watch (c :: u)) as [f1|].
  { rewrite <- H1. destruct (group1 f1) eqn:Hg; [done|].
    symmetry in H1. apply H1' in H1. discriminate. }
  rewrite (proj1 H1' eq_refl).
  destruct (exec false re_shorts (c :: u)) as [f2|].
  { rewrite <- H2. destruct (group1 f2) eqn:Hg; [done|].
    symmetry in H2. apply H2' in H2. discriminate. }
  rewrite (proj1 H2' eq_refl).
  exact H3.
Qed.

(** [extractVideoId] of the content scripts, read directly. *)
Lemma extractVideoId_page_direct s :
  extractVideoId_page (Some s)
  = match first_at watch_at s with
    | Some id => Some id
    | None => first_at shorts_at s
    end.
Proof.
  destruct s as [|c u]; [done|]. unfold extractVideoId_page.
  destruct (exec_first_at re_watch watch_at (c :: u) m_watch) as [H1 H1'].
  destruct (exec_first_at re_shorts shorts_at (c :: u) m_shorts) as [H2 H2'].
  destruct (exec false re_watch (c :: u)) as [f1|].
  { rewrite <- H1. destruct (group1 f1) eqn:Hg; [done|].
    symmetry in H1. apply H1' in H1. discriminate. }
  rewrite (proj1 H1' eq_refl).
  exact H2.
Qed.

Lemma run_of_spec p s run :
  run_of p s = Some run ->
  run <> [] /\ Forall (fun c => p c = true) run /\ exists rest, s = run ++ rest.
Proof.
  unfold run_of. pose proof (take_while_Forall p s) as Hall.
  pose proof (take_drop_while p s) as Hsplit.
  destruct (Js.take_while p s) as [|c run']; [done|]. intros [= <-].
  split; [done|]. split; [done|]. by eexists.
Qed.

Lemma take_while_all p (s : jsstring) :
  Forall (fun c => p c = true) s -> Js.take_while p s = s.
Proof. induction 1 as [|c s Hc _ IH]; cbn; [done|]. by rewrite Hc, IH. Qed.

Lemma run_of_exact p (id rest : jsstring) :
  id <> [] -> Forall (fun c => p c = true) id ->
  match rest with [] => True | c :: _ => p c = false end ->
  run_of p (id ++ rest) = Some id.
Proof.
  intros Hne Hid Hrest. unfold run_of.
  assert (Js.take_while p (id ++ rest) = id) as ->.
  { destruct rest as [|c r].
    - rewrite app_nil_r. by apply take_while_all.
    - by apply take_while_stop. }
  by destruct id.
Qed.

Lemma first_at_found at_pos s x :
  first_at at_pos s = Some x -> exists pre t, s = pre ++ t /\ at_pos t = Some x.
Proof.
  induction s as [|c s IH]; cbn [first_at].
  - destruct (at_pos []) eqn:H; [|done]. intros [= <-]. by exists [], [].
  - destruct (at_pos (c :: s)) eqn:H.
    + intros [= <-]. by exists [], (c :: s).
    + intros (pre & t & -> & Ht)%IH. by exists (c :: pre), t.
Qed.

Lemma not_query_mark_not_amp c : not_query_mark c = true -> not_amp c = true.
Proof.
  unfold not_query_mark, not_amp. intros H%negb_true_iff.
  apply orb_false_iff in H as [_ ->]. done.
Qed.

Lemma at_pos_shape (at_pos : jsstring -> option jsstring) t id :
  at_pos = watch_at \/ at_pos = shorts_at \/ at_pos = short_link_at ->
  at_pos t = Some id ->
  id <> [] /\ Forall (fun c => not_amp c = true) id /\
  exists pre post, t = pre ++ id ++ post.
Proof.
  intros [->|[->| ->]].
  - unfold watch_at. destruct t as [|c t]; [done|].
    destruct (_ && _); [|done]. intros (Hne & Hall & rest & Hrest)%run_of_spec.
    split; [done|]. split; [done|].
    exists (c :: take 2 t), rest. rewrite <- app_comm_cons, <- Hrest.
    by rewrite take_drop.
  - unfold shorts_at. destruct (starts_with _ _ _); [|done].
    intros (Hne & Hall & rest & Hrest)%run_of_spec.
    split; [done|]. split.
    { eapply Forall_impl; [exact Hall|]. apply not_query_mark_not_amp. }
    exists (take 8 t), rest. by rewrite <- Hrest, take_drop.
  - unfold short_link_at. destruct (starts_with _ _ _); [|done].
    intros (Hne & Hall & rest & Hrest)%run_of_spec.
    split; [done|]. split.
    { eapply Forall_impl; [exact Hall|]. apply not_query_mark_not_amp. }
    exists (take 9 t), rest. by rewrite <- Hrest, take_drop.
Qed.

Lemma first_at_shape (at_pos : jsstring -> option jsstring) s id :
  at_pos = watch_at \/ at_pos = shorts_at \/ at_pos = short_link_at ->
  first_at at_pos s = Some id ->
  id <> [] /\ Forall (fun c => not_amp c = true) id /\
  exists pre post, s = pre ++ id ++ post.
Proof.
  intros Hat (pre & t & -> & Ht)%first_at_found.
  destruct (at_pos_shape at_pos t id Hat Ht) as (Hne & Hall & pre' & post & ->).
  split; [done|]. split; [done|]. exists (pre ++ pre'), post. by rewrite app_assoc.
Qed.

(** X13 (background.js, extractVideoId): whatever the URL, an id that
    [extractVideoId] returns is a non-empty piece of the URL that holds
    no [&]. *)
Theorem extractVideoId_shape url id :
  extractVideoId url = Some id ->
  id <> [] /\ Forall (fun c => c <> 38%N) id /\
  exists u pre post, url = Some u /\ u = pre ++ id ++ post.
Proof.
  destruct url as [u|]; [|done]. rewrite extractVideoId_direct. intros H.
  assert (id <> [] /\ Forall (fun c => not_amp c = true) id /\
          exists pre post, u = pre ++ id ++ post) as (Hne & Hall & pre & post & Hu).
  { destruct (first_at watch_at u) as [x|] eqn:H1.
    { injection H as ->. eapply first_at_shape; [|exact H1]. by left. }
    destruct (first_at shorts_at u) as [x|] eqn:H2.
    { injection H as ->. eapply first_at_shape; [|exact H2]. right; by left. }
    eapply first_at_shape; [|exact H]. right; by right. }
  split; [done|]. split; [|by eauto 6].
  eapply Forall_impl; [exact Hall|]. intros c Hc ->. done.
Qed.

(** X14 (background.js, context-menu-helper.js and content.js,
    extractVideoId): wherever the extractor of the content scripts finds
    an id, the extractor of the service worker finds the same one. *)
Theorem extractors_agree url id :
  extractVideoId_page url = Some id -> extractVideoId url = Some id.
Proof.
  destruct url as [u|]; [|done].
  rewrite extractVideoId_page_direct, extractVideoId_direct.
  destruct (first_at watch_at u); [done|]. by intros ->.
Qed.

Lemma first_at_watch_none s :
  Js.includes s (Js.str "v=") = false -> first_at watch_at s = None.
Proof.
  induction s as [|c s IH]; [done|]. intros [_ Hs]%includes_false_cons.
  cbn [first_at]. unfold watch_at at 1.
  rewrite starts_with_plain, (includes_false_head _ _ Hs), andb_false_r.
  by apply IH.
Qed.

Lemma first_at_watch pre sep id rest :
  Js.includes pre (Js.str "v=") = false ->
  is_query_mark sep = true ->
  id <> [] -> Forall (fun c => c <> 38%N) id ->
  match rest with [] => True | c :: _ => c = 38%N end ->
  first_at watch_at (pre ++ sep :: Js.str "v=" ++ id ++ rest) = Some id.
Proof.
  intros Hpre Hsep Hne Hid Hrest.
  assert (run_of not_amp (id ++ rest) = Some id) as Hrun.
  { apply run_of_exact; [done| |].
    - eapply Forall_impl; [exact Hid|]. intros c Hc. unfold not_amp.
      apply negb_true_iff, N.eqb_neq. done.
    - destruct rest as [|c r]; [done|]. by subst c. }
  change (Js.str "v=" ++ id ++ rest) with (118%N :: 61%N :: id ++ rest).
  induction pre as [|c pre IH].
  - cbn [app first_at]. unfold watch_at. rewrite Hsep.
    change (starts_with false (118%N :: 61%N :: id ++ rest) (Js.str "v=")) with true.
    cbn [andb drop]. rewrite drop_0. by rewrite Hrun.
  - apply includes_false_cons in Hpre as [_ Hpre].
    cbn [app first_at]. unfold watch_at at 1.
    assert (starts_with false (pre ++ sep :: 118%N :: 61%N :: id ++ rest) (Js.str "v=")
            = false) as ->.
    { rewrite starts_with_plain.
      destruct (Js.startsWith _ _) eqn:H; [|done].
      apply startsWith_guard in H.
      - by rewrite (includes_false_head _ _ Hpre) in H.
      - revert Hsep. unfold is_query_mark. intros Hq [<-|[<-|[]]]; done. }
    rewrite andb_false_r. by apply IH.
Qed.

(** X15 (background.js, context-menu-helper.js and content.js,
    extractVideoId): a [v] parameter is found wherever it stands in the
    query.  If nothing before it reads [v=], the id is what follows
    [?v=] or [&v=] up to the next [&] or the end of the URL, whatever the
    path of the URL is; both extractors return it. *)
Theorem extractVideoId_watch pre sep id rest :
  Js.includes pre (Js.str "v=") = false ->
  sep = 63%N \/ sep = 38%N ->
  id <> [] -> Forall (fun c => c <> 38%N) id ->
  rest = [] \/ (exists r, rest = 38%N :: r) ->
  let url := Some (pre ++ sep :: Js.str "v=" ++ id ++ rest) in
  extractVideoId url = Some id /\ extractVideoId_page url = Some id.
Proof.
  intros Hpre Hsep Hne Hid Hrest url. subst url.
  rewrite extractVideoId_direct, extractVideoId_page_direct.
  rewrite first_at_watch; [done|done| |done|done|].
  - by destruct Hsep as [-> | ->].
  - destruct Hrest as [->|[r ->]]; done.
Qed.

Lemma first_at_shorts_none s :
  Js.includes s (Js.str "/shorts/") = false -> first_at shorts_at s = None.
Proof.
  induction s as [|c s IH]; [done|]. intros Hs.
  cbn [first_at]. unfold shorts_at at 1.
  rewrite starts_with_plain, (includes_false_head _ _ Hs).
  apply includes_false_cons in Hs as [_ Hs]. by apply IH.
Qed.

Lemma startsWith_app_long (a b l : jsstring) :
  (length l <= length a)%nat -> Js.startsWith (a ++ b) l = Js.startsWith a l.
Proof.
  revert a. induction l as [|x l IH]; intros a Hlen; [done|].
  destruct a as [|y a]; cbn in Hlen; [lia|]. cbn. rewrite IH by lia. done.
Qed.

Lemma startsWith_self (l t : jsstring) : Js.startsWith (l ++ t) l = true.
Proof. induction l as [|x l IH]; [done|]. cbn. by rewrite N.eqb_refl, IH. Qed.

(** The first position at which a literal followed by [([^?&]+)] matches,
    where the literal does not occur earlier. *)
Lemma first_at_literal (at_pos : jsstring -> option jsstring) l0 c0 pre id rest :
  (forall s, at_pos s
             = if starts_with false s (l0 ++ [c0])
               then run_of not_query_mark (drop (length (l0 ++ [c0])) s)
               else None) ->
  Js.includes (pre ++ l0) (l0 ++ [c0]) = false ->
  id <> [] -> no_query id ->
  match rest with [] => True | c :: _ => c = 63%N \/ c = 38%N end ->
  first_at at_pos (pre ++ (l0 ++ [c0]) ++ id ++ rest) = Some id.
Proof.
  intros Hat Hpre Hne Hid Hrest.
  assert (run_of not_query_mark (id ++ rest) = Some id) as Hrun.
  { apply run_of_exact; [done| |].
    - eapply Forall_impl; [exact Hid|]. intros c [H1 H2]. unfold not_query_mark.
      apply negb_true_iff, orb_false_iff. by split; apply N.eqb_neq.
    - destruct rest as [|c r]; [done|]. unfold not_query_mark.
      apply negb_false_iff, orb_true_iff. destruct Hrest as [-> | ->]; auto. }
  induction pre as [|c pre IH].
  - cbn [app]. destruct (l0 ++ [c0]) as [|x l] eqn:Hl; [by destruct l0|].
    cbn [app first_at]. rewrite Hat, starts_with_plain.
    rewrite <- Hl, (app_comm_cons l (id ++ rest) x), <- Hl.
    by rewrite startsWith_self, drop_app_length, Hrun.
  - pose proof Hpre as Hhead%includes_false_head.
    apply includes_false_cons in Hpre as [_ Hpre].
    assert (Js.startsWith ((c :: pre) ++ (l0 ++ [c0]) ++ id ++ rest) (l0 ++ [c0])
            = false) as Hf.
    { replace ((c :: pre) ++ (l0 ++ [c0]) ++ id ++ rest)
        with (((c :: pre) ++ l0) ++ ([c0] ++ id ++ rest))
        by (by rewrite <- !app_assoc).
      rewrite startsWith_app_long; [exact Hhead|].
      rewrite !length_app. cbn. lia. }
    cbn [app] in Hf. cbn [app first_at]. rewrite Hat, starts_with_plain, Hf.
    by apply IH.
Qed.

(** X16 (background.js, context-menu-helper.js and content.js,
    extractVideoId): in a URL without a [v=], where [/shorts/] occurs
    for the first time the id is what follows it, up to a [?], a [&] or
    the end of the URL; both extractors return it. *)
Theorem extractVideoId_shorts pre id rest :
  let u := pre ++ Js.str "/shorts/" ++ id ++ rest in
  Js.includes u (Js.str "v=") = false ->
  Js.includes (pre ++ Js.str "/shorts") (Js.str "/shorts/") = false ->
  id <> [] -> no_query id ->
  rest = [] \/ (exists c r, rest = c :: r /\ (c = 63%N \/ c = 38%N)) ->
  extractVideoId (Some u) = Some id /\ extractVideoId_page (Some u) = Some id.
Proof.
  intros u Hv Hpre Hne Hid Hrest.
  rewrite extractVideoId_direct, extractVideoId_page_direct.
  rewrite (first_at_watch_none u Hv). subst u.
  rewrite (first_at_literal shorts_at (Js.str "/shorts") 47%N); try done.
  destruct Hrest as [->|(c & r & -> & Hc)]; done.
Qed.

(** X17 (background.js against context-menu-helper.js and content.js,
    extractVideoId): a short link is understood by the service worker
    only.  In a URL without a [v=] and without a [/shorts/], where
    [youtu.be/] occurs for the first time the id is what follows it, up
    to a [?], a [&] or the end; [extractVideoId] of background.js returns
    it, the extractor of the content scripts returns null. *)
Theorem short_link_only_in_background pre id rest :
  let u := pre ++ Js.str "youtu.be/" ++ id ++ rest in
  Js.includes u (Js.str "v=") = false ->
  Js.includes u (Js.str "/shorts/") = false ->
  Js.includes (pre ++ Js.str "youtu.be") (Js.str "youtu.be/") = false ->
  id <> [] -> no_query id ->
  rest = [] \/ (exists c r, rest = c :: r /\ (c = 63%N \/ c = 38%N)) ->
  extractVideoId (Some u) = Some id /\ extractVideoId_page (Some u) = None.
Proof.
  intros u Hv Hs Hpre Hne Hid Hrest.
  rewrite extractVideoId_direct, extractVideoId_page_direct.
  rewrite (first_at_watch_none u Hv), (first_at_shorts_none u Hs). subst u.
  split; [|done].
  rewrite (first_at_literal short_link_at (Js.str "youtu.be") 47%N); try done.
  destruct Hrest as [->|(c & r & -> & Hc)]; done.
Qed.
End VideoIds.

Lemma extractVideoId_shorts_witness :
  VideoId.extractVideoId
    (Some (Js.str "https://www.youtube.com/shorts/abc123DEF45?feature=share"))
  = Some (Js.str "abc123DEF45").
Proof.
  apply (extractVideoId_shorts (Js.str "https://www.youtube.com")
           (Js.str "abc123DEF45") (Js.str "?feature=share")).
  - vm_compute. reflexivity.
  - vm_compute. reflexivity.
  - discriminate.
  - vm_compute. repeat (constructor; [split; discriminate|]). constructor.
  - right. eexists _, _. split; [reflexivity|by left].
Defined.

Lemma short_link_only_in_background_witness :
  VideoId.extractVideoId (Some (Js.str "https://youtu.be/dQw4w9WgXcQ?t=42"))
  = Some (Js.str "dQw4w9WgXcQ") /\
  VideoId.extractVideoId_page (Some (Js.str "https://youtu.be/dQw4w9WgXcQ?t=42"))
  = None.
Proof.
  apply (short_link_only_in_background (Js.str "https://")
           (Js.str "dQw4w9WgXcQ") (Js.str "?t=42")).
  - vm_compute. reflexivity.
  - vm_compute. reflexivity.
  - vm_compute. reflexivity.
  - discriminate.
  - vm_compute. repeat (constructor; [split; discriminate|]). constructor.
  - right. eexists _, _. split; [reflexivity|by left].
Defined.

Lemma extractVideoId_shape_witness :
  Js.str "dQw4w9WgXcQ" <> [] /\ Forall (fun c => c <> 38%N) (Js.str "dQw4w9WgXcQ").
Proof.
  destruct (extractVideoId_shape
              (Some (Js.str "https://youtu.be/dQw4w9WgXcQ?t=42"))
              (Js.str "dQw4w9WgXcQ")) as (Hne & Hall & _).
  - vm_compute. reflexivity.
  - split; [exact Hne|exact Hall].
Defined.

Lemma extractors_agree_witness :
  VideoId.extractVideoId
    (Some (Js.str "https://www.youtube.com/shorts/abc123DEF45?feature=share"))
  = Some (Js.str "abc123DEF45").
Proof.
  apply extractors_agree. vm_compute. reflexivity.
Defined.

Lemma extractVideoId_watch_witness :
  VideoId.extractVideoId
    (Some (Js.str "https://www.youtube.com/watch?list=PL1&v=dQw4w9WgXcQ&t=42"))
  = Some (Js.str "dQw4w9WgXcQ").
Proof.
  apply (extractVideoId_watch (Js.str "https://www.youtube.com/watch?list=PL1")
           38%N (Js.str "dQw4w9WgXcQ") (Js.str "&t=42")).
  - vm_compute. reflexivity.
  - by right.
  - discriminate.
  - vm_compute. repeat (constructor; [discriminate|]). constructor.
  - right. by eexists.
Defined.

(** ** Structured response parser: the shape of what it returns *)

Section ParsedShape.
Import GeminiAPI Regex Direct.

Lemma trimmed_ends (s : jsstring) :
  trimmed s <-> starts_solid s /\ starts_solid (rev s).
Proof.
  unfold trimmed, Js.trim, Js.trimEnd. split.
  - intros H. split.
    + rewrite <- H. apply trimEnd_solid, trimStart_solid.
    + rewrite <- H at 1. rewrite rev_involutive. apply trimStart_solid.
  - intros [H1 H2]. rewrite (trimStart_id s H1), (trimStart_id (rev s) H2).
    apply rev_involutive.
Qed.

(** What is left of a trimmed line after a prefix that ends in white
    space, and the white space after it, is not empty and is trimmed. *)
Lemma trimmed_rest pre w rest :
  Space w -> trimmed (pre ++ w :: rest) ->
  Js.trimStart rest <> [] /\ trimmed (Js.trimStart rest).
Proof.
  intros Hw [_ Hend]%trimmed_ends.
  destruct (trimStart_split rest) as (ws & Hrest & Hws).
  set (t := Js.trimStart rest) in *.
  assert (rev (pre ++ w :: rest) = rev t ++ rev (pre ++ w :: ws)) as Hrev.
  { rewrite Hrest, <- rev_app_distr, <- app_assoc. done. }
  rewrite Hrev in Hend.
  destruct (rev t) as [|c u] eqn:Ht.
  - exfalso. cbn [app] in Hend.
    rewrite rev_app_distr in Hend. cbn [rev] in Hend.
    destruct (rev ws) as [|x xs] eqn:Hx.
    + cbn in Hend. unfold Space in Hw. congruence.
    + cbn in Hend.
      assert (Space x) as Hsx.
      { apply Forall_rev in Hws. rewrite Hx in Hws. by inversion Hws. }
      unfold Space in Hsx. congruence.
  - split.
    + intros Hnil. rewrite Hnil in Ht. discriminate.
    + apply trimmed_ends. split; [apply trimStart_solid|]. rewrite Ht. exact Hend.
Qed.

Lemma bullet_replace_shape l :
  trimmed l -> bullet_test l = true ->
  bullet_replace l <> [] /\ trimmed (bullet_replace l).
Proof.
  unfold bullet_test, bullet_replace. destruct l as [|g [|w rest]]; try done.
  intros Hl Ht. rewrite Ht. apply andb_true_iff in Ht as [_ Hw].
  by apply (trimmed_rest [g] w rest).
Qed.

Lemma numeral_replace_shape l :
  trimmed l -> numeral_test l = true ->
  numeral_replace l <> [] /\ trimmed (numeral_replace l).
Proof.
  unfold numeral_test, numeral_replace. intros Hl.
  pose proof (take_drop_while Js.is_digit l) as Hsplit.
  destruct (Js.take_while Js.is_digit l) as [|d ds]; [done|].
  destruct (Js.drop_while Js.is_digit l) as [|dot [|w rest]].
  - done.
  - intros _. split; [|done]. rewrite Hsplit. done.
  - intros Hdot. rewrite Hdot. cbn [andb].
    destruct (Js.is_space w) eqn:Hw.
    + apply (trimmed_rest ((d :: ds) ++ [dot]) w rest Hw).
      assert (((d :: ds) ++ [dot]) ++ w :: rest = l) as ->; [|done].
      rewrite Hsplit. by rewrite <- app_assoc.
    + split; [|done]. rewrite Hsplit. done.
Qed.

Lemma Forall_trimStart (P : N -> Prop) s : Forall P s -> Forall P (Js.trimStart s).
Proof.
  induction 1 as [|c s Hc Hs IH]; cbn; [constructor|].
  destruct (Js.is_space c); [done|]. by constructor.
Qed.

Lemma Forall_trim (P : N -> Prop) s : Forall P s -> Forall P (Js.trim s).
Proof.
  intros H. unfold Js.trim, Js.trimEnd.
  by apply Forall_rev, Forall_trimStart, Forall_rev, Forall_trimStart.
Qed.

Lemma rest_of_line_dots s run :
  rest_of_line s = Some run -> Forall (fun c => dot c = true) run.
Proof.
  unfold rest_of_line. pose proof (take_while_Forall dot s) as H.
  destruct (Js.take_while dot s) as [|c r]; [done|].
  destruct (Js.drop_while dot s) as [|x xs]; [by intros [= <-]|].
  destruct (x =? 10)%N; [by intros [= <-]|done].
Qed.

Lemma spaces_then_rest_of_line_dots s run :
  spaces_then_rest_of_line s = Some run -> Forall (fun c => dot c = true) run.
Proof.
  induction s as [|c s IH]; cbn [spaces_then_rest_of_line].
  - apply rest_of_line_dots.
  - destruct (Js.is_space c); [|apply rest_of_line_dots].
    destruct (spaces_then_rest_of_line s) as [r|].
    + intros [= <-]. by apply IH.
    + apply rest_of_line_dots.
Qed.

Lemma match_disclaimer_dots s run :
  match_disclaimer s = Some run -> Forall (fun c => dot c = true) run.
Proof.
  induction s as [|c s IH]; cbn [match_disclaimer].
  - destruct (starts_with true [] DISCLAIMER); [|done].
    destruct (spaces_then_rest_of_line _) as [r|] eqn:H; [|done].
    intros [= <-]. by eapply spaces_then_rest_of_line_dots.
  - destruct (if starts_with true (c :: s) DISCLAIMER then _ else _) as [r|] eqn:H.
    + intros [= <-]. destruct (starts_with true (c :: s) DISCLAIMER); [|done].
      by eapply spaces_then_rest_of_line_dots.
    + apply IH.
Qed.

Lemma take_Forall {A} (P : A -> Prop) n (l : list A) : Forall P l -> Forall P (take n l).
Proof. intros H. revert n. induction H; intros [|n]; cbn; by constructor. Qed.

(** X18 (gemini-api.js, _parseResponse): whatever the model wrote, every
    summary bullet and every takeaway that the parser returns is a
    non-empty string without white space at either end, and a disclaimer,
    when there is one, is a single line without white space at either
    end. *)
Theorem parseResponse_entries_trimmed text hasTranscript_ :
  let r := _parseResponse text hasTranscript_ in
  Forall (fun entry => entry <> [] /\ trimmed entry) (summary r) /\
  Forall (fun entry => entry <> [] /\ trimmed entry) (takeaways r) /\
  (forall d, disclaimer r = Some d ->
     trimmed d /\ Forall (fun c => Js.is_line_terminator c = false) d).
Proof.
  intros r. subst r. unfold _parseResponse. cbn [summary takeaways disclaimer].
  split; [|split].
  - destruct (summarySection text) as [section|]; [|constructor].
    apply take_Forall, Forall_map, List.Forall_forall.
    intros l [Hin Hl]%List.filter_In.
    rewrite test_bullet in Hl. rewrite remove_bullet_prefix.
    apply bullet_replace_shape; [|done].
    apply List.in_map_iff in Hin as (l0 & <- & _). apply trim_trimmed.
  - destruct (takeawaysSection text) as [section|]; [|constructor].
    apply take_Forall, Forall_map, List.Forall_forall.
    intros l [Hin Hl]%List.filter_In.
    rewrite test_numeral in Hl. rewrite remove_numeral_prefix.
    apply numeral_replace_shape; [|done].
    apply List.in_map_iff in Hin as (l0 & <- & _). apply trim_trimmed.
  - intros d. rewrite disclaimerMatch_direct.
    destruct (match_disclaimer text) as [group|] eqn:Hg; [|done].
    intros [= <-]. split; [apply trim_trimmed|].
    apply Forall_trim. apply match_disclaimer_dots in Hg.
    eapply Forall_impl; [exact Hg|]. intros c Hc. unfold dot in Hc.
    by apply negb_true_iff.
Qed.
End ParsedShape.

(** ** Transcript fetching: where a result comes from *)

Section Provenance.
Import TranscriptFetcher.
Variables viaInnertube fromPage : jsstring -> Js.result (option jsstring).

(** X19 (transcript-fetcher.js, fetchTranscript): the result names the
    method that supplied the text.  The source is [innertube] exactly when
    the first method resolved to a non-empty string; it is [page_scrape]
    exactly when the first method resolved to null or the empty string
    and the second to a non-empty string; and the result carries an error
    message exactly when the first method threw, or resolved to nothing
    and the second threw, in which case the message is that of the error
    thrown.  A first method that throws ends the call: the second is not
    consulted. *)
Theorem fetchTranscript_provenance videoId :
  let r := fetchTranscript viaInnertube fromPage videoId in
  (source r = Some innertube <->
     exists c s, viaInnertube videoId = Js.Returned (Some (c :: s))) /\
  (source r = Some page_scrape <->
     (exists v, viaInnertube videoId = Js.Returned v /\ Js.truthy v = false) /\
     exists c s, fromPage videoId = Js.Returned (Some (c :: s))) /\
  (forall msg, error r = Some msg <->
     exists e, Js.message e = msg /\
       (viaInnertube videoId = Js.Thrown e \/
        (exists v, viaInnertube videoId = Js.Returned v /\ Js.truthy v = false) /\
        fromPage videoId = Js.Thrown e)) /\
  (forall e, viaInnertube videoId = Js.Thrown e -> r = caught e).
Proof.
  unfold fetchTranscript.
  destruct (viaInnertube videoId) as [[[|c s]|]|e]; cbn [Js.truthy];
    try destruct (fromPage videoId) as [[[|c' s']|]|e']; cbn [source error caught];
    (split; [|split; [|split]]);
    try (intros ? [=]; subst; reflexivity);
    try (intros ?; split;
         [intros [=]; subst; eauto 10
         |intros (? & <- & [[=]|[(? & [=] & ?) [=]]]); subst; done]);
    try (split; [intros [=]|intros (? & ? & [=])]; done);
    try (split; [intros [=]; eauto 10
                |intros [(? & [=] & ?) (? & ? & [=])]; subst; done]);
    try (split; [intros _; eauto 10|done]).
Qed.
End Provenance.

(** ** Transcript text from the json3 format *)

Section Json3Facts.
Import Regex TranscriptFormats.

Lemma m_spaces b s :
  m false re_spaces b s None accept
  = match s with
    | c :: s' => if Js.is_space c then Some (None, Js.drop_while Js.is_space s') else None
    | [] => None
    end.
Proof.
  unfold re_spaces. rewrite m_seq. destruct s as [|c s]; [done|]. rewrite m_class.
  destruct (Js.is_space c); [|done]. cbn [m].
  by rewrite (star_greedy_total Js.is_space _ (fun t => (None, t))).
Qed.

Lemma take_while_length f (s : jsstring) :
  (length s - length (Js.drop_while f s))%nat = length (Js.take_while f s).
Proof.
  rewrite (take_drop_while f s) at 1. rewrite length_app. lia.
Qed.

(** The global replace of /\s+/ by one space is [squeeze]. *)
Lemma replace_spaces_squeeze s :
  (forall bol, RegexG.replace_from false re_spaces (Js.str " ") bol 0 s
               = squeeze false s) /\
  RegexG.replace_from false re_spaces (Js.str " ") false
    (length (Js.take_while Js.is_space s)) s
  = squeeze true s.
Proof.
  induction s as [|c s [IH0 IHrun]].
  - split; [intros bol|]; cbn [RegexG.replace_from Js.take_while length squeeze];
      by rewrite m_spaces.
  - assert (forall bol, RegexG.replace_from false re_spaces (Js.str " ") bol 0 (c :: s)
                        = squeeze false (c :: s)) as H0.
    { intros bol. cbn [RegexG.replace_from squeeze]. rewrite m_spaces.
      destruct (Js.is_space c); [|by rewrite IH0].
      change (length (c :: s)) with (S (length s)).
      assert (length (Js.drop_while Js.is_space s) <= length s)%nat as Hle.
      { rewrite (take_drop_while Js.is_space s) at 2. rewrite length_app. lia. }
      rewrite Nat.sub_succ_l by done. rewrite take_while_length.
      by rewrite IHrun. }
    split; [exact H0|].
    cbn [Js.take_while squeeze]. destruct (Js.is_space c) eqn:Hc.
    + cbn [length RegexG.replace_from]. exact IHrun.
    + cbn [length]. rewrite H0. cbn [squeeze]. by rewrite Hc.
Qed.

Lemma replace_all_spaces s :
  RegexG.replace_all false re_spaces (Js.str " ") s = squeeze false s.
Proof. apply replace_spaces_squeeze. Qed.

Lemma squeeze_single_spaced b s :
  single_spaced (squeeze b s) = true /\
  (b = true -> starts_solid (squeeze b s)).
Proof.
  revert b. induction s as [|c s IH]; intros b; [done|]. cbn [squeeze].
  destruct (Js.is_space c) eqn:Hc.
  - destruct b.
    + apply IH.
    + split; [|done]. destruct (IH true) as [Hs Hhead].
      cbn [single_spaced]. rewrite Hs, andb_true_r.
      change (Js.is_space 32) with true. cbn [N.eqb Pos.eqb andb].
      specialize (Hhead eq_refl). destruct (squeeze true s) as [|d u]; [done|].
      cbn in Hhead. by rewrite Hhead.
  - split.
    + cbn [single_spaced]. rewrite Hc. apply IH.
    + intros _. exact Hc.
Qed.

Lemma single_spaced_tail c s : single_spaced (c :: s) = true -> single_spaced s = true.
Proof. cbn [single_spaced]. by intros [_ ?]%andb_true_iff. Qed.

Lemma single_spaced_trimStart s :
  single_spaced s = true -> single_spaced (Js.trimStart s) = true.
Proof.
  induction s as [|c s IH]; [done|]. intros H. cbn [Js.trimStart].
  destruct (Js.is_space c); [|done]. by eapply IH, single_spaced_tail.
Qed.

Lemma single_spaced_prefix a b :
  single_spaced (a ++ b) = true -> single_spaced a = true.
Proof.
  induction a as [|c a IH]; [done|]. cbn [app single_spaced].
  intros [Hc Hrest]%andb_true_iff. rewrite (IH Hrest), andb_true_r.
  destruct (Js.is_space c); [|done].
  apply andb_true_iff in Hc as [-> Hnext]. destruct a as [|d a]; [done|]. exact Hnext.
Qed.

Lemma single_spaced_trim s : single_spaced s = true -> single_spaced (Js.trim s) = true.
Proof.
  intros H%single_spaced_trimStart. unfold Js.trim.
  destruct (trimEnd_split (Js.trimStart s)) as (ws & Heq & _).
  rewrite Heq in H. by eapply single_spaced_prefix.
Qed.

Lemma finish_normalised texts t :
  finish texts = Some t -> t <> [] /\ trimmed t /\ single_spaced t = true.
Proof.
  unfold finish. rewrite replace_all_spaces.
  pose proof (trim_trimmed (squeeze false (Js.join (Js.str " ") texts))) as Htrim.
  pose proof (single_spaced_trim _ (proj1 (squeeze_single_spaced false
                (Js.join (Js.str " ") texts)))) as Hsingle.
  destruct (Js.trim _) as [|c u]; [done|]. intros [= <-]. done.
Qed.

(** X20 (transcript-fetcher.js, _parseTranscriptJson): whatever JSON the
    caption server sent, a transcript that [_parseTranscriptJson] returns
    is not empty, has no white space at either end, and its only white
    space is single space characters between words: no tabs, no line
    breaks, no two spaces in a row. *)
Theorem parseTranscriptJson_normalised tem data t :
  _parseTranscriptJson tem data = Some t ->
  t <> [] /\ trimmed t /\ single_spaced t = true.
Proof.
  unfold _parseTranscriptJson. destruct (collect tem data) as [texts|e]; [|done].
  apply finish_normalised.
Qed.

Lemma for_of_app body pre x post texts :
  (forall texts', exists e, body x texts' = Js.Thrown e) ->
  exists e, for_of body (pre ++ x :: post) texts = Js.Thrown e.
Proof.
  intros Hx. revert texts. induction pre as [|y pre IH]; intros texts; cbn [app for_of].
  - destruct (Hx texts) as [e ->]. by exists e.
  - destruct (body y texts) as [texts'|e]; cbn; [apply IH|by exists e].
Qed.

(** X21 (transcript-fetcher.js, _parseTranscriptJson): one [null] entry
    in the [events] array loses the whole transcript, whatever the other
    events hold: reading [event.segs] throws, and the catch returns
    null. *)
Theorem parseTranscriptJson_null_event tem fields pre post :
  Json.lookup "events" fields = Some (Json.JArr (pre ++ Json.JNull :: post)) ->
  _parseTranscriptJson tem (Json.JObj fields) = None.
Proof.
  intros Hevents. unfold _parseTranscriptJson, collect.
  cbn [Json.prop APIManager.and_then]. rewrite Hevents.
  cbn [truthy iterate APIManager.and_then].
  destruct (for_of_app (visit_event tem) pre Json.JNull post []) as [e ->]; [|done].
  intros texts'. by eexists.
Qed.

Lemma trim_not_newline u : Js.eqb (Js.trim u) Js.nl = false.
Proof.
  pose proof (proj1 (proj1 (trimmed_ends _) (trim_trimmed u))) as H.
  destruct (Js.trim u) as [|c [|d t]]; cbn; try done.
  - cbn in H. destruct (c =? 10)%N eqn:Hc; [|done].
    apply N.eqb_eq in Hc. subst c. done.
  - by rewrite andb_false_r.
Qed.

(** The segments that are pushed: trimmed, the empty ones left out. *)
Lemma for_of_segs tem (segs : list jsstring) texts :
  for_of (visit_seg tem)
    (map (fun utf8 => Json.JObj [("utf8"%string, Json.JStr utf8)]) segs) texts
  = Js.Returned
      (texts ++ List.filter (fun t => negb (Js.eqb t [])) (map Js.trim segs)).
Proof.
  revert texts. induction segs as [|u segs IH]; intros texts; cbn [map for_of List.filter].
  - by rewrite app_nil_r.
  - unfold visit_seg at 1. cbn [Json.prop Json.lookup String.eqb Ascii.eqb Bool.eqb
                                 APIManager.and_then].
    destruct u as [|c u].
    + cbn [truthy APIManager.and_then]. rewrite IH. done.
    + cbn [truthy Json.trim APIManager.and_then].
      rewrite trim_not_newline. cbn [negb].
      destruct (Js.trim (c :: u)) as [|d t]; cbn [Js.eqb negb]; rewrite IH; [done|].
      by rewrite <- app_assoc.
Qed.

Lemma for_of_events tem (events : list (list jsstring)) texts :
  for_of (visit_event tem)
    (map (fun segs =>
            Json.JObj
              [("segs"%string,
                Json.JArr (map (fun utf8 => Json.JObj [("utf8"%string, Json.JStr utf8)])
                             segs))])
         events) texts
  = Js.Returned
      (texts ++ List.filter (fun t => negb (Js.eqb t [])) (map Js.trim (concat events))).
Proof.
  revert texts. induction events as [|segs events IH]; intros texts;
    cbn [map for_of concat List.filter].
  - by rewrite app_nil_r.
  - unfold visit_event at 1. cbn [Json.prop Json.lookup String.eqb Ascii.eqb Bool.eqb
                                   APIManager.and_then truthy iterate].
    rewrite for_of_segs. cbn [APIManager.and_then]. rewrite IH.
    by rewrite map_app, List.filter_app, app_assoc.
Qed.

Lemma collect_json3 tem events :
  collect tem (json3 events)
  = Js.Returned (List.filter (fun t => negb (Js.eqb t [])) (map Js.trim (concat events))).
Proof.
  unfold collect, json3.
  cbn [Json.prop Json.lookup String.eqb Ascii.eqb Bool.eqb APIManager.and_then
       truthy iterate].
  by rewrite for_of_events.
Qed.

Lemma word_trimmed w : word w -> trimmed w.
Proof.
  intros [Hne Hall]. apply trimmed_ends. split.
  - destruct w as [|c w]; [done|]. by inversion Hall.
  - apply Forall_rev in Hall. destruct (rev w) as [|c u]; [done|]. by inversion Hall.
Qed.

Lemma words_kept ws :
  Forall word ws ->
  List.filter (fun t => negb (Js.eqb t [])) (map Js.trim ws) = ws.
Proof.
  induction 1 as [|w ws Hw _ IH]; [done|]. cbn [map List.filter].
  rewrite (word_trimmed w Hw), IH. destruct Hw as [Hne _]. by destruct w.
Qed.

Lemma squeeze_word b w rest :
  w <> [] -> Forall (fun c => Js.is_space c = false) w ->
  squeeze b (w ++ rest) = w ++ squeeze false rest.
Proof.
  intros Hne Hall. revert b. induction Hall as [|c w Hc Hw IH]; [done|]. intros b.
  cbn [app squeeze]. rewrite Hc. f_equal.
  destruct w as [|d w]; [done|]. by apply IH.
Qed.

Lemma squeeze_solid s : starts_solid s -> squeeze true s = squeeze false s.
Proof. destruct s as [|c s]; [done|]. cbn. by intros ->. Qed.

Lemma join_words ws :
  Forall word ws -> ws <> [] ->
  let joined := Js.join (Js.str " ") ws in
  joined <> [] /\ starts_solid joined /\ starts_solid (rev joined) /\
  squeeze false joined = joined.
Proof.
  induction 1 as [|w ws Hw Hws IH]; [done|]. intros _. cbn zeta.
  pose proof (word_trimmed w Hw) as [Hstart Hend]%trimmed_ends.
  destruct Hw as [Hne Hall].
  destruct ws as [|w2 ws].
  - cbn [Js.join]. split; [done|]. split; [done|]. split; [done|].
    rewrite <- (app_nil_r w) at 1. rewrite squeeze_word by done. by rewrite app_nil_r.
  - destruct IH as (Hj & Hjs & Hje & Hsq); [done|].
    set (joined := Js.join (Js.str " ") (w2 :: ws)) in *.
    change (Js.join (Js.str " ") (w :: w2 :: ws)) with (w ++ Js.str " " ++ joined).
    split; [by destruct w|]. split; [by destruct w|]. split.
    + rewrite !rev_app_distr. destruct (rev joined) as [|c u] eqn:Hr; [|done].
      exfalso. apply Hj. by rewrite <- (rev_involutive joined), Hr.
    + rewrite squeeze_word by done. f_equal.
      change (Js.str " " ++ joined) with (32%N :: joined). cbn [squeeze].
      change (Js.is_space 32) with true. cbn match.
      by rewrite squeeze_solid, Hsq.
Qed.

Lemma finish_words ws :
  Forall word ws -> ws <> [] -> finish ws = Some (Js.join (Js.str " ") ws).
Proof.
  intros Hwords Hne. unfold finish. rewrite replace_all_spaces.
  destruct (join_words _ Hwords Hne) as (Hj & Hs & He & Hsq).
  rewrite Hsq.
  assert (trimmed (Js.join (Js.str " ") ws)) as -> by (by apply trimmed_ends).
  by destruct (Js.join _ _).
Qed.

(** X22 (transcript-fetcher.js, _parseTranscriptJson): a round trip.  A
    json3 transcript whose segments are words (no white space, not empty)
    comes back as those words in their order, joined by single spaces,
    however they are spread over events. *)
Theorem parseTranscriptJson_words tem events :
  Forall word (concat events) -> concat events <> [] ->
  _parseTranscriptJson tem (json3 events)
  = Some (Js.join (Js.str " ") (concat events)).
Proof.
  intros Hwords Hne. unfold _parseTranscriptJson. rewrite collect_json3.
  rewrite words_kept by done. by apply finish_words.
Qed.
End Json3Facts.

Lemma parseTranscriptJson_words_witness :
  TranscriptFormats._parseTranscriptJson (Js.str "t")
    (json3 [[Js.str "never"; Js.str "gonna"]; []; [Js.str "give"]])
  = Some (Js.str "never gonna give").
Proof.
  apply (parseTranscriptJson_words (Js.str "t")
           [[Js.str "never"; Js.str "gonna"]; []; [Js.str "give"]]).
  - repeat (constructor; [split; [discriminate|by vm_compute; repeat constructor]|]).
    constructor.
  - discriminate.
Defined.

Lemma parseTranscriptJson_normalised_witness :
  single_spaced (Js.str "never gonna give you up") = true.
Proof.
  apply (parseTranscriptJson_normalised (Js.str "t")
           (json3 [[Js.str " never gonna"; Js.str "give  "]; []; [Js.nl; Js.str "you up"]])
           (Js.str "never gonna give you up")).
  vm_compute. reflexivity.
Defined.

Lemma parseTranscriptJson_null_event_witness :
  TranscriptFormats._parseTranscriptJson (Js.str "t")
    (Json.JObj [("events"%string,
                 Json.JArr [Json.JObj [("segs"%string,
                              Json.JArr [Json.JObj [("utf8"%string,
                                                     Json.JStr (Js.str "words"))]])];
                            Json.JNull])])
  = None.
Proof.
  apply (parseTranscriptJson_null_event (Js.str "t") _
           [Json.JObj [("segs"%string,
              Json.JArr [Json.JObj [("utf8"%string, Json.JStr (Js.str "words"))]])]]
           []).
  reflexivity.
Defined.

(** ** Transcript and metadata requests *)

Section InnertubeFacts.
Import TranscriptFetcher TranscriptFormats Innertube.
Variable env : Env.

Lemma parseTranscriptXml_normalised tem xml t :
  _parseTranscriptXml tem xml = Some t ->
  t <> [] /\ trimmed t /\ single_spaced t = true.
Proof.
  unfold _parseTranscriptXml. destruct (xml_texts _ _ _) as [texts|e]; [|done].
  apply finish_normalised.
Qed.

Lemma fetch_track_normalised base t :
  fst (fetch_track env base) = Some t ->
  t <> [] /\ trimmed t /\ single_spaced t = true.
Proof.
  unfold fetch_track. destruct (get env (base ++ _)) as [response|e]; [|done].
  destruct (negb (APIManager.ok response)).
  - destruct (get env base) as [xmlResponse|e]; [|done].
    destruct (APIManager.ok xmlResponse); [|done]. apply parseTranscriptXml_normalised.
  - destruct (APIManager.body_json response) as [data|e]; [|done].
    apply parseTranscriptJson_normalised.
Qed.

Lemma viaInnertube_normalised videoId t :
  fst (_fetchViaInnertube env videoId) = Some t ->
  t <> [] /\ trimmed t /\ single_spaced t = true.
Proof.
  unfold _fetchViaInnertube.
  destruct (player env videoId) as [response|e]; [|done].
  destruct (negb (player_ok response)); [done|].
  destruct (player_data response) as [data|e]; [|done].
  destruct (captionTracks data) as [[|track tracks]|]; try done.
  destruct (_selectBestTrack (track :: tracks)) as [[lang kind_ [[|c base]|]]|]; try done.
  pose proof (fetch_track_normalised (c :: base) t) as H.
  destruct (fetch_track env (c :: base)) as [transcript requests]. exact H.
Qed.

Lemma fromVideoPage_normalised videoId t :
  fst (_fetchFromVideoPage env videoId) = Some t ->
  t <> [] /\ trimmed t /\ single_spaced t = true.
Proof.
  unfold _fetchFromVideoPage.
  destruct (get env (WATCH ++ videoId)) as [response|e]; [|done].
  destruct (_extractCaptionUrl _) as [[|c url]|]; try done.
  destruct (get env (c :: url)) as [transcriptResponse|e]; [|done].
  apply parseTranscriptXml_normalised.
Qed.

(** X23 (transcript-fetcher.js, fetchTranscript with _fetchViaInnertube,
    _fetchFromVideoPage, _parseTranscriptJson and _parseTranscriptXml):
    whatever the network answers, the result of [fetchTranscript] carries
    no error field, since both methods catch every failure themselves;
    and when a transcript is available, its text is not empty, has no
    white space at either end and no white space inside other than
    single spaces. *)
Theorem fetchTranscript_text_normalised videoId :
  let r := fetchTranscript (viaInnertube env) (fromVideoPage env) videoId in
  error r = None /\
  match text r with
  | Some t => available r = true /\ t <> [] /\ trimmed t /\ single_spaced t = true
  | None => available r = false
  end.
Proof.
  cbn zeta. unfold fetchTranscript, viaInnertube, fromVideoPage.
  pose proof (viaInnertube_normalised videoId) as H1.
  pose proof (fromVideoPage_normalised videoId) as H2.
  destruct (fst (_fetchViaInnertube env videoId)) as [[|c t]|]; cbn [Js.truthy].
  - by destruct (H1 _ eq_refl).
  - split; [done|]. cbn [text available]. split; [done|]. by apply H1.
  - destruct (fst (_fetchFromVideoPage env videoId)) as [[|c t]|]; cbn [Js.truthy].
    + by destruct (H2 _ eq_refl).
    + split; [done|]. cbn [text available]. split; [done|]. by apply H2.
    + done.
Qed.

(** X24 (transcript-fetcher.js, _fetchViaInnertube): the requests of the
    first method.  It always asks the player endpoint first; it asks for
    the json3 transcript of one track at most; and it asks for the XML
    form of that track only after the json3 request was answered with a
    status outside 200-299.  A json3 request that fails outright ends
    the method with null, without the XML form being tried. *)
Theorem innertube_requests videoId :
  let '(transcript, requests) := _fetchViaInnertube env videoId in
  requests = [Player videoId] /\ transcript = None \/
  exists base,
    let json3_url := base ++ Js.str "&fmt=json3" in
    (requests = [Player videoId; Get json3_url] /\
     match get env json3_url with
     | Js.Returned response => APIManager.ok response = true
     | Js.Thrown _ => transcript = None
     end) \/
    (requests = [Player videoId; Get json3_url; Get base] /\
     exists response, get env json3_url = Js.Returned response /\
                      APIManager.ok response = false).
Proof.
  unfold _fetchViaInnertube.
  destruct (player env videoId) as [response|e]; [|by left].
  destruct (negb (player_ok response)); [by left|].
  destruct (player_data response) as [data|e]; [|by left].
  destruct (captionTracks data) as [[|track tracks]|]; try by left.
  destruct (_selectBestTrack (track :: tracks)) as [[lang kind_ [[|c base]|]]|];
    try by left.
  unfold fetch_track. cbn zeta.
  destruct (get env ((c :: base) ++ _)) as [transcriptResponse|e] eqn:Hget.
  2:{ right. exists (c :: base). left. by rewrite Hget. }
  destruct (APIManager.ok transcriptResponse) eqn:Hok; cbn [negb].
  - destruct (APIManager.body_json transcriptResponse);
      right; exists (c :: base); left; by rewrite Hget, Hok.
  - destruct (get env (c :: base)) as [xmlResponse|e'].
    + destruct (APIManager.ok xmlResponse);
        right; exists (c :: base); right; split; by eauto.
    + right. exists (c :: base). right. split; by eauto.
Qed.

Lemma star_through {R} g p (k : bool -> jsstring -> option R) b s res :
  Regex.star g p k b s = Some res ->
  exists b' s', k b' s' = Some res /\ (length s' <= length s)%nat.
Proof.
  revert b. induction s as [|c s IH]; intros b; destruct g; cbn [Regex.star].
  - intros H. by exists b, [].
  - destruct (k b []) eqn:Hk; [|done]. intros [= <-]. by exists b, [].
  - destruct (p c).
    + destruct (Regex.star true p k false s) eqn:Hs.
      * intros [= <-]. destruct (IH _ Hs) as (b' & s' & Hk & Hlen).
        exists b', s'. split; [done|]. cbn. lia.
      * intros H. by exists b, (c :: s).
    + intros H. by exists b, (c :: s).
  - destruct (k b (c :: s)) eqn:Hk.
    + intros [= <-]. by exists b, (c :: s).
    + destruct (p c); [|done]. intros H.
      destruct (IH _ H) as (b' & s' & Hk' & Hlen).
      exists b', s'. split; [done|]. cbn. lia.
Qed.

(** A pattern without a group hands the capture on as it got it, with a
    rest of the input that is no longer than what it started on. *)
Lemma groupless_through ic r :
  groupless r = true ->
  forall R b s cap (k : bool -> jsstring -> option jsstring -> option R) res,
    Regex.m ic r b s cap k = Some res ->
    exists b' s', k b' s' cap = Some res /\ (length s' <= length s)%nat.
Proof.
  induction r as [|c|p|a IHa r' IHb|a IHa r' IHb|g p|a IHa|a IHa| |];
    intros Hr R b s cap k res; cbn [Regex.m]; cbn [groupless] in Hr.
  - intros H. by exists b, s.
  - destruct s as [|x s]; [done|]. destruct (Regex.same_char ic x c); [|done].
    intros H. exists false, s. split; [done|]. cbn. lia.
  - destruct s as [|x s]; [done|]. destruct (p x); [|done].
    intros H. exists false, s. split; [done|]. cbn. lia.
  - apply andb_true_iff in Hr as [Ha Hb]. intros H.
    destruct (IHa Ha _ _ _ _ _ _ H) as (b1 & s1 & H1 & Hlen1).
    destruct (IHb Hb _ _ _ _ _ _ H1) as (b2 & s2 & H2 & Hlen2).
    exists b2, s2. split; [done|]. lia.
  - apply andb_true_iff in Hr as [Ha Hb].
    destruct (Regex.m ic a b s cap k) eqn:H1.
    + intros [= <-]. by eapply IHa.
    + by apply IHb.
  - apply star_through.
  - done.
  - destruct (Regex.m ic a b s cap (fun _ _ cap' => Some cap')) as [cap'|] eqn:H1; [|done].
    destruct (IHa Hr _ _ _ _ _ _ H1) as (_ & _ & [= <-] & _).
    intros H. by exists b, s.
  - destruct b; [|done]. intros H. by exists true, s.
  - destruct s; [|done]. intros H. by exists b, [].
Qed.

Lemma seq_through {R} ic a r b s cap
    (k : bool -> jsstring -> option jsstring -> option R) res :
  groupless a = true ->
  Regex.m ic (Regex.Seq a r) b s cap k = Some res ->
  exists b' s', Regex.m ic r b' s' cap k = Some res.
Proof.
  intros Ha H. rewrite m_seq in H.
  destruct (groupless_through ic a Ha _ _ _ _ _ _ H) as (b' & s' & H' & _). by eauto.
Qed.

(** [([^...]+)] followed by a pattern without a group captures at least
    one character. *)
Lemma plus_group_captures ic p tail b s cap res :
  groupless tail = true ->
  Regex.m ic (Regex.Seq (Regex.Group (Regex.Seq (Regex.Class p) (Regex.Star true p))) tail)
    b s cap Regex.accept = Some res ->
  exists c g, fst res = Some (c :: g).
Proof.
  intros Htail H. rewrite m_seq in H. cbn [Regex.m] in H.
  destruct s as [|x s]; [done|]. destruct (p x); [|done].
  apply star_through in H as (b1 & s1 & H & Hlen).
  apply (groupless_through ic tail Htail) in H as (b2 & s2 & H & _).
  injection H as <-. cbn [fst length].
  rewrite Nat.sub_succ_l by done. cbn [take]. by eauto.
Qed.

Lemma search_from_found ic r b skipped s found :
  Regex.search_from ic r b skipped s = Some found ->
  exists b' s', Regex.m ic r b' s' None Regex.accept
                = Some (Regex.group1 found, Regex.after found).
Proof.
  revert b skipped. induction s as [|c s IH]; intros b skipped; cbn [Regex.search_from].
  - destruct (Regex.m ic r b [] None Regex.accept) as [[cap rest]|] eqn:H; [|done].
    intros [= <-]. by eauto.
  - destruct (Regex.m ic r b (c :: s) None Regex.accept) as [[cap rest]|] eqn:H.
    + intros [= <-]. by eauto.
    + apply IH.
Qed.

Lemma extractFromHtml_nonempty ic html regex :
  regex = re_meta_title \/ regex = re_author \/ regex = re_description ->
  _extractFromHtml ic html regex <> Some [].
Proof.
  intros Hregex. unfold _extractFromHtml.
  destruct (Regex.exec ic regex html) as [found|] eqn:Hexec; [|done].
  apply search_from_found in Hexec as (b & s & H).
  assert (exists c g, Regex.group1 found = Some (c :: g)) as (c & g & ->); [|done].
  destruct Hregex as [->|[->| ->]];
    unfold re_meta_title, re_author, re_description in H;
    repeat (apply seq_through in H as (? & ? & H); [|reflexivity]);
    by apply plus_group_captures in H.
Qed.

Lemma or_null_nonempty v : or_null v <> Some [].
Proof. by destruct v as [[|? ?]|]. Qed.

(** X25 (transcript-fetcher.js, fetchMetadata, _fetchMetadataFromPage and
    _extractFromHtml): [fetchMetadata] always resolves, after one request
    to the player endpoint and at most one more for the watch page; no
    field of its result is ever the empty string; a description taken
    from the player response has at most 500 code units; and after the
    fall back to the watch page, duration and view count are null. *)
Theorem fetchMetadata_shape videoId :
  let '(metadata, requests) := fetchMetadata env videoId in
  (requests = [Player videoId] \/
   requests = [Player videoId; Get (WATCH ++ videoId)]) /\
  Forall (fun field => field <> Some [])
    [title metadata; channel metadata; description metadata;
     duration metadata; viewCount metadata] /\
  (requests = [Player videoId] ->
   forall d, description metadata = Some d -> (length d <= 500)%nat) /\
  (requests = [Player videoId; Get (WATCH ++ videoId)] ->
   duration metadata = None /\ viewCount metadata = None).
Proof.
  assert (let '(metadata, requests) :=
            let '(metadata, requests) := _fetchMetadataFromPage env videoId in
            (metadata, Player videoId :: requests) in
          (requests = [Player videoId] \/
           requests = [Player videoId; Get (WATCH ++ videoId)]) /\
          Forall (fun field => field <> Some [])
            [title metadata; channel metadata; description metadata;
             duration metadata; viewCount metadata] /\
          (requests = [Player videoId] ->
           forall d, description metadata = Some d -> (length d <= 500)%nat) /\
          (requests = [Player videoId; Get (WATCH ++ videoId)] ->
           duration metadata = None /\ viewCount metadata = None)) as Hpage.
  { unfold _fetchMetadataFromPage.
    destruct (get env (WATCH ++ videoId)) as [response|e];
      cbn [title channel description duration viewCount];
      (split; [by right|]); (split; [|split; [discriminate|done]]).
    - repeat (constructor; [first [done | apply extractFromHtml_nonempty; auto]|]).
      constructor.
    - repeat (constructor; [done|]). constructor. }
  unfold fetchMetadata. cbn zeta.
  destruct (player env videoId) as [response|e]; [|exact Hpage].
  destruct (negb (player_ok response)); [exact Hpage|].
  destruct (player_data response) as [data|e]; [|exact Hpage].
  cbn [title channel description duration viewCount].
  split; [by left|]. split; [|split; [|discriminate]].
  - repeat (constructor; [apply or_null_nonempty|]). constructor.
  - intros _ d. destruct (videoDetails data) as [details|]; [|done].
    destruct (shortDescription details) as [text|]; [|done]. cbn [option_map or_null].
    destruct (take 500 text) as [|c t] eqn:Htake; [done|]. intros [= <-].
    rewrite <- Htake, length_take. lia.
Qed.
End InnertubeFacts.

(** ** Transcript text from the XML format *)

Section XmlFacts.
Import Regex TranscriptFormats.


















End XmlFacts.


(** ** Structured summaries: which prompt is sent *)

Section StructuredSummaries.
Import GeminiAPI GeminiCall.

Lemma join_middle sep (before_ after_ : list jsstring) x :
  exists pre post, Js.join sep (before_ ++ x :: after_) = pre ++ x ++ post.
Proof.
  induction before_ as [|l before_ (pre & post & IH)].
  - exists []. destruct after_ as [|y after_].
    + exists []. cbn. by rewrite app_nil_r.
    + by exists (sep ++ Js.join sep (y :: after_)).
  - exists (l ++ sep ++ pre), post. cbn [app].
    change (Js.join sep (l :: before_ ++ x :: after_))
      with (match before_ ++ x :: after_ with
            | [] => l
            | _ :: _ => l ++ sep ++ Js.join sep (before_ ++ x :: after_)
            end).
    destruct (before_ ++ x :: after_) as [|y ys] eqn:Hlist.
    + by destruct before_.
    + rewrite IH. by rewrite <- !app_assoc.
Qed.

Lemma holds_blank transcript : holds (hasTranscript_of transcript) = negb (blank transcript).
Proof.
  destruct transcript as [[|c s]|]; cbn [holds hasTranscript_of blank]; try done.
  by destruct (Js.trim (c :: s)).
Qed.

(** X27 (gemini-api.js, GeminiAPI.generateSummary and _buildPrompt):
    without an API key the call throws before anything is sent; with
    one, it sends exactly one request.  A transcript that is null, empty
    or white space only is not sent at all: the prompt is the one built
    from title, channel and description, and a result is marked as being
    without transcript.  Any other transcript is part of the prompt word
    for word, and a result is marked as having a transcript. *)
Theorem structured_summary_prompt apiKey fetch transcript metadata :
  let '(outcome, requests) := generateSummary apiKey fetch transcript metadata in
  (Js.truthy apiKey = false ->
   requests = [] /\
   outcome = Js.Thrown (Js.Error (Js.str "Gemini API key not configured"))) /\
  (Js.truthy apiKey = true ->
   exists url prompt,
     requests = [(url, prompt)] /\
     if blank transcript
     then prompt = _buildPrompt None metadata ht_null
     else exists pre post, prompt = pre ++ Js.interpolate transcript ++ post) /\
  (forall r, outcome = Js.Returned r ->
     holds (result_hasTranscript r) = negb (blank transcript) /\
     hasTranscript (parsed r) = negb (blank transcript)).
Proof.
  unfold generateSummary. destruct apiKey as [[|c key]|]; cbn [Js.truthy];
    try (split; [done|]; split; done).
  split; [done|]. split.
  - intros _. eexists _, _. split; [reflexivity|].
    unfold _buildPrompt. rewrite holds_blank.
    destruct (blank transcript); cbn [negb holds]; [done|].
    match goal with
    | |- exists pre post, Js.join _ (?a :: ?b :: ?c :: ?d :: ?e :: ?f :: ?x :: ?rest) = _ =>
        change (a :: b :: c :: d :: e :: f :: x :: rest)
          with ([a; b; c; d; e; f] ++ x :: rest)
    end.
    apply join_middle.
  - intros r. destruct (fetch _ _) as [response|e]; [|done].
    destruct (negb (answer_ok response)).
    { by destruct (error_message response). }
    destruct (generated response) as [[[|g text]|]|e]; try done.
    intros [= <-]. cbn [result_hasTranscript parsed hasTranscript _parseResponse].
    by rewrite holds_blank.
Qed.
End StructuredSummaries.

(** ** Structured response parser: a response in the asked format *)

Section FormattedResponse.
Import GeminiAPI Regex Direct.

Lemma join_cons2 sep (x y : jsstring) l :
  Js.join sep (x :: y :: l) = x ++ sep ++ Js.join sep (y :: l).
Proof. reflexivity. Qed.

(** The lines in front of a last part, each with its line feed. *)
Lemma join_lines (ls : list jsstring) x rest :
  Js.join Js.nl (ls ++ x :: rest)
  = concat (map (fun l => l ++ Js.nl) ls) ++ Js.join Js.nl (x :: rest).
Proof.
  induction ls as [|l ls IH]; [done|]. cbn [app map concat].
  destruct (ls ++ x :: rest) as [|y ys] eqn:Hlist; [by destruct ls|].
  rewrite join_cons2, IH. by rewrite <- !app_assoc.
Qed.

Lemma starts_with_ci_guard (pre rest F : jsstring) q :
  (forall a, In a F -> same_char true q a = false) ->
  starts_with true (pre ++ q :: rest) F = true -> starts_with true pre F = true.
Proof.
  revert pre. induction F as [|a F IH]; intros pre Hq; [done|].
  destruct pre as [|b pre]; cbn [app starts_with].
  - rewrite (Hq a) by (by left). done.
  - intros [Hab H]%andb_true_iff. rewrite Hab. cbn [andb].
    apply IH; [|done]. intros a' Ha'. apply Hq. by right.
Qed.

Lemma contains_ci_cons c l F :
  contains_ci (c :: l) F = false ->
  starts_with true (c :: l) F = false /\ contains_ci l F = false.
Proof. cbn [contains_ci]. by intros [? ?]%orb_false_iff. Qed.

Lemma newline_not_in (F : jsstring) :
  F = SUMMARY \/ F = TAKEAWAYS ->
  forall a, In a F -> same_char true 10 a = false.
Proof.
  intros [-> | ->] a Hin; vm_compute in Hin;
    repeat (destruct Hin as [<-|Hin]; [reflexivity|]); done.
Qed.

(** A line that does not hold the marker, and its line feed, are passed
    over. *)
Lemma starts_with_line l X k :
  contains_ci l TAKEAWAYS = false -> (k <= length l)%nat ->
  starts_with true (drop k (l ++ 10%N :: X)) TAKEAWAYS = false.
Proof.
  revert k. induction l as [|c l IH]; intros k Hl Hk.
  - cbn in Hk. assert (k = 0)%nat as -> by lia. done.
  - apply contains_ci_cons in Hl as [Hhead Hl]. destruct k as [|k].
    + rewrite drop_0.
      destruct (starts_with true ((c :: l) ++ 10%N :: X) TAKEAWAYS) eqn:H; [|done].
      apply starts_with_ci_guard in H; [congruence|]. apply newline_not_in. by right.
    + cbn [app drop]. apply IH; [done|]. cbn in Hk. lia.
Qed.

Lemma until_line l X :
  contains_ci l TAKEAWAYS = false ->
  until_takeaways (l ++ 10%N :: X) = l ++ 10%N :: until_takeaways X.
Proof.
  intros Hl. induction l as [|c l IH].
  - cbn [app until_takeaways]. done.
  - pose proof (starts_with_line (c :: l) X 0 Hl ltac:(cbn; lia)) as H0.
    rewrite drop_0 in H0. cbn [app until_takeaways] in *. rewrite H0.
    apply contains_ci_cons in Hl as [_ Hl]. by rewrite IH.
Qed.

Lemma until_lines (ls : list jsstring) X :
  Forall (fun l => contains_ci l TAKEAWAYS = false) ls ->
  until_takeaways (concat (map (fun l => l ++ Js.nl) ls) ++ X)
  = concat (map (fun l => l ++ Js.nl) ls) ++ until_takeaways X.
Proof.
  induction 1 as [|l ls Hl _ IH]; [done|]. cbn [map concat].
  rewrite <- !app_assoc. change (Js.nl ++ ?t) with (10%N :: t).
  rewrite until_line by done. rewrite IH. done.
Qed.

Lemma after_marker_line l X :
  contains_ci l TAKEAWAYS = false ->
  after_marker TAKEAWAYS (l ++ 10%N :: X) = after_marker TAKEAWAYS X.
Proof.
  intros Hl. induction l as [|c l IH].
  - cbn [app after_marker]. done.
  - pose proof (starts_with_line (c :: l) X 0 Hl ltac:(cbn; lia)) as H0.
    rewrite drop_0 in H0. cbn [app after_marker] in *. rewrite H0.
    apply contains_ci_cons in Hl as [_ Hl]. by rewrite IH.
Qed.

Lemma after_marker_lines (ls : list jsstring) X :
  Forall (fun l => contains_ci l TAKEAWAYS = false) ls ->
  after_marker TAKEAWAYS (concat (map (fun l => l ++ Js.nl) ls) ++ X)
  = after_marker TAKEAWAYS X.
Proof.
  induction 1 as [|l ls Hl _ IH]; [done|]. cbn [map concat].
  rewrite <- !app_assoc. change (Js.nl ++ ?t) with (10%N :: t).
  rewrite after_marker_line by done. exact IH.
Qed.

Lemma split_aux_line cur l X :
  Forall (fun c => c <> 10%N) l ->
  Js.split_lines_aux cur (l ++ 10%N :: X) = (rev cur ++ l) :: Js.split_lines_aux [] X.
Proof.
  intros Hl. revert cur. induction Hl as [|c l Hc _ IH]; intros cur.
  - cbn. by rewrite app_nil_r.
  - cbn [app Js.split_lines_aux]. apply N.eqb_neq in Hc. rewrite Hc, IH.
    cbn [rev]. by rewrite <- app_assoc.
Qed.

Lemma split_aux_last cur l :
  Forall (fun c => c <> 10%N) l ->
  Js.split_lines_aux cur l = [rev cur ++ l].
Proof.
  intros Hl. revert cur. induction Hl as [|c l Hc _ IH]; intros cur.
  - cbn. by rewrite app_nil_r.
  - cbn [Js.split_lines_aux]. apply N.eqb_neq in Hc. rewrite Hc, IH.
    cbn [rev]. by rewrite <- app_assoc.
Qed.

Lemma split_lines_concat (ls : list jsstring) last_ :
  Forall (Forall (fun c => c <> 10%N)) ls ->
  Forall (fun c => c <> 10%N) last_ ->
  Js.split_lines (concat (map (fun l => l ++ Js.nl) ls) ++ last_) = ls ++ [last_].
Proof.
  intros Hls Hlast. unfold Js.split_lines.
  induction Hls as [|l ls Hl _ IH]; cbn [map concat app].
  - by rewrite split_aux_last.
  - rewrite <- !app_assoc. change (Js.nl ++ ?t) with (10%N :: t).
    rewrite split_aux_line by done. by rewrite IH.
Qed.

Lemma split_join (ls : list jsstring) :
  ls <> [] -> Forall (Forall (fun c => c <> 10%N)) ls ->
  Js.split_lines (Js.join Js.nl ls) = ls.
Proof.
  intros Hne Hls. unfold Js.split_lines. induction Hls as [|l ls Hl Hls IH]; [done|].
  destruct ls as [|l2 ls].
  - cbn [Js.join]. by rewrite split_aux_last.
  - rewrite join_cons2. change (Js.nl ++ ?t) with (10%N :: t).
    rewrite split_aux_line by done. by rewrite IH.
Qed.

Lemma starts_with_ci_self (F rest : jsstring) : starts_with true (F ++ rest) F = true.
Proof.
  induction F as [|a F IH]; [done|]. cbn [app starts_with same_char].
  by rewrite N.eqb_refl, IH.
Qed.

Lemma after_marker_here (F rest : jsstring) :
  after_marker F (F ++ rest) = Some rest.
Proof.
  destruct (F ++ rest) as [|c s] eqn:Hs.
  - destruct F; [|done]. cbn in Hs. subst rest. done.
  - cbn [after_marker]. rewrite <- Hs, starts_with_ci_self, drop_app_length. done.
Qed.

Lemma until_takeaways_here rest : until_takeaways (TAKEAWAYS ++ rest) = [].
Proof.
  change (TAKEAWAYS ++ rest) with (84%N :: (Js.str "AKEAWAYS:" ++ rest)).
  cbn [until_takeaways].
  change (84%N :: (Js.str "AKEAWAYS:" ++ rest)) with (TAKEAWAYS ++ rest).
  by rewrite starts_with_ci_self.
Qed.

Lemma rev_solid (pre t : jsstring) :
  t <> [] -> starts_solid (rev t) -> starts_solid (rev (pre ++ t)).
Proof.
  intros Hne Ht. rewrite rev_app_distr. destruct (rev t) as [|c u] eqn:Hr; [|done].
  exfalso. apply Hne. by rewrite <- (rev_involutive t), Hr.
Qed.

Lemma bullet_line_shape b :
  one_line b ->
  let l := Js.str "- " ++ b in
  Js.trim l = l /\ bullet_test l = true /\ bullet_replace l = b /\
  Forall (fun c => c <> 10%N) l.
Proof.
  intros (Hne & [Hstart Hend]%trimmed_ends & Hnl). cbn zeta.
  change (Js.str "- " ++ b) with (45%N :: 32%N :: b).
  split; [|split; [done|split]].
  - apply trimmed_ends. split; [done|]. by apply (rev_solid [45%N; 32%N] b).
  - cbn [bullet_replace]. change (is_bullet_glyph 45 && Js.is_space 32) with true.
    cbn match. by apply trimStart_id.
  - by repeat constructor.
Qed.

Lemma digit_solid c : Js.is_digit c = true -> Js.is_space c = false /\ c <> 10%N.
Proof.
  unfold Js.is_digit, Js.is_space. intros [H1%N.leb_le H2%N.leb_le]%andb_true_iff.
  split; [|lia].
  repeat (apply orb_false_iff; split);
    first [ apply N.eqb_neq; lia
          | apply andb_false_iff; left; apply N.leb_gt; lia
          | apply andb_false_iff; right; apply N.leb_gt; lia ].
Qed.

Lemma numbered_line_shape d t :
  d <> [] -> Forall Digit d -> one_line t ->
  let l := d ++ Js.str ". " ++ t in
  Js.trim l = l /\ numeral_test l = true /\ numeral_replace l = t /\
  Forall (fun c => c <> 10%N) l.
Proof.
  intros Hd Hdigits (Hne & [Hstart Hend]%trimmed_ends & Hnl). cbn zeta.
  change (Js.str ". " ++ t) with (46%N :: 32%N :: t).
  destruct (take_while_stop Js.is_digit d (32%N :: t) 46 Hdigits eq_refl)
    as [Htake Hdrop].
  split; [|split; [|split]].
  - apply trimmed_ends. split.
    + destruct d as [|c d]; [done|]. inversion Hdigits as [|? ? Hc _]; subst.
      by apply digit_solid.
    + change (d ++ 46%N :: 32%N :: t) with (d ++ [46%N; 32%N] ++ t).
      rewrite app_assoc. by apply rev_solid.
  - unfold numeral_test. rewrite Htake, Hdrop. by destruct d.
  - unfold numeral_replace. rewrite Htake, Hdrop. destruct d; [done|].
    change ((46 =? 46)%N && Js.is_space 32) with true. cbn match.
    by apply trimStart_id.
  - apply Forall_app. split.
    + eapply Forall_impl; [exact Hdigits|]. intros c Hc. by apply digit_solid.
    + by repeat constructor.
Qed.

Lemma bullet_line_plain b :
  contains_ci b TAKEAWAYS = false -> contains_ci (Js.str "- " ++ b) TAKEAWAYS = false.
Proof.
  intros Hb. change (Js.str "- " ++ b) with (45%N :: 32%N :: b).
  cbn [contains_ci]. rewrite Hb. done.
Qed.

Lemma join_head_solid (l : jsstring) ls :
  starts_solid l -> l <> [] -> starts_solid (Js.join Js.nl (l :: ls)).
Proof. intros Hl Hne. destruct l; [done|]. by destruct ls. Qed.

Lemma bullets_back bullets tail_ :
  Forall (fun b => one_line b /\ contains_ci b TAKEAWAYS = false) bullets ->
  Forall (fun l => l = []) tail_ ->
  map bullet_replace
    (List.filter bullet_test
       (map Js.trim (map (fun b => Js.str "- " ++ b) bullets ++ tail_)))
  = bullets.
Proof.
  intros Hb Ht. induction Hb as [|b bullets [Hone _] _ IH]; cbn [map app].
  - induction Ht as [|l tail_ -> _ IH]; [done|]. exact IH.
  - destruct (bullet_line_shape b Hone) as (-> & Htest & Hrep & _).
    cbn [List.filter]. rewrite Htest. cbn [map]. by rewrite Hrep, IH.
Qed.

Lemma takeaways_back (items : list (jsstring * jsstring)) :
  Forall (fun item => fst item <> [] /\ Forall Digit (fst item) /\ one_line (snd item))
    items ->
  map numeral_replace
    (List.filter numeral_test
       (map Js.trim (map (fun item => fst item ++ Js.str ". " ++ snd item) items)))
  = map snd items.
Proof.
  induction 1 as [|[d t] items (Hd & Hdigits & Hone) _ IH]; [done|]. cbn [map fst snd] in *.
  destruct (numbered_line_shape d t Hd Hdigits Hone) as (-> & Htest & Hrep & _).
  cbn [List.filter]. rewrite Htest. cbn [map]. by rewrite Hrep, IH.
Qed.

(** X28 (gemini-api.js, _parseResponse): a response written in the
    format the prompt asks for is read back exactly.  With one-line
    bullets that do not hold the word TAKEAWAYS: and one-line takeaways
    behind a numeral, a full stop and a space, the parser returns the
    first eight bullets and the first three takeaways, as written and in
    their order. *)
Theorem parseResponse_formatted bullets items hasTranscript_ :
  Forall (fun b => one_line b /\ contains_ci b TAKEAWAYS = false) bullets ->
  Forall (fun item => fst item <> [] /\ Forall Digit (fst item) /\ one_line (snd item))
    items ->
  let r := _parseResponse (formatted bullets items) hasTranscript_ in
  summary r = take 8 bullets /\ takeaways r = take 3 (map snd items).
Proof.
  intros Hb Hi. cbn zeta.
  set (B := map (fun b => Js.str "- " ++ b) bullets).
  set (T := map (fun item => fst item ++ Js.str ". " ++ snd item) items).
  set (R := match T with [] => [] | _ :: _ => Js.nl ++ Js.join Js.nl T end).
  assert (Js.join Js.nl (TAKEAWAYS :: T) = TAKEAWAYS ++ R) as HT
    by (subst R; destruct T; [by rewrite app_nil_r|done]).
  assert (Forall (fun l => contains_ci l TAKEAWAYS = false) (B ++ [[]])) as HB.
  { apply Forall_app. split; [|by repeat constructor]. subst B. apply Forall_map.
    eapply Forall_impl; [exact Hb|]. intros b [_ ?]. by apply bullet_line_plain. }
  assert (Forall (Forall (fun c => c <> 10%N)) B) as HBnl.
  { subst B. apply Forall_map. eapply Forall_impl; [exact Hb|].
    intros b [Hone _]. by apply bullet_line_shape. }
  assert (Forall (Forall (fun c => c <> 10%N)) T) as HTnl.
  { subst T. apply Forall_map. eapply Forall_impl; [exact Hi|].
    intros [d t] (Hd & Hdigits & Hone). by apply numbered_line_shape. }
  assert (formatted bullets items
          = SUMMARY ++ Js.nl ++ concat (map (fun l => l ++ Js.nl) (B ++ [[]]))
            ++ TAKEAWAYS ++ R) as Htext.
  { unfold formatted. fold B T.
    change ([SUMMARY] ++ B ++ [[]; TAKEAWAYS] ++ T)
      with (SUMMARY :: (B ++ [[]; TAKEAWAYS] ++ T)).
    replace (B ++ [[]; TAKEAWAYS] ++ T) with ((B ++ [[]]) ++ TAKEAWAYS :: T)
      by (by rewrite <- app_assoc).
    destruct ((B ++ [[]]) ++ TAKEAWAYS :: T) as [|y ys] eqn:Hlist; [by destruct B|].
    rewrite join_cons2, <- Hlist, join_lines, HT. done. }
  unfold _parseResponse. cbn [summary takeaways].
  rewrite summarySection_direct, takeawaysSection_direct.
  unfold match_summary, match_takeaways. split.
  - rewrite Htext, after_marker_here.
    assert (Js.split_lines
              (until_takeaways
                 (Js.trimStart (Js.nl ++ concat (map (fun l => l ++ Js.nl) (B ++ [[]]))
                                ++ TAKEAWAYS ++ R)))
            = match B with [] => [[]] | _ :: _ => B ++ [[]; []] end) as ->.
    { destruct B as [|l B'] eqn:HBeq.
      - cbn [app map concat]. rewrite app_nil_r.
        change (Js.nl ++ Js.nl ++ TAKEAWAYS ++ R) with (10%N :: 10%N :: TAKEAWAYS ++ R).
        cbn [Js.trimStart]. change (Js.is_space 10) with true. cbn match.
        change (Js.trimStart (TAKEAWAYS ++ R)) with (TAKEAWAYS ++ R).
        by rewrite until_takeaways_here.
      - rewrite <- HBeq in *.
        change (Js.nl ++ ?t) with (10%N :: t). cbn [Js.trimStart].
        change (Js.is_space 10) with true. cbn match.
        rewrite trimStart_id.
        2:{ rewrite HBeq. subst B. destruct bullets as [|b bs]; [done|].
            injection HBeq as <- _. done. }
        rewrite until_lines by done. rewrite until_takeaways_here.
        rewrite split_lines_concat; [|by apply Forall_app; split; repeat constructor|done].
        by rewrite <- app_assoc. }
    f_equal.
    rewrite (List.map_ext _ _ remove_bullet_prefix).
    rewrite (List.filter_ext _ _ test_bullet).
    destruct B as [|l B'] eqn:HBeq.
    + assert (bullets = []) as -> by (by destruct bullets). done.
    + rewrite <- HBeq. subst B. apply bullets_back; [done|by repeat constructor].
  - rewrite Htext.
    change (SUMMARY ++ Js.nl ++ ?t) with (concat (map (fun l => l ++ Js.nl) [SUMMARY]) ++ t).
    rewrite app_assoc, <- concat_app, <- map_app.
    rewrite after_marker_lines, after_marker_here.
    2:{ by constructor. }
    f_equal.
    rewrite (List.map_ext _ _ remove_numeral_prefix).
    rewrite (List.filter_ext _ _ test_numeral).
    subst R. destruct T as [|l T'] eqn:HTeq.
    + assert (items = []) as -> by (by destruct items). done.
    + rewrite <- HTeq in *. change (Js.nl ++ ?t) with (10%N :: t). cbn [Js.trimStart].
      change (Js.is_space 10) with true. cbn match.
      rewrite trimStart_id.
      2:{ rewrite HTeq. subst T. destruct items as [|[d t] its]; [done|].
          injection HTeq as <- _. inversion Hi as [|? ? (Hd & Hdigits & _) _]; subst.
          cbn [fst snd] in *. destruct d as [|c d]; [done|].
          inversion Hdigits as [|? ? Hc _]; subst.
          apply join_head_solid; [|done]. cbn. by apply (digit_solid c). }
      rewrite split_join; [|by rewrite HTeq|done].
      subst T. by apply takeaways_back.
Qed.
End FormattedResponse.

Lemma parseResponse_formatted_witness :
  let r := GeminiAPI._parseResponse
             (lines ["SUMMARY:"; "- the first point"; "- the second point"; "";
                     "TAKEAWAYS:"; "1. remember this"; "2. and that"]%string) true in
  GeminiAPI.summary r = [Js.str "the first point"; Js.str "the second point"] /\
  GeminiAPI.takeaways r = [Js.str "remember this"; Js.str "and that"].
Proof.
  apply (parseResponse_formatted
           [Js.str "the first point"; Js.str "the second point"]
           [(Js.str "1", Js.str "remember this"); (Js.str "2", Js.str "and that")] true).
  - repeat (constructor;
            [split; [split; [discriminate
                            |split; [by vm_compute
                                    |by vm_compute; repeat (constructor; [discriminate|])]]
                    |by vm_compute]|]).
    constructor.
  - repeat (constructor;
            [split; [discriminate
                    |split; [by vm_compute; repeat (constructor; [reflexivity|])
                            |split; [discriminate
                                    |split; [by vm_compute
                                            |by vm_compute;
                                             repeat (constructor; [discriminate|])]]]]|]).
    constructor.
Defined.

(** ** Context menu *)

Section ContextMenuFacts.
Import Background ContextMenu.
Variable env : APIManager.Env.
Variable rejects : Storage.faults.
Variables viaInnertube fromPage : jsstring -> Js.result (option jsstring).
Variable fetchMetadata : jsstring -> TranscriptFetcher.VideoMetadata.
Variable clock : Clock.

(** The side panel handler sends exactly one message, an error or a
    summary. *)
Lemma generateAndShowSummary_one_message videoId title_ st :
  exists message,
    out (generateAndShowSummary env rejects viaInnertube fromPage fetchMetadata clock
           videoId title_ st) = [message].
Proof.
  unfold generateAndShowSummary.
  destruct (negb (checkProviderConfig env)); [by eexists|].
  destruct (SummaryCache.get _ _ _ _) as [[cached|] area1]; [by eexists|].
  destruct (APIManager.outcome _); by eexists.
Qed.

(** X29 (background.js, contextMenus.onClicked with extractVideoId and
    generateAndShowSummary): a click on the menu item, the side panel
    opening, never leaves the panel loading: the last message sent is an
    error or a summary, and the loading message, if any, is the first of
    two.  An id found in the link URL takes precedence over the video
    the content script reported; without either, the only message is
    the could-not-detect error, and neither cache nor provider is
    touched. *)
Theorem context_menu_click info tracked st :
  menuItemId info = Js.str "summarizeVideo" ->
  let run := onClicked env rejects viaInnertube fromPage fetchMetadata clock true
               info tracked st in
  let title_ := Js.or_default (contextMenuVideoTitle tracked) (Js.str "YouTube Video") in
  let summarize videoId :=
    generateAndShowSummary env rejects viaInnertube fromPage fetchMetadata clock
      videoId (Some title_) st in
  ((exists message, out run = [panel message]) \/
   (exists message, out run = [showLoading title_; panel message])) /\
  title_ <> [] /\
  (forall videoId, VideoId.extractVideoId (linkUrl info) = Some videoId ->
     out run = showLoading title_ :: map panel (out (summarize videoId)) /\
     events run = events (summarize videoId)) /\
  (VideoId.extractVideoId (linkUrl info) = None ->
   Js.truthy (contextMenuVideoId tracked) = false ->
   out run = [panel (showError COULD_NOT_DETECT)] /\ events run = [] /\ state run = st).
Proof.
  intros Hitem run title_ summarize. subst run. unfold onClicked. rewrite Hitem.
  change (Js.eqb (Js.str "summarizeVideo") (Js.str "summarizeVideo")) with true.
  cbn match. fold title_.
  split; [|split; [|split]].
  - destruct (clicked_video info tracked) as [[|c videoId]|]; try (left; by eexists).
    right. fold (summarize (c :: videoId)).
    destruct (generateAndShowSummary_one_message (c :: videoId) (Some title_) st)
      as [message Hone].
    fold (summarize (c :: videoId)) in Hone. cbn [out]. rewrite Hone. by eexists.
  - subst title_. by destruct (contextMenuVideoTitle tracked) as [[|? ?]|].
  - intros videoId Hid.
    assert (clicked_video info tracked = Some videoId) as ->.
    { unfold clicked_video.
      assert (Js.truthy (linkUrl info) = true) as ->
        by (destruct (linkUrl info) as [[|? ?]|]; done).
      rewrite Hid.
      destruct (extractVideoId_shape _ _ Hid) as (Hne & _).
      by destruct videoId. }
    destruct (extractVideoId_shape _ _ Hid) as (Hne & _).
    destruct videoId as [|c videoId]; [done|]. done.
  - intros Hid Htracked. unfold clicked_video. rewrite Hid, Htracked.
    rewrite andb_false_r. by destruct (Js.truthy (linkUrl info)).
Qed.
End ContextMenuFacts.

Lemma context_menu_click_witness :
  Background.out
    (ContextMenu.onClicked gemini_env Storage.reliable (captions "words") no_captions
       (fun _ => some_metadata) a_clock true link_click hovered fresh)
  = ContextMenu.showLoading (Js.str "A title")
    :: map ContextMenu.panel
         (Background.out
            (Background.generateAndShowSummary gemini_env Storage.reliable
               (captions "words") no_captions (fun _ => some_metadata) a_clock
               (Js.str "abc123") (Some (Js.str "A title")) fresh)).
Proof.
  edestruct (context_menu_click gemini_env Storage.reliable (captions "words")
               no_captions (fun _ => some_metadata) a_clock link_click hovered fresh)
    as (_ & _ & Hlink & _).
  - reflexivity.
  - edestruct (Hlink (Js.str "abc123")) as (Hout & _).
    + vm_compute. reflexivity.
    + exact Hout.
Defined.

(** ** Settings page and popup *)

Section SettingsFacts.
Import Options.

(** X30 (options.js, saveSettings; background.js, checkProviderConfig;
    popup.js, checkStatus): settings that the settings page saves
    configure the service worker, so that it will not answer that no
    provider is configured.  Every stored string is trimmed, the Ollama
    model is not empty, and the hover delay lies between 100 and 2000.
    The popup does not look at the OpenRouter key: where it shows Not
    configured for saved settings, an OpenRouter key is stored and is
    the only provider setting. *)
Theorem saved_settings_configure form set_rejects sync sync' env :
  saveSettings form set_rejects sync = (Saved, sync') ->
  configured_by sync' env ->
  let s := stored sync' in
  Background.checkProviderConfig env = true /\
  (stored_trimmed (APIManager.apiKey s) /\
   stored_trimmed (APIManager.openRouterApiKey s) /\
   stored_trimmed (APIManager.openRouterModel s) /\
   stored_trimmed (APIManager.deepSeekApiKey s) /\
   stored_trimmed (APIManager.ollamaUrl s) /\
   stored_trimmed (APIManager.ollamaModel s)) /\
  Js.truthy (APIManager.ollamaModel s) = true /\
  (exists delay, stored_hoverDelay sync' = Some delay /\ 100 <= delay <= 2000) /\
  (Popup.checkStatus false sync' = Some Popup.NotConfigured ->
   Js.truthy (APIManager.openRouterApiKey s) = true /\
   APIManager.apiKey s = Some [] /\
   APIManager.deepSeekApiKey s = Some [] /\
   APIManager.ollamaUrl s = Some []).
Proof.
  unfold saveSettings, configured_by. intros Hsave Henv.
  destruct (negb (Js.truthy (Some (Js.trim (apiKey form)))) && _ && _ && _) eqn:Hnone;
    [done|].
  destruct (hoverDelay form) as [delay|]; [|done].
  destruct ((delay <? 100) || (2000 <? delay)) eqn:Hrange; [done|].
  destruct set_rejects; [done|].
  injection Hsave as <-. cbn zeta. cbn [stored stored_hoverDelay].
  cbn [APIManager.apiKey APIManager.openRouterApiKey APIManager.openRouterModel
       APIManager.deepSeekApiKey APIManager.ollamaUrl APIManager.ollamaModel].
  assert (forall u, stored_trimmed (Some (Js.trim u))) as Htrim
    by (intros u; exists (Js.trim u); split; [done|apply trim_trimmed]).
  split; [|split; [|split; [|split]]].
  - unfold Background.checkProviderConfig. rewrite Henv. cbn [stored].
    cbn [APIManager.apiKey APIManager.openRouterApiKey APIManager.deepSeekApiKey
         APIManager.ollamaUrl].
    destruct (Js.truthy (Some (Js.trim (apiKey form)))),
             (Js.truthy (Some (Js.trim (openRouterApiKey form)))),
             (Js.truthy (Some (Js.trim (deepSeekApiKey form)))),
             (Js.truthy (Some (Js.trim (ollamaUrl form)))); done.
  - repeat split; try apply Htrim.
    destruct (Js.trim (ollamaModel form)) as [|c m] eqn:Hmodel.
    + by eexists.
    + cbn [Js.or_default]. rewrite <- Hmodel. apply Htrim.
  - by destruct (Js.trim (ollamaModel form)).
  - exists delay. split; [done|lia].
  - unfold Popup.checkStatus. cbn [stored].
    cbn [APIManager.apiKey APIManager.openRouterApiKey APIManager.deepSeekApiKey
         APIManager.ollamaUrl].
    destruct (Js.trim (apiKey form)), (Js.trim (deepSeekApiKey form)),
             (Js.trim (ollamaUrl form)); try done.
    destruct (Js.trim (openRouterApiKey form)); done.
Qed.

Lemma saved_settings_configure_witness :
  Popup.checkStatus false (snd (saveSettings openrouter_form false fresh_sync))
    = Some Popup.NotConfigured /\
  Background.checkProviderConfig
    {| APIManager.settings := stored (snd (saveSettings openrouter_form false fresh_sync));
       APIManager.fetch := APIManager.fetch (ollama_env 200);
       APIManager.type_error_message := [] |} = true.
Proof.
  split; [vm_compute; reflexivity|].
  apply (saved_settings_configure openrouter_form false fresh_sync
           (snd (saveSettings openrouter_form false fresh_sync))).
  - vm_compute. reflexivity.
  - reflexivity.
Defined.
End SettingsFacts.
